(** * flexicomic: panel generation orchestration

    A shallow embedding of the geometry engine ([layout-parser.ts]), the
    selection parser ([validation.ts]), the image generation adapter
    ([image-gen-adapter.ts]), the generation controller ([parallel.ts]) and
    the top-level pipeline ([generate.ts], [composite.ts]), followed by the
    properties of the design document that concern them. *)

From Stdlib Require Import ZArith QArith Qround Lia List String Ascii.
From stdpp Require Import base option list sorting gmap strings pretty.

#[local] Set Warnings "-clear-no-such-hyp".

Local Open Scope Z_scope.
Local Open Scope string_scope.
Local Open Scope list_scope.

(** ** JavaScript values used by the program *)

Module JS.

(** A [number] is the value of an IEEE double: a rational, an infinity or
    NaN.  Arithmetic is exact (the rounding of doubles is not modelled, and
    neither is the sign of zero), so the model agrees with the source
    wherever the source's intermediate results are representable, which
    includes all integer arithmetic below 2^53. Finite results are kept
    in lowest terms so that equal numbers are equal terms. *)
Inductive number : Type :=
| Fin (q : Q)
| Inf (negative : bool)
| NaN.

Definition of_Z (z : Z) : number := Fin (inject_Z z).
Definition of_nat (n : nat) : number := of_Z (Z.of_nat n).

Definition Qsign_neg (q : Q) : bool := (Qnum q <? 0)%Z.
Definition Qis_zero (q : Q) : bool := (Qnum q =? 0)%Z.

Definition neg (a : number) : number :=
  match a with
  | Fin q => Fin (Qred (- q))
  | Inf s => Inf (negb s)
  | NaN => NaN
  end.

Definition add (a b : number) : number :=
  match a, b with
  | Fin x, Fin y => Fin (Qred (x + y))
  | Fin _, Inf s | Inf s, Fin _ => Inf s
  | Inf s, Inf t => if Bool.eqb s t then Inf s else NaN
  | _, _ => NaN
  end.

Definition sub (a b : number) : number := add a (neg b).

Definition mul (a b : number) : number :=
  match a, b with
  | Fin x, Fin y => Fin (Qred (x * y))
  | Fin x, Inf s | Inf s, Fin x =>
      if Qis_zero x then NaN else Inf (xorb s (Qsign_neg x))
  | Inf s, Inf t => Inf (xorb s t)
  | _, _ => NaN
  end.

Definition div (a b : number) : number :=
  match a, b with
  | Fin x, Fin y =>
      if Qis_zero y
      then (if Qis_zero x then NaN else Inf (Qsign_neg x))
      else Fin (Qred (x / y))
  | Fin _, Inf _ => Fin 0
  | Inf s, Fin y => Inf (xorb s (Qsign_neg y))
  | _, _ => NaN
  end.

(** Truncation towards zero. *)
Definition Qtrunc (q : Q) : Z := (Qnum q ÷ Z.pos (Qden q))%Z.

(** [a % b]: the remainder has the sign of the dividend. *)
Definition rem (a b : number) : number :=
  match a, b with
  | Fin x, Fin y =>
      if Qis_zero y then NaN
      else Fin (Qred (x - y * inject_Z (Qtrunc (x / y))))
  | Fin x, Inf _ => Fin x
  | _, _ => NaN
  end.

(** [Math.round]: the nearest integer, halves going up. *)
Definition round (a : number) : number :=
  match a with
  | Fin x => of_Z (Qfloor (x + (1 # 2)))
  | _ => a
  end.

Definition isNaN (a : number) : bool :=
  match a with NaN => true | _ => false end.

(** [a === b] on numbers. *)
Definition eqb (a b : number) : bool :=
  match a, b with
  | Fin x, Fin y => Qeq_bool x y
  | Inf s, Inf t => Bool.eqb s t
  | _, _ => false
  end.

(** [a <= b] and [a < b]; every comparison with NaN is false. *)
Definition leb (a b : number) : bool :=
  match a, b with
  | Fin x, Fin y => Qle_bool x y
  | Fin _, Inf t => negb t
  | Inf s, Fin _ => s
  | Inf s, Inf t => s || negb t
  | _, _ => false
  end.

Definition ltb (a b : number) : bool :=
  match a, b with
  | NaN, _ | _, NaN => false
  | _, _ => negb (leb b a)
  end.

Definition geb (a b : number) : bool := leb b a.
Definition gtb (a b : number) : bool := ltb b a.

(** Truthiness of a number: [0] and [NaN] are falsy. *)
Definition truthy (a : number) : bool :=
  match a with
  | Fin x => negb (Qis_zero x)
  | Inf _ => true
  | NaN => false
  end.

(** [x || d] for an optional numeric property [x]: [undefined], [0] and
    [NaN] all give the default. *)
Definition or_default (x : option number) (d : number) : number :=
  match x with
  | Some n => if truthy n then n else d
  | None => d
  end.

Definition is_integer (q : Q) : bool := Qeq_bool (inject_Z (Qfloor q)) q.

(** Conversion to a string in a template literal.  The program only
    formats results of [Math.round], whose finite values are integers;
    the fraction form of the last-but-two case is never produced by it. *)
Definition toString (a : number) : string :=
  match a with
  | Fin q =>
      if is_integer q then pretty (Qfloor q)
      else pretty (Qnum q) +:+ "/" +:+ pretty (Z.pos (Qden q))
  | Inf false => "Infinity"
  | Inf true => "-Infinity"
  | NaN => "NaN"
  end.

(** *** Strings *)

(** White space skipped by [trim] and [parseInt] (the ASCII part of it). *)
Definition is_space (c : ascii) : bool :=
  let n := nat_of_ascii c in
  ((n =? 32) || ((9 <=? n) && (n <=? 13)))%nat.

Definition is_digit (c : ascii) : bool :=
  let n := nat_of_ascii c in ((48 <=? n) && (n <=? 57))%nat.

Definition digit_value (c : ascii) : Z := Z.of_nat (nat_of_ascii c) - 48.

Fixpoint trimStart (s : string) : string :=
  match s with
  | String c r => if is_space c then trimStart r else s
  | EmptyString => EmptyString
  end.

Fixpoint trimEnd (s : string) : string :=
  match s with
  | String c r =>
      match trimEnd r with
      | EmptyString => if is_space c then EmptyString else String c EmptyString
      | r' => String c r'
      end
  | EmptyString => EmptyString
  end.

Definition trim (s : string) : string := trimEnd (trimStart s).

(** [s.includes(c)] for a one-character needle. *)
Fixpoint includes (c : ascii) (s : string) : bool :=
  match s with
  | String d r => Ascii.eqb c d || includes c r
  | EmptyString => false
  end.

(** [s.split(c)] for a one-character separator: never empty, and the
    separator never occurs in a piece. *)
Fixpoint split (c : ascii) (s : string) : list string :=
  match s with
  | EmptyString => [EmptyString]
  | String d r =>
      if Ascii.eqb c d then EmptyString :: split c r
      else match split c r with
           | p :: ps => String d p :: ps
           | [] => [String d EmptyString]
           end
  end.

(** The digits at the head of a string, read in base 10 from [acc];
    [None] when there is no digit at all. *)
Fixpoint digits (acc : option Z) (s : string) : option Z :=
  match s with
  | String c r =>
      if is_digit c
      then digits (Some (10 * default 0 acc + digit_value c)) r
      else acc
  | EmptyString => acc
  end.

(** [parseInt(s, 10)]: optional white space, an optional sign, then the
    longest run of digits; what follows is ignored.  The result is an
    integer, or NaN ([None] here) when there is no digit. *)
Definition parseInt_Z (s : string) : option Z :=
  match trimStart s with
  | String "-" r => Z.opp <$> digits None r
  | String "+" r => digits None r
  | r => digits None r
  end.

Definition parseInt (s : string) : number :=
  match parseInt_Z s with Some n => of_Z n | None => NaN end.

(** *** Arrays and sets *)

(** [new Set(l)], as the list of its elements in insertion order: each
    value is kept where it first occurs. *)
Definition Set_add `{EqDecision A} (acc : list A) (a : A) : list A :=
  if decide (a ∈ acc) then acc else acc ++ [a].

Definition new_Set `{EqDecision A} (l : list A) : list A :=
  fold_left Set_add l [].

(** [l[i]] for an integer index: [undefined] outside the array. *)
Definition nth_Z {A} (l : list A) (i : Z) : option A :=
  if decide (0 <= i) then l !! Z.to_nat i else None.

(** The values of [for (let i = start; i <= end; i++)]. *)
Definition for_range (start end_ : Z) : list Z :=
  (fun k => start + Z.of_nat k) <$> seq 0 (Z.to_nat (end_ - start + 1)).

(** Thrown values. *)
Inductive error : Type :=
| Error (message : string)
| RangeError (message : string)
| Null.

End JS.

Abbreviation number := JS.number.

(** ** Configuration types ([types.ts]) *)

Record GridPosition := { row : number; col : number }.

Record PanelCharacter := {
  character_id : string;
  expression : option string;
  angle : option string;
  action : option string
}.

Record PanelConfig := {
  panel_id : string;
  position : GridPosition;
  rowspan : option number;
  colspan : option number;
  sizeRatio : option number;
  prompt : string;
  panel_characters : list PanelCharacter;
  focus : option string;
  aspectRatio : option string;
  notes : option string
}.

Record GridSettings := {
  rows : number;
  cols : number;
  gutter : option number
}.

Record LayoutConfig := {
  layout_type : string;
  grid : option GridSettings;
  panels : list PanelConfig
}.

Record PageConfig := {
  page_id : string;
  title : option string;
  layout : LayoutConfig
}.

Record PageSettings := {
  ps_aspectRatio : string;
  dpi : option number;
  outputFormat : option string;
  ps_width : option number;
  ps_height : option number
}.

Record CharacterConfig := {
  char_id : string;
  char_name : string;
  char_description : option string
}.

Record FlexicomicConfig := {
  meta_title : string;
  artStyle : string;
  tone : string;
  basePrompt : option string;
  pageSettings : PageSettings;
  characters : list CharacterConfig;
  pages : list PageConfig
}.

Record PanelBounds := { x : number; y : number; w : number; h : number }.

Record PageSize := { width : number; height : number }.

(** A computation that returns or throws. *)
Inductive Result (A : Type) : Type :=
| Ok (a : A)
| Throw (e : JS.error).
Arguments Ok {A} a.
Arguments Throw {A} e.

(** ** The geometry engine ([utils/layout-parser.ts]) *)

Module Layout.
Import JS.

(** [pageSettings.width && pageSettings.height], with the size they give:
    both are present and neither is 0 or NaN. *)
Definition explicit_size (ps : PageSettings) : option PageSize :=
  match ps_width ps, ps_height ps with
  | Some w, Some h =>
      if truthy w && truthy h then Some {| width := w; height := h |}
      else None
  | _, _ => None
  end.

(** A component that the aspect ratio does not have is [undefined], for
    which [isNaN] holds. *)
Definition calculatePageSize (config : FlexicomicConfig) : Result PageSize :=
  let ps := pageSettings config in
  match explicit_size ps with
  | Some size => Ok size
  | None =>
      let parts := parseInt <$> split ":" (ps_aspectRatio ps) in
      let invalid :=
        Throw (Error ("Invalid aspect ratio: " +:+ ps_aspectRatio ps)) in
      match parts !! 0%nat, parts !! 1%nat with
      | Some w, Some h =>
          if isNaN w || isNaN h || leb w (of_Z 0) || leb h (of_Z 0)
          then invalid
          else
            let dpi := or_default (dpi ps) (of_Z 300) in
            let baseSize := mul dpi (of_Z 10) in
            if geb w h then
              Ok {| width := baseSize;
                    height := round (div (mul baseSize h) w) |}
            else
              Ok {| width := round (div (mul baseSize w) h);
                    height := baseSize |}
      | _, _ => invalid
      end
  end.

Definition calculatePanelBoundsCustom
    (panel : PanelConfig) (grid : GridSettings) (pageSize : PageSize)
    : PanelBounds :=
  let rowspan := or_default (rowspan panel) (of_Z 1) in
  let colspan := or_default (colspan panel) (of_Z 1) in
  let gutter := or_default (gutter grid) (of_Z 10) in
  let cellWidth :=
    div (sub (width pageSize) (mul gutter (add (cols grid) (of_Z 1))))
        (cols grid) in
  let cellHeight :=
    div (sub (height pageSize) (mul gutter (add (rows grid) (of_Z 1))))
        (rows grid) in
  let x := add gutter (mul (col (position panel)) (add cellWidth gutter)) in
  let y := add gutter (mul (row (position panel)) (add cellHeight gutter)) in
  let w := add (mul colspan cellWidth) (mul (sub colspan (of_Z 1)) gutter) in
  let h := add (mul rowspan cellHeight) (mul (sub rowspan (of_Z 1)) gutter) in
  {| x := x; y := y; w := w; h := h |}.

Definition mkGrid (r c g : number) : GridSettings :=
  {| rows := r; cols := c; gutter := Some g |}.

Definition getLayoutGrid (layoutType : string) (panelsCount : number)
    : GridSettings :=
  if String.eqb layoutType "2x2-grid" then mkGrid (of_Z 2) (of_Z 2) (of_Z 10)
  else if String.eqb layoutType "cinematic" then mkGrid (of_Z 3) (of_Z 2) (of_Z 10)
  else if String.eqb layoutType "webtoon" then mkGrid panelsCount (of_Z 1) (of_Z 5)
  else if String.eqb layoutType "dense" then mkGrid (of_Z 3) (of_Z 3) (of_Z 8)
  else if String.eqb layoutType "splash" then mkGrid (of_Z 1) (of_Z 1) (of_Z 0)
  else mkGrid (of_Z 2) (of_Z 2) (of_Z 10).

End Layout.

#[global] Instance Result_ret : MRet Result := @Ok.
#[global] Instance Result_bind : MBind Result := fun A B f r =>
  match r with Ok a => f a | Throw e => Throw e end.

Definition throw {A} (e : JS.error) : Result A := Throw e.

(** [for (const a of l)] with a body that may throw, threading the body's
    local state. *)
Fixpoint for_of {A S} (l : list A) (body : A → S → Result S) (s : S)
    : Result S :=
  match l with
  | [] => Ok s
  | a :: l' => s' ← body a s; for_of l' body s'
  end.

(** ** Page and panel selections ([validation.ts]) *)

Module Validation.
Import JS.

(** [parseInt] results are integers or NaN; selections keep them as [Z]. *)
Definition validatePageRange (range : string) (totalPages : Z)
    : Result (list Z) :=
  pages ← for_of (split "," range) (fun part pages =>
    let trimmed := trim part in
    if includes "-" trimmed then
      let bounds := (fun s => parseInt_Z (trim s)) <$> split "-" trimmed in
      match bounds !! 0%nat, bounds !! 1%nat with
      | Some (Some start), Some (Some end_) =>
          Ok (pages ++ filter (fun i => 1 <= i ∧ i <= totalPages)
                              (for_range start end_))
      | _, _ => throw (Error ("Invalid page range: " +:+ trimmed))
      end
    else
      match parseInt_Z trimmed with
      | None => throw (Error ("Invalid page number: " +:+ trimmed))
      | Some page =>
          if decide (1 <= page ∧ page <= totalPages)
          then Ok (pages ++ [page]) else Ok pages
      end) [];
  Ok (merge_sort Z.le (new_Set pages)).

(** [pages.find(p => p.id === pageId)] *)
Definition find_page (pageId : string) (pages : list PageConfig)
    : option PageConfig :=
  List.find (fun p => String.eqb (page_id p) pageId) pages.

(** [page.layout.panels[i - 1]] followed by [if (panel)]. *)
Definition panel_at (page : PageConfig) (i : Z) : list string :=
  match nth_Z (panels (layout page)) (i - 1) with
  | Some panel => [panel_id panel]
  | None => []
  end.

Definition validatePanelRange (range : string) (pages : list PageConfig)
    : Result (list string) :=
  let parts := split ":" range in
  match parts !! 1%nat with
  | None | Some "" =>
      throw (Error "Invalid panel range format. Expected: pageId:range (e.g., page1:1-3)")
  | Some panelRange =>
      let pageId := default "" (parts !! 0%nat) in
      match find_page pageId pages with
      | None => throw (Error ("Page not found: " +:+ pageId))
      | Some page =>
          let totalPanels := Z.of_nat (length (panels (layout page))) in
          panels ← for_of (split "," panelRange) (fun part panels =>
            let trimmed := trim part in
            if includes "-" trimmed then
              let bounds :=
                (fun s => parseInt_Z (trim s)) <$> split "-" trimmed in
              match bounds !! 0%nat, bounds !! 1%nat with
              | Some (Some start), Some (Some end_) =>
                  Ok (panels ++
                      (filter (fun i => 1 <= i ∧ i <= totalPanels)
                              (for_range start end_) ≫= panel_at page))
              | _, _ => throw (Error ("Invalid panel range: " +:+ trimmed))
              end
            else
              match parseInt_Z trimmed with
              | None => throw (Error ("Invalid panel number: " +:+ trimmed))
              | Some idx =>
                  if decide (1 <= idx ∧ idx <= totalPanels)
                  then Ok (panels ++ panel_at page idx) else Ok panels
              end) [];
          Ok (new_Set panels)
      end
  end.

End Validation.

(** ** The world the program acts on *)

Record ImageGenOptions := {
  o_prompt : string;
  output : string;
  ar : option string;
  quality : option string;
  provider : option string;
  refImages : option (list string)
}.

(** What an observer of a run can see, besides the files. *)
Inductive Event : Type :=
| EvSpawn (options : ImageGenOptions)
    (** the image generation process is started *)
| EvRetryWarning (attempt : Z)
    (** "Generation attempt n failed, retrying..." *)
| EvPrompt (page panel : string)
    (** the prompt builder is asked for the prompt of a panel *)
| EvStatus (i total : Z) (panel : string)
    (** the status line of a sequential run *)
| EvProgress (completed total : Z)
    (** the progress line of a parallel run *)
| EvProgressDone (completed total : Z)
    (** the last progress line of a parallel run, always at 100% *)
| EvPanelWarning (panel : string) (e : JS.error)
    (** "Warning: Failed to generate <panel>: <error>" *)
| EvCharacterWarning (character : string) (e : JS.error)
| EvComposed (page : string)
| EvComposeWarning (page : string) (e : JS.error).

(** [files]: the paths that exist; [log]: the events so far, oldest first;
    [completed]: the counter that [generatePanelParallel] declares and its
    progress callback increments. *)
Record World := {
  files : gset string;
  log : list Event;
  completed : Z
}.

Definition emit (e : Event) (σ : World) : World :=
  {| files := files σ; log := log σ ++ [e]; completed := completed σ |}.

Definition writeFile (path : string) (σ : World) : World :=
  {| files := {[path]} ∪ files σ; log := log σ; completed := completed σ |}.

Definition set_completed (c : Z) (σ : World) : World :=
  {| files := files σ; log := log σ; completed := c |}.

Definition existsSync (path : string) (σ : World) : bool :=
  bool_decide (path ∈ files σ).

(** Effectful code: reads and changes the world, and returns or throws. *)
Definition M (A : Type) : Type := World → Result A * World.

#[global] Instance M_ret : MRet M := fun A a σ => (Ok a, σ).
#[global] Instance M_bind : MBind M := fun A B f m σ =>
  match m σ with
  | (Ok a, σ') => f a σ'
  | (Throw e, σ') => (Throw e, σ')
  end.

Definition raise {A} (e : JS.error) : M A := fun σ => (Throw e, σ).
Definition tell (e : Event) : M unit := fun σ => (Ok tt, emit e σ).
Definition lift {A} (r : Result A) : M A := fun σ => (r, σ).
Definition get : M World := fun σ => (Ok σ, σ).
Definition modify (f : World → World) : M unit := fun σ => (Ok tt, f σ).

(** [try { body } catch (e) { handler e }] *)
Definition try_catch {A} (body : M A) (handler : JS.error → M A) : M A :=
  fun σ =>
    match body σ with
    | (Ok a, σ') => (Ok a, σ')
    | (Throw e, σ') => handler e σ'
    end.

(** [for (const a of l)] with an effectful body. *)
Fixpoint forM {A} (l : list A) (body : A → M unit) : M unit :=
  match l with
  | [] => mret tt
  | a :: l' => body a;; forM l' body
  end.

(** A call of an [async] function runs the body up to its first [await]
    and hands back a promise, which is the rest of the body; a throw
    before the first [await] gives a promise that rejects.  [await] of a
    promise runs that rest. *)
Definition Promise (A : Type) : Type := M A.
Definition Async (A : Type) : Type := M (Promise A).

Definition await {A} (call : Async A) : M A := p ← call; p.

(** [l.map(f)] with a function [f] that starts an asynchronous call is
    stdpp's [mapM f l].

    [await Promise.all(ps)]: all promises run to their end, here one after
    the other in the order of the array; the result rejects with the first
    rejection. *)
Fixpoint Promise_all (ps : list (Promise unit)) : M unit :=
  match ps with
  | [] => mret tt
  | p :: ps' => fun σ =>
      match p σ with
      | (Ok _, σ') => Promise_all ps' σ'
      | (Throw e, σ') => (Throw e, snd (Promise_all ps' σ'))
      end
  end.

(** ** The image generation adapter ([utils/image-gen-adapter.ts]) *)

Module Adapter.
Import JS.

(** The local [gcd] of [calculatePanelAspectRatio].  The recursion of the
    source has no bound of its own; [depth] is the number of calls
    allowed, and running out of it is the overflow of the call stack. *)
Fixpoint gcd (depth : nat) (a b : number) : Result number :=
  match depth with
  | O => Throw (RangeError "Maximum call stack size exceeded")
  | S d => if eqb b (of_Z 0) then Ok a else gcd d b (rem a b)
  end.

(** Enough calls for the recursion to end when it ends at all: on finite
    arguments the remainders, written over a common denominator, decrease
    ([gcd_finite] below); with an infinity or NaN the recursion ends
    within two calls or the second argument is NaN for ever. *)
Definition gcd_depth (a b : number) : nat :=
  match a, b with
  | Fin x, Fin y => S (S (Z.to_nat (Z.abs (Qnum y) * Z.pos (Qden x))))
  | _, _ => 3
  end.

Definition calculatePanelAspectRatio (panelWidth panelHeight : number)
    : Result string :=
  divisor ← gcd (gcd_depth panelWidth panelHeight) panelWidth panelHeight;
  let w := round (div panelWidth divisor) in
  let h := round (div panelHeight divisor) in
  Ok (toString w +:+ ":" +:+ toString h).

Section Provider.
(** The exit code of the image generation process started with the given
    options in the given world.  As the design document has it, the
    process leaves the file [output] behind when it exits with 0 and
    nothing otherwise.  Making the output directory ([mkdir]) and starting
    the process are taken to succeed. *)
Variable spawn : ImageGenOptions → World → Z.

Definition callImageGen (options : ImageGenOptions) : M unit :=
  fun σ =>
    let σ1 := emit (EvSpawn options) σ in
    let exitCode := spawn options σ in
    if decide (exitCode ≠ 0) then
      (Throw (Error ("Image generation failed with exit code "
                     +:+ pretty exitCode)), σ1)
    else (Ok tt, writeFile (output options) σ1).

(** The loop of [callImageGenWithRetry], with [n] iterations left. *)
Fixpoint retry_loop (options : ImageGenOptions) (maxRetries : Z)
    (n : nat) (attempt : Z) (lastError : JS.error) : M unit :=
  match n with
  | O => raise lastError
  | S n' =>
      try_catch (callImageGen options) (fun error =>
        (if decide (attempt < maxRetries)
         then tell (EvRetryWarning (attempt + 1)) else mret tt);;
        retry_loop options maxRetries n' (attempt + 1) error)
  end.

Definition callImageGenWithRetry (options : ImageGenOptions)
    (maxRetries : Z) : M unit :=
  retry_loop options maxRetries (Z.to_nat (maxRetries + 1)) 0 Null.

End Provider.
End Adapter.

(** ** The generation controller ([parallel.ts]) *)

Record PanelToGenerate := {
  page : PageConfig;
  panel : PanelConfig;
  pageIndex : Z;
  panelIndex : Z
}.

Record ParallelOptions := {
  concurrency : option Z;
  par_provider : string
}.

Module Controller.
Import JS Layout Adapter.

Section Collaborators.
Variable spawn : ImageGenOptions → World → Z.
(** [path.join] *)
Variable path_join : list string → string.
(** The prompt builder and the reference image lookup
    ([utils/prompt-builder.ts]). *)
Variable buildPanelPrompt :
  FlexicomicConfig → PageConfig → PanelConfig → string.
Variable getCharacterReferenceImages :
  FlexicomicConfig → PageConfig → PanelConfig → string → World →
  list string.

Definition outputPath (outputDir : string) (panel : PanelConfig) : string :=
  path_join [outputDir; "panels"; panel_id panel +:+ ".png"].

(** The grid a page is laid out on. *)
Definition effective_grid (page : PageConfig) : GridSettings :=
  match grid (layout page) with
  | Some g => g
  | None => getLayoutGrid (layout_type (layout page))
                          (of_nat (length (panels (layout page))))
  end.

Definition defaultPageSize : PageSize :=
  {| width := of_Z 1200; height := of_Z 1600 |}.

(** [panel.aspectRatio || calculatePanelAspectRatio(bounds.w, bounds.h)] *)
Definition panelAspectRatio (item : PanelToGenerate) : Result string :=
  let bounds :=
    calculatePanelBoundsCustom (panel item) (effective_grid (page item))
                               defaultPageSize in
  match aspectRatio (panel item) with
  | Some (String c r) => Ok (String c r)
  | _ => calculatePanelAspectRatio (w bounds) (h bounds)
  end.

(** The part of [generateSinglePanel] after [await buildPanelPrompt]. *)
Definition generateSinglePanel_rest (item : PanelToGenerate)
    (config : FlexicomicConfig) (outputDir provider ar : string)
    : Promise unit :=
  let prompt := buildPanelPrompt config (page item) (panel item) in
  σ ← get;
  let refImages :=
    getCharacterReferenceImages config (page item) (panel item)
                                outputDir σ in
  callImageGenWithRetry spawn
    {| o_prompt := prompt;
       output := outputPath outputDir (panel item);
       ar := Some ar;
       quality := Some "2k";
       provider := Some provider;
       refImages := match refImages with [] => None | l => Some l end |}
    2.

Definition generateSinglePanel (item : PanelToGenerate)
    (config : FlexicomicConfig) (outputDir provider : string)
    : Async unit :=
  σ ← get;
  if existsSync (outputPath outputDir (panel item)) σ then
    mret (mret tt)
  else
    match panelAspectRatio item with
    | Throw e => mret (raise e)
    | Ok ar =>
        tell (EvPrompt (page_id (page item)) (panel_id (panel item)));;
        mret (generateSinglePanel_rest item config outputDir provider ar)
    end.

Definition generatePanelWithProgress (item : PanelToGenerate)
    (config : FlexicomicConfig) (outputDir provider : string)
    (onProgress : M unit) : Async unit :=
  p ← generateSinglePanel item config outputDir provider;
  mret (try_catch (p;; onProgress)
          (fun error =>
             tell (EvPanelWarning (panel_id (panel item)) error);;
             onProgress)).

(** The callback passed by [generatePanelParallel]. *)
Definition onProgress (total : Z) : M unit :=
  σ ← get;
  let c := completed σ + 1 in
  modify (set_completed c);;
  tell (EvProgress c total).

(** [panels.slice(i, i + concurrency)] *)
Definition slice {A} (i n : nat) (l : list A) : list A := take n (drop i l).

(** The batch loop of [generatePanelParallel] from index [i] on; [fuel]
    bounds the number of batches. *)
Fixpoint batch_loop (fuel : nat) (i : nat) (concurrency : nat)
    (panels : list PanelToGenerate) (config : FlexicomicConfig)
    (outputDir provider : string) : M unit :=
  match fuel with
  | O => mret tt
  | S fuel' =>
      if decide (i < length panels)%nat then
        let batch := slice i concurrency panels in
        promises ← mapM (M := M) (fun item =>
          generatePanelWithProgress item config outputDir provider
            (onProgress (Z.of_nat (length panels)))) batch;
        Promise_all promises;;
        batch_loop fuel' (i + concurrency) concurrency panels config
                   outputDir provider
      else mret tt
  end.

Definition clamp_concurrency (c : option Z) : Z :=
  let c := match c with Some 0 | None => 4 | Some c => c end in
  Z.min (Z.max 1 c) 8.

Definition generatePanelParallel (panels : list PanelToGenerate)
    (config : FlexicomicConfig) (outputDir : string)
    (options : ParallelOptions) : M unit :=
  let concurrency := clamp_concurrency (concurrency options) in
  modify (set_completed 0);;
  batch_loop (length panels) 0 (Z.to_nat concurrency) panels config
             outputDir (par_provider options);;
  σ ← get;
  tell (EvProgressDone (completed σ) (Z.of_nat (length panels))).

Definition generatePanelSequential (panels : list PanelToGenerate)
    (config : FlexicomicConfig) (outputDir provider : string) : M unit :=
  forM (imap (fun i item => (i, item)) panels) (fun '(i, item) =>
    tell (EvStatus (Z.of_nat i + 1) (Z.of_nat (length panels))
                   (panel_id (panel item)));;
    await (generateSinglePanel item config outputDir provider)).

End Collaborators.
End Controller.

(** ** Character references, composition and the pipeline
       ([character-refs.ts], [composite.ts], [generate.ts]) *)

Record GenerateOptions := {
  opt_pages : option string;
  opt_panels : option string;
  parallel : bool;
  opt_concurrency : option Z;
  opt_provider : option string;
  skipRefs : bool;
  skipComposite : bool
}.

Module Pipeline.
Import JS Layout Adapter Validation Controller.

Section Collaborators.
Variable spawn : ImageGenOptions → World → Z.
Variable path_join : list string → string.
Variable buildPanelPrompt :
  FlexicomicConfig → PageConfig → PanelConfig → string.
Variable getCharacterReferenceImages :
  FlexicomicConfig → PageConfig → PanelConfig → string → World →
  list string.
(** The text of the four reference sheet prompts of a character. *)
Variable characterPrompt :
  string → CharacterConfig → FlexicomicConfig → string.
(** [resolveProvider]: the preferred provider, or one found in the
    environment, or an error. *)
Variable resolveProvider : option string → Result string.
(** The drawing of a page from its panel images (canvas or ImageMagick):
    the error it ends with, if any. *)
Variable render :
  PageConfig → PageSize → list (string * PanelBounds) → World →
  option JS.error.

Definition referenceSheets : list (string * string) :=
  [("expressions", "1:1"); ("angles", "1:1");
   ("fullbody", "3:4"); ("palette", "1:1")].

Definition generateCharacterReferences (config : FlexicomicConfig)
    (outputDir provider : string) : M unit :=
  forM (characters config) (fun character =>
    let charDir := path_join [outputDir; "characters"; char_id character] in
    try_catch
      (forM referenceSheets (fun '(kind, ratio) =>
         callImageGenWithRetry spawn
           {| o_prompt := characterPrompt kind character config;
              output := path_join [charDir; kind +:+ ".png"];
              ar := Some ratio;
              quality := Some "2k";
              provider := Some provider;
              refImages := None |}
           2))
      (fun error => tell (EvCharacterWarning (char_id character) error))).

Definition compositeSinglePage (page : PageConfig)
    (config : FlexicomicConfig) (panelsDir pagesDir : string) : M unit :=
  pageSize ← lift (calculatePageSize config);
  let grid := effective_grid page in
  let placed :=
    (fun panel =>
       (path_join [panelsDir; panel_id panel +:+ ".png"],
        calculatePanelBoundsCustom panel grid pageSize))
      <$> panels (layout page) in
  σ ← get;
  match render page pageSize placed σ with
  | Some e => raise e
  | None => modify (writeFile (path_join [pagesDir; page_id page +:+ ".png"]))
  end.

Definition compositePages (config : FlexicomicConfig) (outputDir : string)
    (pageIndices : list Z) : M unit :=
  let pagesDir := path_join [outputDir; "pages"] in
  let panelsDir := path_join [outputDir; "panels"] in
  forM pageIndices (fun pageIndex =>
    match nth_Z (pages config) (pageIndex - 1) with
    | None => mret tt
    | Some page =>
        try_catch
          (compositeSinglePage page config panelsDir pagesDir;;
           tell (EvComposed (page_id page)))
          (fun error => tell (EvComposeWarning (page_id page) error))
    end).

(** A string option used as a condition: absent and empty are falsy. *)
Definition given (s : option string) : option string :=
  match s with Some (String c r) => Some (String c r) | _ => None end.

(** Step 2 of [generateComic]: the panels to process. *)
Definition collectPanels (config : FlexicomicConfig)
    (pagesToGenerate : list Z) (panelsToGenerate : option (list string))
    : list PanelToGenerate :=
  pageIndex ← pagesToGenerate;
  match nth_Z (pages config) (pageIndex - 1) with
  | None => []
  | Some page =>
      '(panelIndex, panel) ← imap (fun i p => (i, p)) (panels (layout page));
      match panelsToGenerate with
      | Some ids =>
          if decide (panel_id panel ∈ ids)
          then [ {| page := page; panel := panel; pageIndex := pageIndex;
                    panelIndex := Z.of_nat panelIndex |} ]
          else []
      | None =>
          [ {| page := page; panel := panel; pageIndex := pageIndex;
               panelIndex := Z.of_nat panelIndex |} ]
      end
  end.

Definition allPages (config : FlexicomicConfig) : list Z :=
  imap (fun i _ => Z.of_nat i + 1) (pages config).

(** The selection made by [--pages] and [--panels]. *)
Definition selectPages (options : GenerateOptions)
    (config : FlexicomicConfig) : Result (list Z) :=
  match given (opt_pages options) with
  | Some range =>
      validatePageRange range (Z.of_nat (length (pages config)))
  | None => Ok (allPages config)
  end.

Definition selectPanels (options : GenerateOptions)
    (config : FlexicomicConfig) : Result (option (list string)) :=
  match given (opt_panels options) with
  | Some range =>
      panelIds ← validatePanelRange range (pages config);
      Ok (Some (new_Set panelIds))
  | None => Ok None
  end.

(** [page?.layout.panels.some((p) => panelsToGenerate.has(p.id))] *)
Definition page_selected (config : FlexicomicConfig) (ids : list string)
    (pageIndex : Z) : bool :=
  match nth_Z (pages config) (pageIndex - 1) with
  | Some page =>
      existsb (fun p => bool_decide (panel_id p ∈ ids))
              (panels (layout page))
  | None => false
  end.

(** [generateComic], from the loaded configuration on. *)
Definition generateComic (options : GenerateOptions)
    (config : FlexicomicConfig) (outputDir : string) : M unit :=
  provider ← lift (resolveProvider (opt_provider options));
  pagesToGenerate ← lift (selectPages options config);
  panelsToGenerate ← lift (selectPanels options config);
  (if negb (skipRefs options)
      && bool_decide (0 < length (characters config))%nat
   then generateCharacterReferences config outputDir provider
   else mret tt);;
  let panelsToProcess :=
    collectPanels config pagesToGenerate panelsToGenerate in
  if decide (length panelsToProcess = 0)%nat then mret tt
  else
    (if parallel options && bool_decide (1 < length panelsToProcess)%nat
     then
       generatePanelParallel spawn path_join buildPanelPrompt
         getCharacterReferenceImages panelsToProcess config outputDir
         {| concurrency :=
              Some (match opt_concurrency options with
                    | Some 0 | None => 4 | Some c => c end);
            par_provider := provider |}
     else
       generatePanelSequential spawn path_join buildPanelPrompt
         getCharacterReferenceImages panelsToProcess config outputDir
         provider);;
    if skipComposite options then mret tt
    else
      let pagesToCompose :=
        match panelsToGenerate with
        | None => pagesToGenerate
        | Some ids =>
            filter (fun pageIndex => page_selected config ids pageIndex = true)
                   pagesToGenerate
        end in
      compositePages config outputDir pagesToCompose.

End Collaborators.
End Pipeline.

(** ** A concrete project and concrete collaborators, for evaluation *)

Module Sample.
Import JS.

Definition join (parts : list string) : string := String.concat "/" parts.

Definition promptOf (_ : FlexicomicConfig) (_ : PageConfig)
    (panel : PanelConfig) : string := prompt panel.

Definition noRefs (_ : FlexicomicConfig) (_ : PageConfig) (_ : PanelConfig)
    (_ : string) (_ : World) : list string := [].

Definition sheetPrompt (kind : string) (c : CharacterConfig)
    (_ : FlexicomicConfig) : string := kind +:+ " of " +:+ char_name c.

Definition providerOf (preferred : option string) : Result string :=
  match preferred with
  | Some (String c r) => Ok (String c r)
  | _ => Ok "google"
  end.

Definition draws (_ : PageConfig) (_ : PageSize)
    (_ : list (string * PanelBounds)) (_ : World) : option JS.error := None.

(** Providers: one that always succeeds, one that always fails, and one
    that fails for a single output file. *)
Definition succeeds (_ : ImageGenOptions) (_ : World) : Z := 0.
Definition fails (_ : ImageGenOptions) (_ : World) : Z := 1.
Definition fails_for (path : string) (o : ImageGenOptions) (_ : World) : Z :=
  if String.eqb (output o) path then 1 else 0.

Definition mkPanel (id : string) (r c : Z) : PanelConfig :=
  {| panel_id := id;
     position := {| row := of_Z r; col := of_Z c |};
     rowspan := None; colspan := None; sizeRatio := None;
     prompt := "a scene"; panel_characters := []; focus := None;
     aspectRatio := None; notes := None |}.

Definition mkPage (id type : string) (g : option GridSettings)
    (ps : list PanelConfig) : PageConfig :=
  {| page_id := id; title := None;
     layout := {| layout_type := type; grid := g; panels := ps |} |}.

Definition mkConfig (ratio : string) (ps : list PageConfig)
    : FlexicomicConfig :=
  {| meta_title := "sample"; artStyle := "manga"; tone := "neutral";
     basePrompt := None;
     pageSettings := {| ps_aspectRatio := ratio; dpi := None;
                        outputFormat := None;
                        ps_width := None; ps_height := None |};
     characters := []; pages := ps |}.

Definition page1 : PageConfig :=
  mkPage "page1" "2x2-grid" None
    [mkPanel "p1-a" 0 0; mkPanel "p1-b" 0 1; mkPanel "p1-c" 1 0].
Definition page2 : PageConfig :=
  mkPage "page2" "cinematic" None [mkPanel "p2-a" 0 0].
Definition page3 : PageConfig :=
  mkPage "page3" "splash" None [mkPanel "p3-a" 0 0].

Definition project : FlexicomicConfig :=
  mkConfig "3:4" [page1; page2; page3].

Definition empty_world : World :=
  {| files := ∅; log := []; completed := 0 |}.

Definition options0 : GenerateOptions :=
  {| opt_pages := None; opt_panels := None; parallel := false;
     opt_concurrency := None; opt_provider := None;
     skipRefs := false; skipComposite := false |}.

Definition run (spawn : ImageGenOptions → World → Z)
    (options : GenerateOptions) (config : FlexicomicConfig) : M unit :=
  Pipeline.generateComic spawn join promptOf noRefs sheetPrompt providerOf
                         draws options config "out".

Definition jobs (config : FlexicomicConfig) : list PanelToGenerate :=
  Pipeline.collectPanels config (Pipeline.allPages config) None.

End Sample.

(** * The vocabulary of the properties

    What the statements below are written with: the quantities of the
    design document, observations on runs, and the inputs at which the
    code is evaluated. *)

Module Vocabulary.
Import JS Layout Validation Adapter Controller Pipeline.

(** ** Geometry *)

(** The layout tags with a grid of their own. *)
Definition knownLayouts : list string :=
  ["2x2-grid"; "cinematic"; "webtoon"; "dense"; "splash"].

(** The bounds as the design document gives them: the gutter defaults to
    10 and the spans to 1 when they are absent. *)
Definition documented_bounds (panel : PanelConfig) (grid : GridSettings)
    (pageSize : PageSize) : PanelBounds :=
  let gutter := default (of_Z 10) (gutter grid) in
  let rowspan := default (of_Z 1) (rowspan panel) in
  let colspan := default (of_Z 1) (colspan panel) in
  let cellWidth :=
    div (sub (width pageSize) (mul gutter (add (cols grid) (of_Z 1))))
        (cols grid) in
  let cellHeight :=
    div (sub (height pageSize) (mul gutter (add (rows grid) (of_Z 1))))
        (rows grid) in
  {| x := add gutter (mul (col (position panel)) (add cellWidth gutter));
     y := add gutter (mul (row (position panel)) (add cellHeight gutter));
     w := add (mul colspan cellWidth) (mul (sub colspan (of_Z 1)) gutter);
     h := add (mul rowspan cellHeight) (mul (sub rowspan (of_Z 1)) gutter) |}.

(** An optional number that [||] leaves alone: absent, or neither 0 nor
    NaN. *)
Definition absent_or_truthy (x : option number) : Prop :=
  match x with Some n => truthy n = true | None => True end.

(** The grid that [getLayoutGrid] gives for the "splash" layout. *)
Definition splashGrid : GridSettings :=
  {| rows := of_Z 1; cols := of_Z 1; gutter := Some (of_Z 0) |}.

Definition page1200x1600 : PageSize :=
  {| width := of_Z 1200; height := of_Z 1600 |}.

(** ** Observations on a run *)

(** The provider calls among some events. *)
Definition spawns (evs : list Event) : list ImageGenOptions :=
  omap (fun e => match e with EvSpawn o => Some o | _ => None end) evs.

(** The progress lines among some events. *)
Definition progress (evs : list Event) : list (Z * Z) :=
  omap (fun e => match e with EvProgress c t => Some (c, t) | _ => None end) evs.

(** The events of the adapter. *)
Definition adapter_event (e : Event) : Prop :=
  match e with EvSpawn _ | EvRetryWarning _ => True | _ => False end.

(** The error of a provider call that ended with [exitCode]. *)
Definition failure (exitCode : Z) : JS.error :=
  Error ("Image generation failed with exit code " +:+ pretty exitCode).

Definition sampleOptions : ImageGenOptions :=
  {| o_prompt := "a scene"; output := "out/panels/p.png";
     ar := Some "3:4"; quality := Some "2k"; provider := Some "google";
     refImages := None |}.

(** The provider has been called for the file [path]. *)
Definition spawned_for (path : string) (evs : list Event) : Prop :=
  ∃ o, o ∈ spawns evs ∧ output o = path.

(** Every file that has appeared was asked of the provider. *)
Definition files_from (σ : World) (evs : list Event) (σ' : World) : Prop :=
  ∀ path, path ∈ files σ' → path ∈ files σ ∨ spawned_for path evs.

(** The progress lines of [len] jobs counted on from [c]. *)
Definition progress_from (c : Z) (len : nat) (total : Z) : list (Z * Z) :=
  (fun k => (c + Z.of_nat k, total)) <$> seq 1 len.

(** A job is done with when its file is there or its failure has been
    warned about. *)
Definition done_with (path_join : list string → string)
    (outputDir : string) (evs : list Event) (σ : World)
    (item : PanelToGenerate) : Prop :=
  outputPath path_join outputDir (panel item) ∈ files σ
  ∨ ∃ e, EvPanelWarning (panel_id (panel item)) e ∈ evs.

(** A job has been attempted when the provider was called for its file,
    unless the file was among the files [F] there before, or no aspect
    ratio could be computed for the panel. *)
Definition attempted (path_join : list string → string)
    (outputDir : string) (F : gset string)
    (evs : list Event) (item : PanelToGenerate) : Prop :=
  outputPath path_join outputDir (panel item) ∈ F
  ∨ spawned_for (outputPath path_join outputDir (panel item)) evs
  ∨ ∃ e, panelAspectRatio item = Throw e.

(** What the promise of one job of a batch does when it runs, whatever
    has happened to the world since the job was started with the files
    [F]: it never rejects, and it reports progress once. *)
Definition settles (path_join : list string → string)
    (outputDir : string) (total : Z) (F : gset string)
    (item : PanelToGenerate) (q : Promise unit) : Prop :=
  ∀ σ, F ⊆ files σ →
    ∃ σ' evs,
      q σ = (Ok tt, σ')
      ∧ log σ' = log σ ++ evs
      ∧ completed σ' = completed σ + 1
      ∧ files σ ⊆ files σ'
      ∧ files_from σ evs σ'
      ∧ progress evs = [(completed σ + 1, total)]
      ∧ done_with path_join outputDir evs σ' item
      ∧ attempted path_join outputDir F evs item.

(** ** Runs of the controller on the sample project *)

Definition sequential (spawn : ImageGenOptions → World → Z)
    (panels : list PanelToGenerate) : M unit :=
  generatePanelSequential spawn Sample.join Sample.promptOf Sample.noRefs
                          panels Sample.project "out" "google".

Definition concurrent (spawn : ImageGenOptions → World → Z) (c : Z)
    (panels : list PanelToGenerate) : M unit :=
  generatePanelParallel spawn Sample.join Sample.promptOf Sample.noRefs
                        panels Sample.project "out"
                        {| concurrency := Some c; par_provider := "google" |}.

Definition page1_jobs : list PanelToGenerate :=
  Pipeline.collectPanels Sample.project [1] None.

(** The panels warned about. *)
Definition warned (evs : list Event) : list string :=
  omap (fun e => match e with EvPanelWarning id _ => Some id | _ => None end)
       evs.

(** What a run ends with: its result, the files the provider was called
    for, the panels warned about, and the files that exist. *)
Definition outcome (r : Result unit * World) :=
  (fst r, output <$> spawns (log (snd r)), warned (log (snd r)),
   elements (files (snd r))).

Definition first_job : PanelToGenerate :=
  {| page := Sample.page1; panel := Sample.mkPanel "p1-a" 0 0;
     pageIndex := 1; panelIndex := 0 |}.

Definition resumed_world : World :=
  writeFile "out/panels/p1-a.png" Sample.empty_world.

(** ** Selections *)

Definition is_ok {A} (r : Result A) : Prop := ∃ a, r = Ok a.

(** The numbers a comma-separated item stands for: [a-b] for the range
    from [a] to [b], a single number for itself. [None] when the item is
    not of either form. *)
Definition part_bounds (part : string) : option (Z * Z) :=
  let trimmed := trim part in
  if includes "-" trimmed then
    let bounds := (fun s => parseInt_Z (trim s)) <$> split "-" trimmed in
    match bounds !! 0%nat, bounds !! 1%nat with
    | Some (Some a), Some (Some b) => Some (a, b)
    | _, _ => None
    end
  else (fun n => (n, n)) <$> parseInt_Z trimmed.

(** The numbers of an item that lie within [1..total]. *)
Definition expand (total : Z) (ab : Z * Z) : list Z :=
  filter (fun i => 1 <= i ∧ i <= total) (for_range ab.1 ab.2).

(** A number is named by a selection when one of its items stands for
    it. *)
Definition names (range : string) (i : Z) : Prop :=
  ∃ part a b, part ∈ split "," range ∧ part_bounds part = Some (a, b)
              ∧ a <= i <= b.

(** The panels of a page that an item stands for. *)
Definition expand_panels (page : PageConfig) (ab : Z * Z) : list string :=
  expand (Z.of_nat (length (panels (layout page)))) ab ≫= panel_at page.

(** The order of jobs: by page number, then by position in the page. *)
Definition job_lt (j1 j2 : PanelToGenerate) : Prop :=
  pageIndex j1 < pageIndex j2
  ∨ (pageIndex j1 = pageIndex j2 ∧ panelIndex j1 < panelIndex j2).

(** A panel passes the panel selection, if there is one. *)
Definition selected (panelsToGenerate : option (list string))
    (p : PanelConfig) : Prop :=
  match panelsToGenerate with
  | Some ids => panel_id p ∈ ids
  | None => True
  end.

(** The jobs of one page. *)
Definition page_jobs (pageIndex : Z) (pg : PageConfig)
    (panelsToGenerate : option (list string)) : list PanelToGenerate :=
  '(panelIndex, p) ← imap (fun i p => (i, p)) (panels (layout pg));
  match panelsToGenerate with
  | Some ids =>
      if decide (panel_id p ∈ ids)
      then [ {| page := pg; panel := p; pageIndex := pageIndex;
                panelIndex := Z.of_nat panelIndex |} ]
      else []
  | None =>
      [ {| page := pg; panel := p; pageIndex := pageIndex;
           panelIndex := Z.of_nat panelIndex |} ]
  end.

(** The position, from 1, of the panel of a page with a given id. *)
Definition panel_number (pg : PageConfig) (id : string) : option Z :=
  (fun kp => Z.of_nat kp.1 + 1)
    <$> list_find (fun p => panel_id p = id) (panels (layout pg)).

(** The options of a run with [--panels range]. *)
Definition panelsOption (range : string) : GenerateOptions :=
  {| opt_pages := None; opt_panels := Some range; parallel := false;
     opt_concurrency := None; opt_provider := None;
     skipRefs := false; skipComposite := false |}.

(** ** Page size and aspect ratio *)

(** A component of the aspect ratio is usable when [parseInt] finds a
    positive integer at its head. *)
Definition positive_component (part : option string) : Prop :=
  ∃ n, part ≫= parseInt_Z = Some n ∧ 0 < n.

(** A numeral: an optional sign and digits, nothing else. *)
Definition is_numeral (s : string) : bool :=
  let body := match s with
              | String "-" r | String "+" r => r
              | _ => s
              end in
  negb (String.eqb body "")
  && forallb is_digit (list_ascii_of_string body).

(** A project of one page with one panel and the given aspect ratio. *)
Definition onePage (ratio : string) : FlexicomicConfig :=
  Sample.mkConfig ratio [Sample.page2].

(** The pages whose composition failed, with the errors. *)
Definition composeWarnings (evs : list Event) : list (string * JS.error) :=
  omap (fun e => match e with
                 | EvComposeWarning pg err => Some (pg, err)
                 | _ => None
                 end) evs.

(** The bounds the job runner derives the ratio from. *)
Definition jobBounds (item : PanelToGenerate) : PanelBounds :=
  calculatePanelBoundsCustom (panel item) (effective_grid (page item))
                             defaultPageSize.

(** The job of a panel on the first page. *)
Definition job (pg : PageConfig) (p : PanelConfig) : PanelToGenerate :=
  {| page := pg; panel := p; pageIndex := 1; panelIndex := 0 |}.

(** A panel with its [aspectRatio] replaced. *)
Definition withRatio (ratio : option string) (p : PanelConfig) : PanelConfig :=
  {| panel_id := panel_id p; position := position p;
     rowspan := rowspan p; colspan := colspan p; sizeRatio := sizeRatio p;
     prompt := prompt p; panel_characters := panel_characters p;
     focus := focus p; aspectRatio := ratio; notes := notes p |}.

(** The aspect ratios of the provider calls of a job run in the empty
    world with a provider that succeeds. *)
Definition ratiosPassed (item : PanelToGenerate) : list (option string) :=
  ar <$> spawns (log (snd (await
    (generateSinglePanel Sample.succeeds Sample.join Sample.promptOf
       Sample.noRefs item Sample.project "out" "google")
    Sample.empty_world))).

(** A grid whose cells have no extent on the 1200 by 1600 page. *)
Definition flatGrid : GridSettings :=
  {| rows := of_Z 3; cols := of_Z 2; gutter := Some (of_Z 400) |}.

End Vocabulary.

(** * More of the program

    The functions around the ones above: the rest of the geometry engine,
    the command line, the entry point, the configuration check, the
    provider choice, the reference images of a panel, the character
    reference sheets and the name of the PDF file. *)

(** ** The geometry engine, continued ([utils/layout-parser.ts]) *)

Module Grid.
Import JS Layout.

Record CellSize := { cellWidth : number; cellHeight : number }.

(** The bounds of a panel on the fixed 2 by 2 grid.  [gutter] is [None]
    when the argument is left out: the default of a parameter stands in
    for [undefined] only, so a gutter of 0 stays 0. *)
Definition calculatePanelBounds (panel : PanelConfig) (pageSize : PageSize)
    (gutter : option number) : PanelBounds :=
  let gutter := default (of_Z 10) gutter in
  let grid_rows := of_Z 2 in
  let grid_cols := of_Z 2 in
  let rowspan := or_default (rowspan panel) (of_Z 1) in
  let colspan := or_default (colspan panel) (of_Z 1) in
  let position := position panel in
  let cellWidth :=
    div (sub (width pageSize) (mul gutter (add grid_cols (of_Z 1))))
        grid_cols in
  let cellHeight :=
    div (sub (height pageSize) (mul gutter (add grid_rows (of_Z 1))))
        grid_rows in
  let x := add gutter (mul (col position) (add cellWidth gutter)) in
  let y := add gutter (mul (row position) (add cellHeight gutter)) in
  let w := add (mul colspan cellWidth) (mul (sub colspan (of_Z 1)) gutter) in
  let h := add (mul rowspan cellHeight) (mul (sub rowspan (of_Z 1)) gutter) in
  {| x := x; y := y; w := w; h := h |}.

Definition calculateGridDimensions (rows cols : number) (pageSize : PageSize)
    (gutter : option number) : CellSize :=
  let gutter := default (of_Z 10) gutter in
  {| cellWidth :=
       div (sub (width pageSize) (mul gutter (add cols (of_Z 1)))) cols;
     cellHeight :=
       div (sub (height pageSize) (mul gutter (add rows (of_Z 1)))) rows |}.

End Grid.

(** ** The command line ([utils/cli.ts]) *)

Module Cli.
Import JS.

Record ParsedOptions := {
  config : option string;
  output : option string;
  pages : option string;
  panels : option string;
  parallel : bool;
  concurrency : number;
  provider : option string;
  skipRefs : bool;
  skipComposite : bool;
  verbose : bool;
  help : bool
}.

Record ParsedCommand := {
  command : string;
  args : list string;
  options : ParsedOptions
}.

Definition defaults : ParsedOptions :=
  {| config := None; output := None; pages := None; panels := None;
     parallel := false; concurrency := of_Z 4; provider := None;
     skipRefs := false; skipComposite := false; verbose := false;
     help := false |}.

(** Assignments to one property of [options]. *)
Definition set_config (v : option string) (o : ParsedOptions) :=
  {| config := v; output := output o; pages := pages o; panels := panels o;
     parallel := parallel o; concurrency := concurrency o;
     provider := provider o; skipRefs := skipRefs o;
     skipComposite := skipComposite o; verbose := verbose o;
     help := help o |}.
Definition set_output (v : option string) (o : ParsedOptions) :=
  {| config := config o; output := v; pages := pages o; panels := panels o;
     parallel := parallel o; concurrency := concurrency o;
     provider := provider o; skipRefs := skipRefs o;
     skipComposite := skipComposite o; verbose := verbose o;
     help := help o |}.
Definition set_pages (v : option string) (o : ParsedOptions) :=
  {| config := config o; output := output o; pages := v; panels := panels o;
     parallel := parallel o; concurrency := concurrency o;
     provider := provider o; skipRefs := skipRefs o;
     skipComposite := skipComposite o; verbose := verbose o;
     help := help o |}.
Definition set_panels (v : option string) (o : ParsedOptions) :=
  {| config := config o; output := output o; pages := pages o; panels := v;
     parallel := parallel o; concurrency := concurrency o;
     provider := provider o; skipRefs := skipRefs o;
     skipComposite := skipComposite o; verbose := verbose o;
     help := help o |}.
Definition set_parallel (v : bool) (o : ParsedOptions) :=
  {| config := config o; output := output o; pages := pages o;
     panels := panels o; parallel := v; concurrency := concurrency o;
     provider := provider o; skipRefs := skipRefs o;
     skipComposite := skipComposite o; verbose := verbose o;
     help := help o |}.
Definition set_concurrency (v : number) (o : ParsedOptions) :=
  {| config := config o; output := output o; pages := pages o;
     panels := panels o; parallel := parallel o; concurrency := v;
     provider := provider o; skipRefs := skipRefs o;
     skipComposite := skipComposite o; verbose := verbose o;
     help := help o |}.
Definition set_provider (v : option string) (o : ParsedOptions) :=
  {| config := config o; output := output o; pages := pages o;
     panels := panels o; parallel := parallel o;
     concurrency := concurrency o; provider := v; skipRefs := skipRefs o;
     skipComposite := skipComposite o; verbose := verbose o;
     help := help o |}.
Definition set_skipRefs (v : bool) (o : ParsedOptions) :=
  {| config := config o; output := output o; pages := pages o;
     panels := panels o; parallel := parallel o;
     concurrency := concurrency o; provider := provider o; skipRefs := v;
     skipComposite := skipComposite o; verbose := verbose o;
     help := help o |}.
Definition set_skipComposite (v : bool) (o : ParsedOptions) :=
  {| config := config o; output := output o; pages := pages o;
     panels := panels o; parallel := parallel o;
     concurrency := concurrency o; provider := provider o;
     skipRefs := skipRefs o; skipComposite := v; verbose := verbose o;
     help := help o |}.
Definition set_verbose (v : bool) (o : ParsedOptions) :=
  {| config := config o; output := output o; pages := pages o;
     panels := panels o; parallel := parallel o;
     concurrency := concurrency o; provider := provider o;
     skipRefs := skipRefs o; skipComposite := skipComposite o; verbose := v;
     help := help o |}.
Definition set_help (v : bool) (o : ParsedOptions) :=
  {| config := config o; output := output o; pages := pages o;
     panels := panels o; parallel := parallel o;
     concurrency := concurrency o; provider := provider o;
     skipRefs := skipRefs o; skipComposite := skipComposite o;
     verbose := verbose o; help := v |}.

(** [s.startsWith(c)] for a one-character prefix. *)
Definition startsWith (c : ascii) (s : string) : bool :=
  match s with
  | String d _ => Ascii.eqb d c
  | EmptyString => false
  end.

(** [x || null] for a string that may be [undefined]: absent and empty
    both give [null]. *)
Definition or_null (x : option string) : option string :=
  match x with
  | Some (String c r) => Some (String c r)
  | _ => None
  end.

(** What a case of the [switch] does: it reads the next argument
    ([args[++i]], [undefined] past the end) and assigns, or it assigns
    without reading; [Unknown] is the [default] case. *)
Inductive Case : Type :=
| Reads (assign : option string → ParsedOptions → ParsedOptions)
| Sets (assign : ParsedOptions → ParsedOptions)
| Unknown.

Definition switch (arg : string) : Case :=
  if String.eqb arg "-c" || String.eqb arg "--config"
  then Reads (fun v => set_config (or_null v))
  else if String.eqb arg "-o" || String.eqb arg "--output"
  then Reads (fun v => set_output (or_null v))
  else if String.eqb arg "--pages"
  then Reads (fun v => set_pages (or_null v))
  else if String.eqb arg "--panels"
  then Reads (fun v => set_panels (or_null v))
  else if String.eqb arg "--parallel"
  then Sets (set_parallel true)
  else if String.eqb arg "--concurrency"
  then Reads (fun v => set_concurrency (parseInt (default "4" (or_null v))))
  else if String.eqb arg "--provider"
  then Reads (fun v => set_provider (or_null v))
  else if String.eqb arg "--skip-refs"
  then Sets (set_skipRefs true)
  else if String.eqb arg "--skip-composite"
  then Sets (set_skipComposite true)
  else if String.eqb arg "-v" || String.eqb arg "--verbose"
  then Sets (set_verbose true)
  else if String.eqb arg "-h" || String.eqb arg "--help"
  then Sets (set_help true)
  else Unknown.

Definition with_options (f : ParsedOptions → ParsedOptions)
    (st : ParsedCommand) : ParsedCommand :=
  {| command := command st; args := args st; options := f (options st) |}.

Definition with_command (c : string) (st : ParsedCommand) : ParsedCommand :=
  {| command := c; args := args st; options := options st |}.

Definition push_arg (a : string) (st : ParsedCommand) : ParsedCommand :=
  {| command := command st; args := args st ++ [a]; options := options st |}.

(** The [while] loop over the arguments from index [i] on, given as the
    list of the arguments that are left.  A case that reads a value moves
    [i] past it; at the end of the list the value is [undefined] and the
    loop is over. *)
Fixpoint parseLoop (rest : list string) (st : ParsedCommand)
    : Result ParsedCommand :=
  match rest with
  | [] => Ok st
  | arg :: rest =>
      if startsWith "-" arg then
        match switch arg with
        | Reads assign =>
            match rest with
            | value :: rest => parseLoop rest (with_options (assign (Some value)) st)
            | [] => Ok (with_options (assign None) st)
            end
        | Sets assign => parseLoop rest (with_options assign st)
        | Unknown => Throw (Error ("Unknown option: " +:+ arg))
        end
      else if String.eqb (command st) ""
      then parseLoop rest (with_command arg st)
      else parseLoop rest (push_arg arg st)
  end.

Definition parseCommandArgs (argv : list string) : Result ParsedCommand :=
  parseLoop (drop 2 argv)
            {| command := ""; args := []; options := defaults |}.

End Cli.

(** ** The entry point ([main.ts]) *)

Module Main.
Import Cli.

(** The functions that [main] hands over to. *)
Inductive Call : Type :=
| InitInteractive (projectName : string)
| GenerateComic (options : ParsedOptions)
| PreviewLayout (configPath : string)
| CompositePages (options : ParsedOptions).

(** What [main] prints itself. *)
Inductive Output : Type :=
| Usage
| ConsoleError (line : string).

(** A run of [main]: what it printed, the call it made if any, and the
    code it called [process.exit] with; [None] when it returned without
    that call. *)
Record Run := {
  printed : list Output;
  called : option Call;
  exitCode : option Z
}.

(** [error instanceof Error ? error.message : String(error)] *)
Definition message (e : JS.error) : string :=
  match e with
  | JS.Error m | JS.RangeError m => m
  | JS.Null => "null"
  end.

Section Collaborators.
(** How a call ends: it returns or it throws. *)
Variable run : Call → Result unit.

Definition exits (lines : list string) : Run :=
  {| printed := ConsoleError <$> lines; called := None; exitCode := Some 1 |}.

Definition attempt (call : Call) : Run :=
  match run call with
  | Ok _ => {| printed := []; called := Some call; exitCode := None |}
  | Throw e =>
      {| printed := [ConsoleError ("Error: " +:+ message e)];
         called := Some call; exitCode := Some 1 |}
  end.

(** The error of [parseCommandArgs] is thrown outside the [try] and
    leaves [main]. *)
Definition main (argv : list string) : Result Run :=
  parsed ← parseCommandArgs argv;
  if help (options parsed) || String.eqb (command parsed) "" then
    Ok {| printed := [Usage]; called := None;
          exitCode := Some (if String.eqb (command parsed) "" then 1 else 0) |}
  else if String.eqb (command parsed) "init" then
    match or_null (args parsed !! 0%nat) with
    | None =>
        Ok (exits ["Error: Project name is required";
                   "Usage: main.ts init <project-name>"])
    | Some projectName => Ok (attempt (InitInteractive projectName))
    end
  else if String.eqb (command parsed) "generate" then
    match config (options parsed) with
    | None =>
        Ok (exits ["Error: --config is required for generate command";
                   "Usage: main.ts generate -c <config.json> [options]"])
    | Some _ => Ok (attempt (GenerateComic (options parsed)))
    end
  else if String.eqb (command parsed) "preview" then
    match config (options parsed) with
    | None =>
        Ok (exits ["Error: --config is required for preview command";
                   "Usage: main.ts preview -c <config.json>"])
    | Some configPath => Ok (attempt (PreviewLayout configPath))
    end
  else if String.eqb (command parsed) "composite" then
    match config (options parsed) with
    | None =>
        Ok (exits ["Error: --config is required for composite command";
                   "Usage: main.ts composite -c <config.json> [options]"])
    | Some _ => Ok (attempt (CompositePages (options parsed)))
    end
  else
    Ok (exits ["Unknown command: " +:+ command parsed;
               "Run with --help to see available commands"]).

End Collaborators.
End Main.

(** ** Terms for the properties of the geometry and the command line *)

Module GridVocabulary.
Import JS Layout.

(** The 2 by 2 grid with a given gutter. *)
Definition grid2x2 (gutter : option number) : GridSettings :=
  {| rows := of_Z 2; cols := of_Z 2; gutter := gutter |}.

(** The gutter that [calculatePanelBoundsCustom] works with. *)
Definition effective_gutter (grid : GridSettings) : number :=
  or_default (gutter grid) (of_Z 10).

(** The spans that the bounds functions work with. *)
Definition effective_colspan (panel : PanelConfig) : number :=
  or_default (colspan panel) (of_Z 1).
Definition effective_rowspan (panel : PanelConfig) : number :=
  or_default (rowspan panel) (of_Z 1).

End GridVocabulary.

Module CliVocabulary.
Import Cli.

Definition knownOptions : list string :=
  ["-c"; "--config"; "-o"; "--output"; "--pages"; "--panels"; "--parallel";
   "--concurrency"; "--provider"; "--skip-refs"; "--skip-composite";
   "-v"; "--verbose"; "-h"; "--help"].

(** The options with a string value, and the property each assigns. *)
Definition valueOptions
    : list (string * (option string → ParsedOptions → ParsedOptions)) :=
  [("-c", set_config); ("--config", set_config);
   ("-o", set_output); ("--output", set_output);
   ("--pages", set_pages); ("--panels", set_panels);
   ("--provider", set_provider)].

(** The options without a value. *)
Definition flags : list string :=
  ["--parallel"; "--skip-refs"; "--skip-composite"; "-v"; "--verbose";
   "-h"; "--help"].

(** A word: an argument that is not empty and does not start with a
    dash. *)
Definition word (a : string) : bool :=
  negb (startsWith "-" a) && negb (String.eqb a "").

(** The words among the arguments. *)
Definition words (args : list string) : list string := List.filter word args.

(** One of the given spellings is among the arguments. *)
Definition has (spellings args : list string) : bool :=
  existsb (fun a => existsb (String.eqb a) spellings) args.

(** The options after the flags among [args] have been seen. *)
Definition flagged (args : list string) (o : ParsedOptions) : ParsedOptions :=
  {| config := config o; output := output o; pages := pages o;
     panels := panels o;
     parallel := parallel o || has ["--parallel"] args;
     concurrency := concurrency o; provider := provider o;
     skipRefs := skipRefs o || has ["--skip-refs"] args;
     skipComposite := skipComposite o || has ["--skip-composite"] args;
     verbose := verbose o || has ["-v"; "--verbose"] args;
     help := help o || has ["-h"; "--help"] args |}.

(** The commands that [main] knows. *)
Definition commands : list string :=
  ["init"; "generate"; "preview"; "composite"].

(** A collaborator that returns whatever it is called with. *)
Definition returns (_ : Main.Call) : Result unit := Ok tt.

End CliVocabulary.

(** ** The fallback configuration check ([validation.ts]) *)

Module ConfigCheck.
Import JS.

#[local] Set Warnings "-register-all".

(** A value that [JSON.parse] gives.  An object is the list of its
    properties, each name once. *)
Inductive Json : Type :=
| JNull
| JBool (b : bool)
| JNumber (n : number)
| JString (s : string)
| JArray (items : list Json)
| JObject (fields : list (string * Json)).

(** The value of a property may be [undefined], here [None]. *)
Definition truthy (v : option Json) : bool :=
  match v with
  | None | Some JNull => false
  | Some (JBool b) => b
  | Some (JNumber n) => JS.truthy n
  | Some (JString s) => negb (String.eqb s "")
  | Some (JArray _) | Some (JObject _) => true
  end.

Definition typeof (v : option Json) : string :=
  match v with
  | None => "undefined"
  | Some JNull | Some (JArray _) | Some (JObject _) => "object"
  | Some (JBool _) => "boolean"
  | Some (JNumber _) => "number"
  | Some (JString _) => "string"
  end.

Definition isArray (v : option Json) : bool :=
  match v with Some (JArray _) => true | _ => false end.

(** [v.key] for the keys that the check reads (meta, title, style,
    artStyle, tone, pageSettings, aspectRatio, characters, pages): none
    of them is a property that arrays or objects have of themselves. *)
Definition get (v : option Json) (key : string) : option Json :=
  match v with
  | Some (JObject fields) =>
      snd <$> List.find (fun kv => String.eqb (fst kv) key) fields
  | _ => None
  end.

Record Validation := { valid : bool; errors : option (list string) }.

(** [if (cond) errors.push(message)] *)
Definition push_if (cond : bool) (message : string) (errors : list string)
    : list string :=
  if cond then errors ++ [message] else errors.

Definition basicValidation (config : Json) : Validation :=
  if negb (truthy (Some config))
     || negb (String.eqb (typeof (Some config)) "object")
  then {| valid := false; errors := Some ["Config must be an object"] |}
  else
    let c := Some config in
    let errors := [] in
    let errors :=
      if negb (truthy (get c "meta"))
         || negb (String.eqb (typeof (get c "meta")) "object")
      then errors ++ ["meta is required and must be an object"]
      else push_if
             (negb (String.eqb (typeof (get (get c "meta") "title")) "string"))
             "meta.title is required" errors in
    let errors :=
      if negb (truthy (get c "style"))
         || negb (String.eqb (typeof (get c "style")) "object")
      then errors ++ ["style is required and must be an object"]
      else
        let style := get c "style" in
        let errors :=
          push_if (negb (String.eqb (typeof (get style "artStyle")) "string"))
                  "style.artStyle is required" errors in
        push_if (negb (String.eqb (typeof (get style "tone")) "string"))
                "style.tone is required" errors in
    let errors :=
      if negb (truthy (get c "pageSettings"))
         || negb (String.eqb (typeof (get c "pageSettings")) "object")
      then errors ++ ["pageSettings is required and must be an object"]
      else push_if
             (negb (String.eqb
                      (typeof (get (get c "pageSettings") "aspectRatio"))
                      "string"))
             "pageSettings.aspectRatio is required" errors in
    let errors :=
      push_if (negb (isArray (get c "characters")))
              "characters must be an array" errors in
    let errors :=
      push_if (negb (isArray (get c "pages")))
              "pages must be an array" errors in
    {| valid := (length errors =? 0)%nat;
       errors := if (0 <? length errors)%nat then Some errors else None |}.

End ConfigCheck.

(** ** The choice of the provider ([utils/image-gen-adapter.ts]) *)

(** [process.env] *)
Definition Env := gmap string string.

(** [!!process.env[name]]: the variable is set and not empty. *)
Definition env_set (env : Env) (name : string) : bool :=
  match env !! name with
  | Some (String _ _) => true
  | _ => false
  end.

Definition noApiKey : JS.error :=
  JS.Error "No API key found. Set GOOGLE_API_KEY, OPENAI_API_KEY, or DASHSCOPE_API_KEY.".

(** The adapter that starts the image generation process. *)
Module Provider.

Definition resolveProvider (env : Env) (preferred : option string)
    : Result string :=
  match preferred with
  | Some (String c r) => Ok (String c r)
  | _ =>
      let hasGoogle :=
        env_set env "GOOGLE_API_KEY" || env_set env "GEMINI_API_KEY" in
      let hasOpenai := env_set env "OPENAI_API_KEY" in
      let hasDashscope := env_set env "DASHSCOPE_API_KEY" in
      if hasGoogle then Ok "google"
      else if hasOpenai then Ok "openai"
      else if hasDashscope then Ok "dashscope"
      else Throw noApiKey
  end.

End Provider.

(** The adapter that calls the providers itself. *)
Module DirectProvider.

Definition resolveProvider (env : Env) (preferred : option string)
    : Result string :=
  match preferred with
  | Some (String c r) => Ok (String c r)
  | _ =>
      let hasGoogle :=
        env_set env "GOOGLE_API_KEY" || env_set env "GEMINI_API_KEY" in
      let hasOpenai := env_set env "OPENAI_API_KEY" in
      let hasDashscope := env_set env "DASHSCOPE_API_KEY" in
      if hasDashscope then Ok "dashscope"
      else if hasGoogle then Ok "google"
      else if hasOpenai then Ok "openai"
      else Throw noApiKey
  end.

End DirectProvider.

(** ** The reference images of a panel ([utils/prompt-builder.ts]) *)

Module PromptBuilder.

(** A string that may be absent, used as a condition. *)
Definition present (s : option string) : bool :=
  match s with Some (String _ _) => true | _ => false end.

Section Paths.
Variable path_join : list string → string.

(** [page] stands for the context's page, which the function does not
    read. *)
Definition getCharacterReferenceImages (config : FlexicomicConfig)
    (page : PageConfig) (panel : PanelConfig) (outputDir : string)
    (σ : World) : list string :=
  panelChar ← panel_characters panel;
  match List.find (fun c => String.eqb (char_id c) (character_id panelChar))
                  (characters config) with
  | None => []
  | Some character =>
      let expressionsPath :=
        path_join [outputDir; "characters"; char_id character;
                   "expressions.png"] in
      let anglesPath :=
        path_join [outputDir; "characters"; char_id character;
                   "angles.png"] in
      let fullBodyPath :=
        path_join [outputDir; "characters"; char_id character;
                   "fullbody.png"] in
      (if present (expression panelChar) && existsSync expressionsPath σ
       then [expressionsPath] else [])
      ++ (if present (angle panelChar) && existsSync anglesPath σ
          then [anglesPath] else [])
      ++ (if existsSync fullBodyPath σ then [fullBodyPath] else [])
  end.

End Paths.
End PromptBuilder.

(** ** The character reference sheets ([character-refs.ts]) *)

Module CharacterRefs.
Import Adapter.

Record Images := {
  expressions : option string;
  angles : option string;
  fullBody : option string;
  colorPalette : option string
}.

Record CharacterReference := {
  characterId : string;
  images : Images;
  generated : bool
}.

(** Assignments to the reference of the character at hand. *)
Definition set_expressions (p : string) (r : CharacterReference) :=
  {| characterId := characterId r; generated := generated r;
     images := {| expressions := Some p; angles := angles (images r);
                  fullBody := fullBody (images r);
                  colorPalette := colorPalette (images r) |} |}.
Definition set_angles (p : string) (r : CharacterReference) :=
  {| characterId := characterId r; generated := generated r;
     images := {| expressions := expressions (images r); angles := Some p;
                  fullBody := fullBody (images r);
                  colorPalette := colorPalette (images r) |} |}.
Definition set_fullBody (p : string) (r : CharacterReference) :=
  {| characterId := characterId r; generated := generated r;
     images := {| expressions := expressions (images r);
                  angles := angles (images r); fullBody := Some p;
                  colorPalette := colorPalette (images r) |} |}.
Definition set_colorPalette (p : string) (r : CharacterReference) :=
  {| characterId := characterId r; generated := generated r;
     images := {| expressions := expressions (images r);
                  angles := angles (images r);
                  fullBody := fullBody (images r);
                  colorPalette := Some p |} |}.
Definition set_generated (b : bool) (r : CharacterReference) :=
  {| characterId := characterId r; images := images r; generated := b |}.

(** [refs.set(key, value)] on a [Map], as the list of its entries in
    insertion order: a key that is there keeps its place. *)
Fixpoint Map_set {V} (key : string) (value : V) (refs : list (string * V))
    : list (string * V) :=
  match refs with
  | [] => [(key, value)]
  | (k, v) :: refs' =>
      if String.eqb k key then (k, value) :: refs'
      else (k, v) :: Map_set key value refs'
  end.

Section Collaborators.
Variable spawn : ImageGenOptions → World → Z.
Variable path_join : list string → string.
(** The text of the prompt of a sheet ("expressions", "angles",
    "fullbody" or "palette") of a character. *)
Variable sheetPrompt : string → CharacterConfig → FlexicomicConfig → string.

Definition generateExpressionsGrid (character : CharacterConfig)
    (outputPath : string) (config : FlexicomicConfig)
    (provider : option string) : M unit :=
  callImageGenWithRetry spawn
    {| o_prompt := sheetPrompt "expressions" character config;
       output := outputPath; ar := Some "1:1"; quality := Some "2k";
       provider := provider; refImages := None |}
    2.

Definition generateAnglesGrid (character : CharacterConfig)
    (outputPath : string) (config : FlexicomicConfig)
    (provider : option string) : M unit :=
  callImageGenWithRetry spawn
    {| o_prompt := sheetPrompt "angles" character config;
       output := outputPath; ar := Some "1:1"; quality := Some "2k";
       provider := provider; refImages := None |}
    2.

Definition generateFullBodyRef (character : CharacterConfig)
    (outputPath : string) (config : FlexicomicConfig)
    (provider : option string) : M unit :=
  callImageGenWithRetry spawn
    {| o_prompt := sheetPrompt "fullbody" character config;
       output := outputPath; ar := Some "3:4"; quality := Some "2k";
       provider := provider; refImages := None |}
    2.

Definition generateColorPalette (character : CharacterConfig)
    (outputPath : string) (config : FlexicomicConfig)
    (provider : option string) : M unit :=
  callImageGenWithRetry spawn
    {| o_prompt := sheetPrompt "palette" character config;
       output := outputPath; ar := Some "1:1"; quality := Some "2k";
       provider := provider; refImages := None |}
    2.

(** The [try] block for one character: the reference as the block has
    left it, and the error that ended the block, if any. *)
Definition sheets (character : CharacterConfig) (charDir : string)
    (config : FlexicomicConfig) (provider : option string)
    (charRef : CharacterReference)
    : M (CharacterReference * option JS.error) :=
  fun σ =>
    let expressionsPath := path_join [charDir; "expressions.png"] in
    match generateExpressionsGrid character expressionsPath config
                                  provider σ with
    | (Throw error, σ) => (Ok (charRef, Some error), σ)
    | (Ok _, σ) =>
    let charRef := set_expressions expressionsPath charRef in
    let anglesPath := path_join [charDir; "angles.png"] in
    match generateAnglesGrid character anglesPath config provider σ with
    | (Throw error, σ) => (Ok (charRef, Some error), σ)
    | (Ok _, σ) =>
    let charRef := set_angles anglesPath charRef in
    let fullBodyPath := path_join [charDir; "fullbody.png"] in
    match generateFullBodyRef character fullBodyPath config provider σ with
    | (Throw error, σ) => (Ok (charRef, Some error), σ)
    | (Ok _, σ) =>
    let charRef := set_fullBody fullBodyPath charRef in
    let palettePath := path_join [charDir; "palette.png"] in
    match generateColorPalette character palettePath config provider σ with
    | (Throw error, σ) => (Ok (charRef, Some error), σ)
    | (Ok _, σ) =>
    let charRef := set_colorPalette palettePath charRef in
    (Ok (set_generated true charRef, None), σ)
    end end end end.

(** The loop over the characters, with the map built so far. *)
Fixpoint references (characters : list CharacterConfig)
    (config : FlexicomicConfig) (outputDir : string)
    (provider : option string) (refs : list (string * CharacterReference))
    : M (list (string * CharacterReference)) :=
  match characters with
  | [] => mret refs
  | character :: rest =>
      let charDir := path_join [outputDir; "characters"; char_id character] in
      let charRef :=
        {| characterId := char_id character;
           images := {| expressions := None; angles := None;
                        fullBody := None; colorPalette := None |};
           generated := false |} in
      '(charRef, failed) ← sheets character charDir config provider charRef;
      match failed with
      | Some error => tell (EvCharacterWarning (char_id character) error)
      | None => mret tt
      end;;
      references rest config outputDir provider
                 (Map_set (char_id character) charRef refs)
  end.

Definition generateCharacterReferences (config : FlexicomicConfig)
    (outputDir : string) (provider : option string)
    : M (list (string * CharacterReference)) :=
  references (characters config) config outputDir provider [].

(** [type] is one of "expressions", "angles", "fullbody" and "palette". *)
Definition getCharacterReferencePath (characterId type outputDir : string)
    : string :=
  path_join [outputDir; "characters"; characterId; type +:+ ".png"].

End Collaborators.
End CharacterRefs.

(** ** Terms for the properties of the configuration check, the provider
       choice and the reference sheets *)

Module ConfigCheckVocabulary.
Import ConfigCheck.

(** The value has a string, or an array, under the key. *)
Definition has_string (v : option Json) (key : string) : Prop :=
  ∃ s, get v key = Some (JString s).
Definition has_array (v : option Json) (key : string) : Prop :=
  ∃ items, get v key = Some (JArray items).

(** What the check asks of a configuration. *)
Definition well_shaped (config : Json) : Prop :=
  has_string (get (Some config) "meta") "title"
  ∧ has_string (get (Some config) "style") "artStyle"
  ∧ has_string (get (Some config) "style") "tone"
  ∧ has_string (get (Some config) "pageSettings") "aspectRatio"
  ∧ has_array (Some config) "characters"
  ∧ has_array (Some config) "pages".

(** A configuration that the check accepts although a page of it is a
    number. *)
Definition looseConfig : Json :=
  JObject [("meta", JObject [("title", JString "t")]);
           ("style", JObject [("artStyle", JString "manga");
                              ("tone", JString "warm")]);
           ("pageSettings", JObject [("aspectRatio", JString "3:4")]);
           ("characters", JArray []);
           ("pages", JArray [JNumber (JS.of_Z 1)])].

End ConfigCheckVocabulary.

Module ProviderVocabulary.

(** A key of Google is set. *)
Definition hasGoogle (env : Env) : bool :=
  env_set env "GOOGLE_API_KEY" || env_set env "GEMINI_API_KEY".

(** No key of any provider is set. *)
Definition no_key (env : Env) : Prop :=
  hasGoogle env = false ∧ env_set env "OPENAI_API_KEY" = false
  ∧ env_set env "DASHSCOPE_API_KEY" = false.

(** An environment with the keys of two providers. *)
Definition twoKeys : Env :=
  {[ "GOOGLE_API_KEY" := "g"; "DASHSCOPE_API_KEY" := "d" ]}.

End ProviderVocabulary.

Module ReferenceVocabulary.
Import CharacterRefs.

(** The characters warned about. *)
Definition characterWarnings (evs : list Event) : list string :=
  omap (fun e => match e with
                 | EvCharacterWarning id _ => Some id
                 | _ => None
                 end) evs.

(** The reference of a character before any sheet is made. *)
Definition blank (id : string) : CharacterReference :=
  {| characterId := id;
     images := {| expressions := None; angles := None; fullBody := None;
                  colorPalette := None |};
     generated := false |}.

(** The paths recorded in a reference. *)
Definition recorded (r : CharacterReference) : list string :=
  omap id [expressions (images r); angles (images r); fullBody (images r);
           colorPalette (images r)].

(** The names of the four sheets. *)
Definition sheetTypes : list string :=
  ["expressions"; "angles"; "fullbody"; "palette"].

(** The reference of a character whose four sheets are in [charDir]. *)
Definition complete (path_join : list string → string)
    (id charDir : string) : CharacterReference :=
  {| characterId := id;
     images := {| expressions := Some (path_join [charDir; "expressions.png"]);
                  angles := Some (path_join [charDir; "angles.png"]);
                  fullBody := Some (path_join [charDir; "fullbody.png"]);
                  colorPalette := Some (path_join [charDir; "palette.png"]) |};
     generated := true |}.

(** Joining a joined path with one more segment is joining all the
    segments, as [path.join] does. *)
Definition joins_flat (path_join : list string → string) : Prop :=
  ∀ a b c d, path_join [path_join [a; b; c]; d] = path_join [a; b; c; d].

(** The reference images that a panel asks for: those of
    [getCharacterReferenceImages] without the look at the files. *)
Definition wanted (path_join : list string → string)
    (config : FlexicomicConfig) (panel : PanelConfig) (outputDir : string)
    : list string :=
  panelChar ← panel_characters panel;
  match List.find (fun c => String.eqb (char_id c) (character_id panelChar))
                  (characters config) with
  | None => []
  | Some character =>
      (if PromptBuilder.present (expression panelChar)
       then [path_join [outputDir; "characters"; char_id character;
                        "expressions.png"]]
       else [])
      ++ (if PromptBuilder.present (angle panelChar)
          then [path_join [outputDir; "characters"; char_id character;
                           "angles.png"]]
          else [])
      ++ [path_join [outputDir; "characters"; char_id character;
                     "fullbody.png"]]
  end.

(** A project with one character, and a panel that shows her. *)
Definition heroine : CharacterConfig :=
  {| char_id := "mia"; char_name := "Mia"; char_description := None |}.

Definition cast : FlexicomicConfig :=
  {| meta_title := "sample"; artStyle := "manga"; tone := "neutral";
     basePrompt := None;
     pageSettings := pageSettings Sample.project;
     characters := [heroine]; pages := [Sample.page1] |}.

Definition closeUp : PanelConfig :=
  {| panel_id := "p1-a";
     position := {| row := JS.of_Z 0; col := JS.of_Z 0 |};
     rowspan := None; colspan := None; sizeRatio := None;
     prompt := "a scene";
     panel_characters :=
       [{| character_id := "mia"; expression := Some "happy";
           angle := None; action := None |}];
     focus := None; aspectRatio := None; notes := None |}.

End ReferenceVocabulary.

Module SelectionVocabulary.
Import JS Vocabulary.

(** The error for an item of a selection that cannot be read; [what] is
    "page" or "panel". *)
Definition invalid (what part : string) : JS.error :=
  Error ("Invalid " +:+ what
         +:+ (if includes "-" (trim part) then " range: " else " number: ")
         +:+ trim part).

(** The first item of a selection that cannot be read. *)
Definition first_unreadable (items : list string) (part : string) : Prop :=
  ∃ pre post,
    items = pre ++ part :: post
    ∧ Forall (fun p => is_Some (part_bounds p)) pre
    ∧ part_bounds part = None.

Definition formatError : JS.error :=
  Error "Invalid panel range format. Expected: pageId:range (e.g., page1:1-3)".

End SelectionVocabulary.

(** ** The name of the PDF file *)

(** [sanitizeFilename] of [generate.ts].  A JavaScript string is a
    sequence of UTF-16 code units, and the two regular expressions (which
    have no [u] flag) and [slice] work on code units: a name is the list
    of its code units. *)
Module FileNames.

Definition CodeUnits := list Z.

(** The class of the first regular expression: the less-than and
    greater-than signs, the colon, the double quote, the slash, the
    backslash, the vertical bar, the question mark and the asterisk. *)
Definition reserved (c : Z) : bool :=
  bool_decide (c ∈ [60; 62; 58; 34; 47; 92; 124; 63; 42]).

(** The class [\s]: the white space and the line terminators of
    ECMAScript (tab, line feed, vertical tab, form feed, carriage
    return, space, no-break space, U+1680, U+2000 to U+200A, U+2028,
    U+2029, U+202F, U+205F, U+3000 and U+FEFF). *)
Definition whiteSpace (c : Z) : bool :=
  bool_decide (c ∈ [9; 10; 11; 12; 13; 32; 160; 5760; 8232; 8233; 8239;
                    8287; 12288; 65279])
  || bool_decide (8192 ≤ c ≤ 8202)%Z.

(** The first [replace]: every unit of the class is removed. *)
Definition removeReserved (name : CodeUnits) : CodeUnits :=
  List.filter (fun c => negb (reserved c)) name.

(** The second [replace]: each maximal run of white space becomes one
    hyphen.  [inRun]: the unit before was white space, and is part of the
    match under way. *)
Fixpoint replaceWhiteSpace (inRun : bool) (name : CodeUnits) : CodeUnits :=
  match name with
  | [] => []
  | c :: rest =>
      if whiteSpace c
      then (if inRun then replaceWhiteSpace true rest
            else 45 :: replaceWhiteSpace true rest)
      else c :: replaceWhiteSpace false rest
  end.

Definition sanitizeFilename (name : CodeUnits) : CodeUnits :=
  take 100 (replaceWhiteSpace false (removeReserved name)).

End FileNames.

Module RunVocabulary.
Import JS Pipeline.

(** The numbers of the retry warnings among some events. *)
Definition retryWarnings (evs : list Event) : list Z :=
  omap (fun e => match e with EvRetryWarning k => Some k | _ => None end)
       evs.

(** The pages reported by the composition, composed or not. *)
Definition composeLines (evs : list Event) : list string :=
  omap (fun e => match e with
                 | EvComposed pg => Some pg
                 | EvComposeWarning pg _ => Some pg
                 | _ => None
                 end) evs.

(** The pages reported as composed. *)
Definition composed (evs : list Event) : list string :=
  omap (fun e => match e with EvComposed pg => Some pg | _ => None end) evs.

(** Every panel of the project, page after page. *)
Definition allPanels (config : FlexicomicConfig) : list PanelConfig :=
  pg ← pages config; panels (layout pg).

(** A code unit kept as it is by [sanitizeFilename]. *)
Definition plain (c : Z) : Prop :=
  FileNames.reserved c = false ∧ FileNames.whiteSpace c = false.

(** The title [My Comic:  Part 1?]. *)
Definition sampleTitle : FileNames.CodeUnits :=
  [77; 121; 32; 67; 111; 109; 105; 99; 58; 32; 32; 80; 97; 114; 116; 32;
   49; 63].

End RunVocabulary.

(** * Properties *)

Import Vocabulary.

(** ** Default grids *)

Module LayoutProps.
Import JS Layout Controller.

Lemma getLayoutGrid_other (layoutType : string) (n : number) :
  layoutType ∉ knownLayouts →
  getLayoutGrid layoutType n = mkGrid (of_Z 2) (of_Z 2) (of_Z 10).
Proof.
  intros Hnot. unfold getLayoutGrid.
  repeat match goal with
         | |- context [String.eqb layoutType ?t] =>
             destruct (String.eqb_spec layoutType t) as [->|_];
             [exfalso; apply Hnot; unfold knownLayouts; set_solver|]
         end.
  reflexivity.
Qed.

(** Every default grid has at least one row and one column, except the
    webtoon grid of a page without panels. *)
Lemma getLayoutGrid_shape (layoutType : string) (n : nat) :
  let g := getLayoutGrid layoutType (of_nat n) in
  (leb (of_Z 1) (rows g) = true ∧ leb (of_Z 1) (cols g) = true)
  ∨ (layoutType = "webtoon" ∧ n = 0%nat ∧ rows g = of_Z 0).
Proof.
  unfold getLayoutGrid.
  repeat match goal with
         | |- context [String.eqb layoutType ?t] =>
             destruct (String.eqb_spec layoutType t) as [->|_]
         end; try (left; split; reflexivity).
  destruct n as [|n]; [right; auto|left].
  split; [|reflexivity].
  cbn. unfold Qle_bool. cbn. apply Z.leb_le. lia.
Qed.

(** On a grid without rows the height of every panel is infinite: the
    division by the number of rows is not guarded. *)
Lemma zero_rows_height (panel : PanelConfig) :
  ∃ s, h (calculatePanelBoundsCustom panel
            (mkGrid (of_Z 0) (of_Z 1) (of_Z 5)) defaultPageSize) = Inf s.
Proof.
  unfold calculatePanelBoundsCustom. cbn [h].
  set (cellHeight := div _ (rows _)).
  assert (cellHeight = Inf false) as -> by reflexivity.
  cbn [gutter mkGrid or_default truthy Qis_zero of_Z inject_Z Qnum].
  cbn [Z.eqb negb].
  destruct (rowspan panel) as [[q|b|]|]; cbn [or_default truthy].
  - destruct (Qis_zero q) eqn:Hq; cbn [negb].
    + eexists; reflexivity.
    + unfold mul at 1. rewrite Hq. cbn. eexists; reflexivity.
  - destruct b; eexists; reflexivity.
  - eexists; reflexivity.
  - eexists; reflexivity.
Qed.

(** C10: the default-grid lookup is a fixed total mapping: "2x2-grid"
    gives 2 rows, 2 columns, gutter 10; "cinematic" 3, 2, 10; "dense" 3, 3,
    8; "splash" 1, 1, 0; "webtoon" as many rows as the page has panels, 1
    column, gutter 5; any other tag 2, 2, 10.  Every grid returned has at
    least one row and one column, except for a webtoon page without
    panels, whose grid has 0 rows; that grid reaches the bounds computation
    as it is, and gives an infinite height instead of an error. *)
Theorem getLayoutGrid_table (layoutType : string) (n : nat)
    (pg : PageConfig) (panel : PanelConfig) :
  getLayoutGrid "2x2-grid" (of_nat n) = mkGrid (of_Z 2) (of_Z 2) (of_Z 10)
  ∧ getLayoutGrid "cinematic" (of_nat n) = mkGrid (of_Z 3) (of_Z 2) (of_Z 10)
  ∧ getLayoutGrid "dense" (of_nat n) = mkGrid (of_Z 3) (of_Z 3) (of_Z 8)
  ∧ getLayoutGrid "splash" (of_nat n) = mkGrid (of_Z 1) (of_Z 1) (of_Z 0)
  ∧ getLayoutGrid "webtoon" (of_nat n) = mkGrid (of_nat n) (of_Z 1) (of_Z 5)
  ∧ (layoutType ∉ knownLayouts →
     getLayoutGrid layoutType (of_nat n) = mkGrid (of_Z 2) (of_Z 2) (of_Z 10))
  ∧ (let g := getLayoutGrid layoutType (of_nat n) in
     (leb (of_Z 1) (rows g) = true ∧ leb (of_Z 1) (cols g) = true)
     ∨ (layoutType = "webtoon" ∧ n = 0%nat ∧ rows g = of_Z 0))
  ∧ (grid (layout pg) = None → layout_type (layout pg) = "webtoon" →
     panels (layout pg) = [] →
     effective_grid pg = mkGrid (of_Z 0) (of_Z 1) (of_Z 5)
     ∧ ∃ s, h (calculatePanelBoundsCustom panel (effective_grid pg)
                 defaultPageSize) = Inf s).
Proof.
  do 5 (split; [reflexivity|]).
  split; [apply getLayoutGrid_other|].
  split; [apply getLayoutGrid_shape|].
  intros Hgrid Htype Hpanels.
  assert (effective_grid pg = mkGrid (of_Z 0) (of_Z 1) (of_Z 5)) as Heff.
  { unfold effective_grid. rewrite Hgrid, Htype, Hpanels. reflexivity. }
  split; [exact Heff|]. rewrite Heff. apply zero_rows_height.
Qed.

Lemma getLayoutGrid_table_witness :
  getLayoutGrid "custom" (of_nat 4) = mkGrid (of_Z 2) (of_Z 2) (of_Z 10)
  ∧ effective_grid (Sample.mkPage "w" "webtoon" None [])
    = mkGrid (of_Z 0) (of_Z 1) (of_Z 5).
Proof.
  pose proof (getLayoutGrid_table "custom" 4
                (Sample.mkPage "w" "webtoon" None [])
                (Sample.mkPanel "p" 0 0)) as (_ & _ & _ & _ & _ & Hc & _ & Hw).
  split.
  - apply Hc. unfold knownLayouts. intros Hin.
    repeat (apply elem_of_cons in Hin as [Hin|Hin]; [discriminate|]).
    by apply elem_of_nil in Hin.
  - apply Hw; reflexivity.
Defined.

End LayoutProps.

(** ** Panel bounds *)

Module BoundsProps.
Import JS Layout.

Lemma or_default_default (x : option number) (d : number) :
  absent_or_truthy x → or_default x d = default d x.
Proof. destruct x as [n|]; cbn; [intros ->|]; reflexivity. Qed.

(** Away from the falsy values the code computes the documented bounds. *)
Lemma calculatePanelBoundsCustom_documented panel grid pageSize :
  absent_or_truthy (gutter grid) →
  absent_or_truthy (rowspan panel) →
  absent_or_truthy (colspan panel) →
  calculatePanelBoundsCustom panel grid pageSize
  = documented_bounds panel grid pageSize.
Proof.
  intros Hg Hr Hc. unfold calculatePanelBoundsCustom, documented_bounds.
  rewrite !or_default_default by assumption. reflexivity.
Qed.

(** A gutter given as 0 is read as 10. *)
Lemma zero_gutter_is_ten panel r c pageSize :
  calculatePanelBoundsCustom panel
    {| rows := r; cols := c; gutter := Some (of_Z 0) |} pageSize
  = calculatePanelBoundsCustom panel
      {| rows := r; cols := c; gutter := Some (of_Z 10) |} pageSize.
Proof. reflexivity. Qed.

(** A span of two columns is two cells and the gutter between them. *)
Lemma colspan_two_width panel grid pageSize :
  colspan panel = Some (of_Z 2) →
  let gutter := or_default (gutter grid) (of_Z 10) in
  let cellWidth :=
    div (sub (width pageSize) (mul gutter (add (cols grid) (of_Z 1))))
        (cols grid) in
  w (calculatePanelBoundsCustom panel grid pageSize)
  = add (mul (of_Z 2) cellWidth) (mul (of_Z 1) gutter).
Proof. intros Hc. unfold calculatePanelBoundsCustom. rewrite Hc. reflexivity. Qed.

(** C1: the bounds are x = gutter + col×(cellWidth+gutter), w =
    colspan×cellWidth + (colspan−1)×gutter and so on, with the gutter
    defaulting to 10 when absent.  On a grid whose gutter is given as 0
    (the grid of the "splash" layout) the code takes the gutter to be 10:
    on a 1200×1600 page the single cell comes out as 1180×1580 at (10,10),
    where the documented formulas give 1200×1600 at (0,0). *)
Theorem calculatePanelBoundsCustom_zero_gutter :
  getLayoutGrid "splash" (of_Z 1) = splashGrid
  ∧ calculatePanelBoundsCustom (Sample.mkPanel "p" 0 0) splashGrid page1200x1600
    = {| x := of_Z 10; y := of_Z 10; w := of_Z 1180; h := of_Z 1580 |}
  ∧ documented_bounds (Sample.mkPanel "p" 0 0) splashGrid page1200x1600
    = {| x := of_Z 0; y := of_Z 0; w := of_Z 1200; h := of_Z 1600 |}.
Proof. repeat split; vm_compute; reflexivity. Qed.

End BoundsProps.

(** ** Running effectful code *)

Section MonadFacts.
Context {A B : Type}.

Lemma bind_ok (m : M A) (f : A → M B) σ a σ' :
  m σ = (Ok a, σ') → (m ≫= f) σ = f a σ'.
Proof. intros E. unfold mbind, M_bind. rewrite E. reflexivity. Qed.

Lemma bind_throw (m : M A) (f : A → M B) σ e σ' :
  m σ = (Throw e, σ') → (m ≫= f) σ = (Throw e, σ').
Proof. intros E. unfold mbind, M_bind. rewrite E. reflexivity. Qed.

Lemma bind_ret (a : A) (f : A → M B) σ : (mret a ≫= f) σ = f a σ.
Proof. reflexivity. Qed.

Lemma try_ok (m : M A) (k : JS.error → M A) σ a σ' :
  m σ = (Ok a, σ') → try_catch m k σ = (Ok a, σ').
Proof. intros E. unfold try_catch. rewrite E. reflexivity. Qed.

Lemma try_throw (m : M A) (k : JS.error → M A) σ e σ' :
  m σ = (Throw e, σ') → try_catch m k σ = k e σ'.
Proof. intros E. unfold try_catch. rewrite E. reflexivity. Qed.
End MonadFacts.

Lemma bind_tell {B} (e : Event) (f : unit → M B) σ :
  (tell e ≫= f) σ = f tt (emit e σ).
Proof. reflexivity. Qed.

Lemma bind_get {B} (f : World → M B) σ : (get ≫= f) σ = f σ σ.
Proof. reflexivity. Qed.

Lemma bind_modify {B} (g : World → World) (f : unit → M B) σ :
  (modify g ≫= f) σ = f tt (g σ).
Proof. reflexivity. Qed.

Lemma spawns_app evs1 evs2 : spawns (evs1 ++ evs2) = spawns evs1 ++ spawns evs2.
Proof. apply omap_app. Qed.

Lemma progress_app evs1 evs2 :
  progress (evs1 ++ evs2) = progress evs1 ++ progress evs2.
Proof. apply omap_app. Qed.

Lemma adapter_events_progress evs :
  Forall adapter_event evs → progress evs = [].
Proof.
  induction 1 as [|e evs He _ IH]; [done|].
  destruct e; cbn in *; try done.
Qed.

Lemma adapter_events_no_warning evs id err :
  Forall adapter_event evs → EvPanelWarning id err ∉ evs.
Proof.
  intros Hall Hin. rewrite Forall_forall in Hall. exact (Hall _ Hin).
Qed.

(** ** The retry wrapper *)

Module AdapterProps.
Import JS Adapter.

Section Provider.
Variable spawn : ImageGenOptions → World → Z.

Lemma callImageGen_fail options σ :
  spawn options σ ≠ 0 →
  callImageGen spawn options σ
  = (Throw (failure (spawn options σ)), emit (EvSpawn options) σ).
Proof. intros H. unfold callImageGen. rewrite decide_True by done. done. Qed.

Lemma callImageGen_success options σ :
  spawn options σ = 0 →
  callImageGen spawn options σ
  = (Ok tt, writeFile (output options) (emit (EvSpawn options) σ)).
Proof. intros H. unfold callImageGen. rewrite decide_False by auto. done. Qed.

(** What [n] iterations of the loop do: they end with the first call
    that succeeds, and the process is started at most [n] times, always
    with the options given; when they all fail, the error thrown is
    that of the last call. *)
Lemma retry_loop_spec options maxRetries (n : nat) :
  ∀ attempt lastError σ,
  ∃ r σ' evs,
    retry_loop spawn options maxRetries n attempt lastError σ = (r, σ')
    ∧ log σ' = log σ ++ evs
    ∧ completed σ' = completed σ
    ∧ Forall adapter_event evs
    ∧ match r with
      | Ok _ =>
          ∃ k, (1 ≤ k ≤ n)%nat
               ∧ spawns evs = replicate k options
               ∧ last evs = Some (EvSpawn options)
               ∧ files σ' = {[output options]} ∪ files σ
      | Throw e =>
          spawns evs = replicate n options
          ∧ files σ' = files σ
          ∧ match n with
            | O => e = lastError
            | S m =>
                ∃ σl pre, log σl = log σ ++ pre
                          ∧ spawns pre = replicate m options
                          ∧ spawn options σl ≠ 0
                          ∧ e = failure (spawn options σl)
            end
      end.
Proof.
  induction n as [|n IH]; intros attempt lastError σ.
  - exists (Throw lastError), σ, []. cbn. rewrite app_nil_r.
    repeat split. constructor.
  - cbn [retry_loop].
    destruct (decide (spawn options σ = 0)) as [Hz|Hnz].
    + exists (Ok tt), (writeFile (output options) (emit (EvSpawn options) σ)),
        [EvSpawn options].
      rewrite (try_ok _ _ _ _ _ (callImageGen_success options σ Hz)).
      repeat split; [repeat constructor|].
      exists 1%nat. cbn. repeat split; lia.
    + rewrite (try_throw _ _ _ _ _ (callImageGen_fail options σ Hnz)).
      set (σ1 := emit (EvSpawn options) σ).
      set (σ2 := if decide (attempt < maxRetries)
                 then emit (EvRetryWarning (attempt + 1)) σ1 else σ1).
      destruct (IH (attempt + 1) (failure (spawn options σ)) σ2)
        as (r & σ' & evs & Hrun & Hlog & Hcomp & Hev & Hr).
      assert (∃ mid, log σ2 = log σ ++ EvSpawn options :: mid
                     ∧ spawns mid = [] ∧ files σ2 = files σ
                     ∧ completed σ2 = completed σ
                     ∧ Forall adapter_event mid)
        as (mid & Hmid & Hsp & Hfiles & Hc2 & Hevm).
      { unfold σ2. destruct (decide (attempt < maxRetries)).
        - exists [EvRetryWarning (attempt + 1)]. cbn.
          rewrite <- app_assoc. repeat split. repeat constructor.
        - exists []. repeat split. constructor. }
      exists r, σ', (EvSpawn options :: mid ++ evs). split.
      { unfold σ2 in Hrun.
        destruct (decide (attempt < maxRetries)); exact Hrun. }
      split. { rewrite Hlog, Hmid, <- app_assoc. done. }
      split. { congruence. }
      split. { constructor; [exact I|]. apply Forall_app; done. }
      assert (spawns (EvSpawn options :: mid ++ evs) = options :: spawns evs)
        as Hall.
      { change (EvSpawn options :: mid ++ evs)
          with ([EvSpawn options] ++ mid ++ evs).
        rewrite !spawns_app, Hsp. done. }
      destruct r as [[]|e].
      * destruct Hr as (k & Hk & Hks & Hlast & Hf).
        exists (S k). split; [lia|]. rewrite Hall, Hks.
        split; [done|]. split.
        { destruct evs as [|e0 evs0]; [done|].
          change (EvSpawn options :: mid ++ e0 :: evs0)
            with ((EvSpawn options :: mid) ++ e0 :: evs0).
          rewrite last_app_cons. exact Hlast. }
        rewrite Hf, Hfiles. done.
      * destruct Hr as (Hks & Hf & Hlast).
        rewrite Hall, Hks. split; [done|]. split; [congruence|].
        destruct n as [|m].
        -- exists σ, []. rewrite app_nil_r. subst e. done.
        -- destruct Hlast as (σl & pre & Hl & Hpre & Hne & He).
           exists σl, (EvSpawn options :: mid ++ pre).
           split. { rewrite Hl, Hmid, <- app_assoc. done. }
           split; [|done].
           change (EvSpawn options :: mid ++ pre)
             with ([EvSpawn options] ++ mid ++ pre).
           rewrite !spawns_app, Hsp, Hpre. done.
Qed.

(** With a provider that fails whenever it is started with [options],
    the loop does not return. *)
Lemma retry_loop_all_fail options maxRetries n attempt lastError σ σ' :
  (∀ σ0, spawn options σ0 ≠ 0) →
  retry_loop spawn options maxRetries n attempt lastError σ ≠ (Ok tt, σ').
Proof.
  intros Hfail. revert attempt lastError σ.
  induction n as [|n IH]; intros attempt lastError σ Hrun.
  - discriminate.
  - cbn [retry_loop] in Hrun.
    rewrite (try_throw _ _ _ _ _
               (callImageGen_fail options σ (Hfail σ))) in Hrun.
    destruct (decide (attempt < maxRetries)); eapply IH; exact Hrun.
Qed.

(** With 2 retries the provider is started between once and 3 times,
    always with the options given. *)
Lemma callImageGenWithRetry_calls options σ :
  ∃ r σ' evs k,
    callImageGenWithRetry spawn options 2 σ = (r, σ')
    ∧ log σ' = log σ ++ evs
    ∧ (1 ≤ k ≤ 3)%nat
    ∧ spawns evs = replicate k options.
Proof.
  unfold callImageGenWithRetry. change (Z.to_nat (2 + 1)) with 3%nat.
  destruct (retry_loop_spec options 2 3 0 Null σ)
    as (r & σ' & evs & Hrun & Hlog & _ & _ & Hr).
  destruct r as [[]|e].
  - destruct Hr as (k & Hk & Hks & _).
    exists (Ok tt), σ', evs, k. done.
  - destruct Hr as (Hks & _).
    exists (Throw e), σ', evs, 3%nat. repeat split; (done || lia).
Qed.


End Provider.


End AdapterProps.

(** ** The job runner and the controller *)

Module ControllerProps.
Import JS Layout Adapter Controller AdapterProps.

Section Collaborators.
Variable spawn : ImageGenOptions → World → Z.
Variable path_join : list string → string.
Variable buildPanelPrompt :
  FlexicomicConfig → PageConfig → PanelConfig → string.
Variable getCharacterReferenceImages :
  FlexicomicConfig → PageConfig → PanelConfig → string → World →
  list string.

Local Abbreviation generateSinglePanel :=
  (generateSinglePanel spawn path_join buildPanelPrompt
                       getCharacterReferenceImages).
Local Abbreviation generateSinglePanel_rest :=
  (generateSinglePanel_rest spawn path_join buildPanelPrompt
                            getCharacterReferenceImages).
Local Abbreviation generatePanelWithProgress :=
  (generatePanelWithProgress spawn path_join buildPanelPrompt
                             getCharacterReferenceImages).
Local Abbreviation generatePanelParallel :=
  (generatePanelParallel spawn path_join buildPanelPrompt
                         getCharacterReferenceImages).
Local Abbreviation batch_loop :=
  (batch_loop spawn path_join buildPanelPrompt
              getCharacterReferenceImages).
Local Abbreviation outputPath := (outputPath path_join).
Local Abbreviation done_with := (done_with path_join).
Local Abbreviation attempted := (attempted path_join).
Local Abbreviation settles := (settles path_join).

(** The runner stops at the check of the output file when the file is
    there. *)
Lemma generateSinglePanel_existing item config outputDir provider σ :
  outputPath outputDir (panel item) ∈ files σ →
  generateSinglePanel item config outputDir provider σ = (Ok (mret tt), σ).
Proof.
  intros Hfile.
  unfold Controller.generateSinglePanel. rewrite bind_get.
  unfold existsSync. rewrite bool_decide_eq_true_2 by exact Hfile.
  reflexivity.
Qed.

Lemma await_generateSinglePanel_existing item config outputDir provider σ :
  outputPath outputDir (panel item) ∈ files σ →
  await (generateSinglePanel item config outputDir provider) σ = (Ok tt, σ).
Proof.
  intros Hfile. unfold await.
  rewrite (bind_ok _ _ _ _ _
             (generateSinglePanel_existing item config outputDir provider
                σ Hfile)).
  reflexivity.
Qed.

(** C2: when the file <outputDir>/panels/<panel id>.png exists, the job
    runner returns at once and leaves the world as it is: no provider
    call, no prompt built, no file written.  Running it again changes
    nothing either. *)
Theorem generateSinglePanel_skip item config outputDir provider σ :
  outputPath outputDir (panel item) ∈ files σ →
  generateSinglePanel item config outputDir provider σ = (Ok (mret tt), σ)
  ∧ await (generateSinglePanel item config outputDir provider) σ
    = (Ok tt, σ)
  ∧ (await (generateSinglePanel item config outputDir provider);;
     await (generateSinglePanel item config outputDir provider)) σ
    = (Ok tt, σ).
Proof.
  intros Hfile.
  pose proof (await_generateSinglePanel_existing item config outputDir
                provider σ Hfile) as Hrun.
  split; [apply generateSinglePanel_existing, Hfile|].
  split; [exact Hrun|].
  rewrite (bind_ok _ _ _ _ _ Hrun). exact Hrun.
Qed.

(** *** What the runner does to files and events *)

Lemma spawned_for_mono path evs pre post :
  spawned_for path evs → spawned_for path (pre ++ evs ++ post).
Proof.
  intros (o & Ho & Hpath). exists o. split; [|exact Hpath].
  rewrite !spawns_app. set_solver.
Qed.

Lemma files_from_refl σ : files_from σ [] σ.
Proof. intros path Hpath. left. exact Hpath. Qed.

Lemma files_from_trans σ1 evs1 σ2 evs2 σ3 :
  files_from σ1 evs1 σ2 → files_from σ2 evs2 σ3 →
  files_from σ1 (evs1 ++ evs2) σ3.
Proof.
  intros H12 H23 path Hpath.
  destruct (H23 path Hpath) as [H2|Hs].
  - destruct (H12 path H2) as [H1|Hs]; [left; exact H1|right].
    pose proof (spawned_for_mono path evs1 [] evs2 Hs) as H. exact H.
  - right. pose proof (spawned_for_mono path evs2 evs1 [] Hs) as H.
    rewrite app_nil_r in H. exact H.
Qed.

Lemma files_from_same σ evs σ' :
  files σ' = files σ → files_from σ evs σ'.
Proof. intros Heq path Hpath. left. rewrite <- Heq. exact Hpath. Qed.

Lemma callImageGenWithRetry_effects options maxRetries σ :
  0 <= maxRetries →
  ∃ r σ' evs,
    callImageGenWithRetry spawn options maxRetries σ = (r, σ')
    ∧ log σ' = log σ ++ evs
    ∧ completed σ' = completed σ
    ∧ Forall adapter_event evs
    ∧ files σ ⊆ files σ'
    ∧ files_from σ evs σ'
    ∧ spawned_for (output options) evs
    ∧ (∀ u, r = Ok u → output options ∈ files σ').
Proof.
  intros Hmax. unfold callImageGenWithRetry.
  destruct (retry_loop_spec spawn options maxRetries
              (Z.to_nat (maxRetries + 1)) 0 Null σ)
    as (r & σ' & evs & Hrun & Hlog & Hc & Hev & Hr).
  assert (∃ k, spawns evs = replicate (S k) options) as [k Hk].
  { destruct r as [u|e].
    - destruct Hr as (k & Hk & Hks & _). exists (k - 1)%nat.
      rewrite Hks. f_equal. lia.
    - destruct Hr as (Hks & _). exists (Z.to_nat maxRetries).
      rewrite Hks. f_equal. lia. }
  assert (spawned_for (output options) evs) as Hsp.
  { exists options. split; [|reflexivity]. rewrite Hk. left. }
  exists r, σ', evs.
  split; [exact Hrun|]. split; [exact Hlog|]. split; [exact Hc|].
  split; [exact Hev|].
  destruct r as [u|e].
  - destruct Hr as (_ & _ & _ & _ & Hf). rewrite Hf.
    split; [set_solver|]. split.
    + intros path Hpath. rewrite Hf in Hpath.
      apply elem_of_union in Hpath as [Hpath|Hpath].
      * right. apply elem_of_singleton in Hpath. subst path. exact Hsp.
      * left. exact Hpath.
    + split; [exact Hsp|]. intros _ _. set_solver.
  - destruct Hr as (_ & Hf & _). rewrite Hf.
    split; [done|]. split; [apply files_from_same; exact Hf|].
    split; [exact Hsp|]. intros u Hu. discriminate.
Qed.

Lemma generateSinglePanel_rest_effects item config outputDir provider ar σ :
  ∃ r σ' evs,
    generateSinglePanel_rest item config outputDir provider ar σ = (r, σ')
    ∧ log σ' = log σ ++ evs
    ∧ completed σ' = completed σ
    ∧ Forall adapter_event evs
    ∧ files σ ⊆ files σ'
    ∧ files_from σ evs σ'
    ∧ spawned_for (outputPath outputDir (panel item)) evs
    ∧ (∀ u, r = Ok u → outputPath outputDir (panel item) ∈ files σ').
Proof.
  unfold Controller.generateSinglePanel_rest. rewrite bind_get.
  match goal with
  | |- context [callImageGenWithRetry spawn ?o ?m σ] =>
      destruct (callImageGenWithRetry_effects o m σ ltac:(lia))
        as (r & σ' & evs & Hrun & H)
  end.
  exists r, σ', evs. split; [exact Hrun|exact H].
Qed.

(** A run of the job runner that returns leaves the file behind, so that
    the next run finds it and stops. *)
Lemma generateSinglePanel_resume item config outputDir provider σ σ' :
  await (generateSinglePanel item config outputDir provider) σ = (Ok tt, σ') →
  await (generateSinglePanel item config outputDir provider) σ' = (Ok tt, σ').
Proof.
  intros Hrun. apply await_generateSinglePanel_existing.
  unfold await, Controller.generateSinglePanel in Hrun.
  unfold mbind at 1, M_bind in Hrun. rewrite bind_get in Hrun.
  destruct (existsSync (outputPath outputDir (panel item)) σ) eqn:Hex.
  - cbn in Hrun. injection Hrun as <-.
    apply bool_decide_eq_true_1 in Hex. exact Hex.
  - destruct (panelAspectRatio item) as [a|e]; [|discriminate].
    rewrite bind_tell in Hrun. cbn [mret M_ret] in Hrun.
    destruct (generateSinglePanel_rest_effects item config outputDir
                provider a
                (emit (EvPrompt (page_id (page item)) (panel_id (panel item))) σ))
      as (r & σ2 & evs & Hrest & _ & _ & _ & _ & _ & _ & Hout).
    rewrite Hrest in Hrun. injection Hrun as -> ->. apply (Hout tt). done.
Qed.

(** *** Bounded-concurrency execution *)

Lemma progress_from_app c a b total :
  progress_from c (a + b) total
  = progress_from c a total ++ progress_from (c + Z.of_nat a) b total.
Proof.
  unfold progress_from. rewrite seq_app, fmap_app. f_equal.
  replace (1 + a)%nat with (a + 1)%nat by lia.
  rewrite <- (fmap_add_seq a 1 b), <- list_fmap_compose.
  apply list_fmap_ext. intros _ k _. cbn. f_equal. lia.
Qed.

Lemma done_with_mono outputDir evs σ item pre post σ' :
  files σ ⊆ files σ' →
  done_with outputDir evs σ item →
  done_with outputDir (pre ++ evs ++ post) σ' item.
Proof.
  intros Hsub [Hf|[e He]]; [left; set_solver|right; exists e; set_solver].
Qed.

Lemma attempted_mono outputDir F evs item pre post :
  attempted outputDir F evs item →
  attempted outputDir F (pre ++ evs ++ post) item.
Proof.
  intros [HF|[Hs|He]]; [left; exact HF| |right; right; exact He].
  right; left. apply spawned_for_mono. exact Hs.
Qed.

(** A job started later counts as attempted from the beginning: the files
    found then were there before or were asked of the provider since. *)
Lemma attempted_earlier outputDir σ0 pre σ evs item :
  files_from σ0 pre σ →
  attempted outputDir (files σ) evs item →
  attempted outputDir (files σ0) (pre ++ evs) item.
Proof.
  intros Hfrom [HF|[Hs|He]]; [|right; left|right; right; exact He].
  - destruct (Hfrom _ HF) as [H0|Hs]; [left; exact H0|right; left].
    pose proof (spawned_for_mono _ pre [] evs Hs) as H. exact H.
  - pose proof (spawned_for_mono _ evs pre [] Hs) as H.
    rewrite app_nil_r in H. exact H.
Qed.

Lemma onProgress_run total σ :
  onProgress total σ
  = (Ok tt, emit (EvProgress (completed σ + 1) total)
                 (set_completed (completed σ + 1) σ)).
Proof. reflexivity. Qed.

Lemma generatePanelWithProgress_call item config outputDir provider
    total σ :
  ∃ q σ1 pre,
    generatePanelWithProgress item config outputDir provider
                              (onProgress total) σ = (Ok q, σ1)
    ∧ log σ1 = log σ ++ pre
    ∧ progress pre = []
    ∧ spawns pre = []
    ∧ (∀ id e, EvPanelWarning id e ∉ pre)
    ∧ completed σ1 = completed σ
    ∧ files σ1 = files σ
    ∧ settles outputDir total (files σ) item q.
Proof.
  unfold Controller.generatePanelWithProgress,
    Controller.generateSinglePanel.
  destruct (existsSync (outputPath outputDir (panel item)) σ) eqn:Hex.
  - (* the file is there *)
    eexists _, σ, []. split.
    { unfold mbind at 1, M_bind. rewrite bind_get. rewrite Hex.
      reflexivity. }
    rewrite app_nil_r. split; [done|]. split; [done|]. split; [done|].
    split; [intros ?? H; inversion H|]. split; [done|]. split; [done|].
    intros σ' Hsub.
    eexists _, [EvProgress (completed σ' + 1) total].
    split; [reflexivity|]. split; [done|]. split; [done|]. split; [done|].
    split; [apply files_from_same; done|]. split; [done|].
    apply bool_decide_eq_true_1 in Hex.
    split; [left; cbn; set_solver|left; exact Hex].
  - destruct (panelAspectRatio item) as [ar|err] eqn:Har.
    + (* the provider is called *)
      eexists _, _, [EvPrompt (page_id (page item)) (panel_id (panel item))].
      split.
      { unfold mbind at 1, M_bind. rewrite bind_get. rewrite Hex.
        reflexivity. }
      split; [done|]. split; [done|]. split; [done|].
      split.
      { intros ?? H. apply list_elem_of_singleton in H. discriminate. }
      split; [done|]. split; [done|].
      intros σ' Hsub.
      destruct (generateSinglePanel_rest_effects item config outputDir
                  provider ar σ')
        as (r & σ2 & evs & Hrun & Hlog & Hc & Hev & Hfiles & Hfrom & Hsp
            & Hout).
      destruct r as [[]|e].
      * eexists _, (evs ++ [EvProgress (completed σ2 + 1) total]).
        split.
        { erewrite try_ok; [reflexivity|].
          rewrite (bind_ok _ _ _ _ _ Hrun). apply onProgress_run. }
        cbn. split; [rewrite Hlog, <- app_assoc; done|].
        split; [lia|]. split; [done|].
        split.
        { pose proof (files_from_trans σ' evs σ2 [EvProgress (completed σ2 + 1) total]
                        (emit (EvProgress (completed σ2 + 1) total)
                              (set_completed (completed σ2 + 1) σ2))
                        Hfrom ltac:(apply files_from_same; done)) as H.
          exact H. }
        split.
        { rewrite progress_app, (adapter_events_progress _ Hev).
          cbn. rewrite Hc. done. }
        split; [left; cbn; apply (Hout tt); done|].
        right; left.
        pose proof (spawned_for_mono _ evs []
                      [EvProgress (completed σ2 + 1) total] Hsp) as H.
        exact H.
      * eexists _, (evs ++ [EvPanelWarning (panel_id (panel item)) e;
                            EvProgress (completed σ2 + 1) total]).
        split.
        { erewrite try_throw;
            [|rewrite (bind_throw _ _ _ _ _ Hrun); reflexivity].
          rewrite bind_tell. apply onProgress_run. }
        cbn. split; [rewrite Hlog, <- !app_assoc; done|].
        split; [lia|]. split; [done|].
        split.
        { pose proof (files_from_trans σ' evs σ2
                        [EvPanelWarning (panel_id (panel item)) e;
                         EvProgress (completed σ2 + 1) total]
                        (emit (EvProgress (completed σ2 + 1) total)
                           (set_completed (completed σ2 + 1)
                              (emit (EvPanelWarning (panel_id (panel item)) e) σ2)))
                        Hfrom ltac:(apply files_from_same; done)) as H.
          exact H. }
        split.
        { rewrite progress_app, (adapter_events_progress _ Hev).
          cbn. rewrite Hc. done. }
        split; [right; exists e; set_solver|].
        right; left.
        pose proof (spawned_for_mono _ evs []
                      [EvPanelWarning (panel_id (panel item)) e;
                       EvProgress (completed σ2 + 1) total] Hsp) as H.
        exact H.
    + (* the aspect ratio could not be computed *)
      eexists _, σ, []. split.
      { unfold mbind at 1, M_bind. rewrite bind_get. rewrite Hex.
        reflexivity. }
      rewrite app_nil_r. split; [done|]. split; [done|]. split; [done|].
      split; [intros ?? H; inversion H|]. split; [done|]. split; [done|].
      intros σ' Hsub.
      eexists _, [EvPanelWarning (panel_id (panel item)) err;
                  EvProgress (completed σ' + 1) total].
      split.
      { erewrite try_throw; [|reflexivity].
        rewrite bind_tell. apply onProgress_run. }
      split; [unfold emit, set_completed; cbn; rewrite <- app_assoc; done|].
      split; [done|]. split; [done|].
      split; [apply files_from_same; done|]. split; [done|].
      split; [right; exists err; set_solver|].
      right; right. exists err. exact Har.
Qed.

(** Starting the jobs of a batch: no progress yet, no file written. *)
Lemma start_batch config outputDir provider total (batch : list PanelToGenerate) :
  ∀ σ, ∃ qs σ1 pre,
    mapM (M := M) (fun item =>
            generatePanelWithProgress item config outputDir provider
                                      (onProgress total)) batch σ
    = (Ok qs, σ1)
    ∧ log σ1 = log σ ++ pre
    ∧ progress pre = []
    ∧ spawns pre = []
    ∧ (∀ id e, EvPanelWarning id e ∉ pre)
    ∧ completed σ1 = completed σ
    ∧ files σ1 = files σ
    ∧ Forall2 (settles outputDir total (files σ)) batch qs.
Proof.
  induction batch as [|item batch IH]; intros σ.
  - exists [], σ, []. rewrite app_nil_r.
    split; [done|]. split; [done|]. split; [done|]. split; [done|].
    split; [intros ?? H; inversion H|]. split; [done|]. split; [done|].
    constructor.
  - destruct (generatePanelWithProgress_call item config outputDir
                provider total σ)
      as (q & σ1 & pre1 & Hcall & Hlog1 & Hp1 & Hs1 & Hw1 & Hc1 & Hf1 & Hq).
    destruct (IH σ1)
      as (qs & σ2 & pre2 & Hrest & Hlog2 & Hp2 & Hs2 & Hw2 & Hc2 & Hf2 & Hqs).
    exists (q :: qs), σ2, (pre1 ++ pre2). split.
    { cbn [mapM]. rewrite (bind_ok _ _ _ _ _ Hcall).
      rewrite (bind_ok _ _ _ _ _ Hrest). reflexivity. }
    split; [rewrite Hlog2, Hlog1, <- app_assoc; done|].
    split; [rewrite progress_app, Hp1, Hp2; done|].
    split; [rewrite spawns_app, Hs1, Hs2; done|].
    split.
    { intros id e Hin. apply elem_of_app in Hin as [Hin|Hin].
      - exact (Hw1 _ _ Hin).
      - exact (Hw2 _ _ Hin). }
    split; [congruence|]. split; [congruence|].
    constructor; [exact Hq|]. rewrite <- Hf1. exact Hqs.
Qed.

(** Waiting for a batch: every job settles, whatever the others did. *)
Lemma settle_batch outputDir total F batch qs :
  Forall2 (settles outputDir total F) batch qs →
  ∀ σ, F ⊆ files σ →
    ∃ σ' evs,
      Promise_all qs σ = (Ok tt, σ')
      ∧ log σ' = log σ ++ evs
      ∧ completed σ' = completed σ + Z.of_nat (length batch)
      ∧ files σ ⊆ files σ'
      ∧ files_from σ evs σ'
      ∧ progress evs = progress_from (completed σ) (length batch) total
      ∧ Forall (done_with outputDir evs σ') batch
      ∧ Forall (attempted outputDir F evs) batch.
Proof.
  induction 1 as [|item q batch qs Hq _ IH]; intros σ Hsub.
  - exists σ, []. rewrite app_nil_r. cbn.
    split; [done|]. split; [done|]. split; [lia|]. split; [done|].
    split; [apply files_from_refl|]. split; [done|].
    split; constructor.
  - destruct (Hq σ Hsub)
      as (σ1 & evs1 & Hrun & Hlog1 & Hc1 & Hf1 & Hfrom1 & Hp1 & Hd1 & Ha1).
    destruct (IH σ1 ltac:(etrans; eassumption))
      as (σ2 & evs2 & Hrest & Hlog2 & Hc2 & Hf2 & Hfrom2 & Hp2 & Hd2 & Ha2).
    exists σ2, (evs1 ++ evs2). split.
    { cbn [Promise_all]. rewrite Hrun. exact Hrest. }
    split; [rewrite Hlog2, Hlog1, <- app_assoc; done|].
    split; [cbn [length]; lia|]. split; [etrans; eassumption|].
    split; [eapply files_from_trans; eassumption|].
    split.
    { change (length (item :: batch)) with (1 + length batch)%nat.
      rewrite progress_app, Hp1, Hp2, progress_from_app, Hc1.
      cbn. repeat f_equal; lia. }
    split; constructor.
    + pose proof (done_with_mono outputDir evs1 σ1 item [] evs2 σ2 Hf2 Hd1)
        as Hd. exact Hd.
    + eapply Forall_impl; [exact Hd2|]. intros it Hit.
      pose proof (done_with_mono outputDir evs2 σ2 it evs1 [] σ2
                    ltac:(done) Hit) as Hd.
      rewrite app_nil_r in Hd. exact Hd.
    + pose proof (attempted_mono outputDir F evs1 item [] evs2 Ha1) as Ha.
      exact Ha.
    + eapply Forall_impl; [exact Ha2|]. intros it Hit.
      pose proof (attempted_mono outputDir F evs2 it evs1 [] Hit) as Ha.
      rewrite app_nil_r in Ha. exact Ha.
Qed.

(** The batch loop started at index [i] with [fuel] batches allowed. *)
Lemma batch_loop_spec (c : nat) panels config outputDir provider :
  (1 ≤ c)%nat →
  ∀ fuel i σ,
    ∃ σ' evs,
      batch_loop fuel i c panels config outputDir provider σ = (Ok tt, σ')
      ∧ log σ' = log σ ++ evs
      ∧ files σ ⊆ files σ'
      ∧ files_from σ evs σ'
      ∧ completed σ'
        = completed σ + Z.of_nat (Nat.min (fuel * c) (length panels - i))
      ∧ progress evs
        = progress_from (completed σ)
                        (Nat.min (fuel * c) (length panels - i))
                        (Z.of_nat (length panels))
      ∧ ∀ j item, (i ≤ j < i + fuel * c)%nat → panels !! j = Some item →
                  done_with outputDir evs σ' item
                  ∧ attempted outputDir (files σ) evs item.
Proof.
  intros Hc. induction fuel as [|fuel IH]; intros i σ.
  - exists σ, []. rewrite app_nil_r. cbn.
    split; [done|]. split; [done|]. split; [done|].
    split; [apply files_from_refl|]. split; [lia|].
    split; [done|]. intros j item Hj. lia.
  - cbn [Controller.batch_loop].
    destruct (decide (i < length panels)%nat) as [Hi|Hi].
    + set (batch := slice i c panels).
      destruct (start_batch config outputDir provider
                  (Z.of_nat (length panels)) batch σ)
        as (qs & σ1 & pre & Hstart & Hlog1 & Hp1 & Hs1 & Hw1 & Hc1 & Hf1
            & Hqs).
      destruct (settle_batch _ _ _ _ _ Hqs σ1 ltac:(rewrite Hf1; done))
        as (σ2 & evs2 & Hall & Hlog2 & Hc2 & Hf2 & Hfrom2 & Hp2 & Hd2 & Ha2).
      destruct (IH (i + c)%nat σ2)
        as (σ3 & evs3 & Hrest & Hlog3 & Hf3 & Hfrom3 & Hc3 & Hp3 & Hd3).
      assert (length batch = Nat.min c (length panels - i)) as Hlen.
      { unfold batch, slice. rewrite length_take, length_drop. done. }
      assert (Nat.min (S fuel * c) (length panels - i)
              = (length batch
                 + Nat.min (fuel * c) (length panels - (i + c)))%nat)
        as Hsum by (rewrite Hlen; lia).
      assert (files_from σ (pre ++ evs2) σ2) as Hfrom12.
      { eapply files_from_trans; [|exact Hfrom2].
        apply files_from_same. exact Hf1. }
      exists σ3, (pre ++ evs2 ++ evs3). split.
      { rewrite (bind_ok _ _ _ _ _ Hstart).
        rewrite (bind_ok _ _ _ _ _ Hall). exact Hrest. }
      split; [rewrite Hlog3, Hlog2, Hlog1, <- !app_assoc; done|].
      split; [rewrite <- Hf1; etrans; eassumption|].
      split.
      { rewrite app_assoc. eapply files_from_trans; eassumption. }
      split; [rewrite Hsum; lia|].
      split.
      { rewrite !progress_app, Hp1, Hp2, Hp3, Hsum, progress_from_app.
        cbn. rewrite Hc1, Hc2, Hc1. done. }
      intros j item Hj Hitem.
      destruct (decide (j < i + c)%nat) as [Hjc|Hjc].
      * assert (item ∈ batch) as Hin.
        { apply list_elem_of_lookup. exists (j - i)%nat.
          unfold batch, slice. rewrite lookup_take_lt by lia.
          rewrite lookup_drop. rewrite <- Hitem. f_equal. lia. }
        rewrite Forall_forall in Hd2, Ha2. split.
        -- exact (done_with_mono outputDir evs2 σ2 item pre evs3 σ3 Hf3
                    (Hd2 item Hin)).
        -- exact (attempted_mono outputDir (files σ) evs2 item pre evs3
                    (Ha2 item Hin)).
      * destruct (Hd3 j item ltac:(lia) Hitem) as [Hd Ha]. split.
        -- pose proof (done_with_mono outputDir evs3 σ3 item (pre ++ evs2) []
                         σ3 ltac:(done) Hd) as Hd'.
           rewrite app_nil_r, <- app_assoc in Hd'. exact Hd'.
        -- pose proof (attempted_earlier outputDir σ (pre ++ evs2) σ2 evs3
                         item Hfrom12 Ha) as Ha'.
           rewrite <- app_assoc in Ha'. exact Ha'.
    + exists σ, []. rewrite app_nil_r.
      replace (length panels - i)%nat with 0%nat by lia.
      rewrite Nat.min_0_r. cbn.
      split; [done|]. split; [done|]. split; [done|].
      split; [apply files_from_refl|]. split; [lia|].
      split; [done|]. intros j item Hj Hitem.
      apply lookup_lt_Some in Hitem. lia.
Qed.

Lemma clamp_concurrency_range c : 1 <= clamp_concurrency c <= 8.
Proof. unfold clamp_concurrency. lia. Qed.


(** *** Sequential execution *)

(** When every call of the provider for the file of the first job fails,
    the sequential run throws after three calls and starts no other
    job. *)
Lemma generatePanelSequential_fail_fast item rest config outputDir provider
    σ a :
  outputPath outputDir (panel item) ∉ files σ →
  panelAspectRatio item = Ok a →
  (∀ o σ0, output o = outputPath outputDir (panel item) → spawn o σ0 ≠ 0) →
  ∃ e σ' evs,
    generatePanelSequential spawn path_join buildPanelPrompt
      getCharacterReferenceImages (item :: rest) config outputDir provider σ
    = (Throw e, σ')
    ∧ log σ' = log σ ++ evs
    ∧ files σ' = files σ
    ∧ output <$> spawns evs
      = replicate 3 (outputPath outputDir (panel item))
    ∧ ∀ i total id, EvStatus i total id ∈ evs → i = 1.
Proof.
  intros Hfile Har Hfail.
  unfold Controller.generatePanelSequential.
  rewrite imap_cons. cbn [forM].
  set (status := EvStatus (Z.of_nat 0 + 1) (Z.of_nat (length (item :: rest)))
                          (panel_id (panel item))).
  set (σ1 := emit status σ).
  set (σ2 := emit (EvPrompt (page_id (page item)) (panel_id (panel item))) σ1).
  assert (await (generateSinglePanel item config outputDir provider) σ1
          = generateSinglePanel_rest item config outputDir provider a σ2)
    as Hawait.
  { unfold await, Controller.generateSinglePanel. rewrite Har.
    unfold mbind at 1, M_bind. rewrite bind_get.
    unfold existsSync. rewrite bool_decide_eq_false_2 by exact Hfile.
    rewrite bind_tell. reflexivity. }
  unfold Controller.generateSinglePanel_rest in Hawait.
  rewrite bind_get in Hawait.
  unfold callImageGenWithRetry in Hawait.
  change (Z.to_nat (2 + 1)) with 3%nat in Hawait.
  match type of Hawait with
  | _ = retry_loop spawn ?o 2 3 0 Null σ2 =>
      set (options := o) in *;
      destruct (retry_loop_spec spawn options 2 3 0 Null σ2)
        as (r & σ' & evs & Hrun & Hlog & _ & Hev & Hr)
  end.
  destruct r as [[]|e].
  { exfalso. eapply (retry_loop_all_fail spawn options); [|exact Hrun].
    intros σ0. apply Hfail. reflexivity. }
  destruct Hr as (Hks & Hfiles & _).
  exists e, σ',
    (status :: EvPrompt (page_id (page item)) (panel_id (panel item)) :: evs).
  split.
  { apply bind_throw. rewrite bind_tell. fold σ1.
    rewrite Hawait. exact Hrun. }
  split.
  { rewrite Hlog. unfold σ2, σ1. cbn. rewrite <- !app_assoc. reflexivity. }
  split; [rewrite Hfiles; reflexivity|].
  split.
  { change (spawns (status :: EvPrompt (page_id (page item))
                                       (panel_id (panel item)) :: evs))
      with (spawns evs).
    rewrite Hks. reflexivity. }
  intros i total id Hin.
  apply elem_of_cons in Hin as [Heq|Hin]; [injection Heq as -> _ _; reflexivity|].
  apply elem_of_cons in Hin as [Heq|Hin]; [discriminate|].
  exfalso. rewrite Forall_forall in Hev. exact (Hev _ Hin).
Qed.

End Collaborators.
End ControllerProps.

(** ** The controller on the sample project *)

Module ControllerExamples.
Import JS Controller AdapterProps.

Lemma generateSinglePanel_skip_witness :
  await (generateSinglePanel Sample.succeeds Sample.join Sample.promptOf
           Sample.noRefs first_job Sample.project "out" "google")
        resumed_world
  = (Ok tt, resumed_world).
Proof.
  apply (ControllerProps.generateSinglePanel_skip Sample.succeeds Sample.join
           Sample.promptOf Sample.noRefs first_job Sample.project "out"
           "google" resumed_world).
  unfold resumed_world, writeFile. cbn [files].
  apply elem_of_union_l, elem_of_singleton. vm_compute. reflexivity.
Defined.


(** With a concurrency of 2 and three jobs of which the second fails, the
    first and the third produce their files and the second alone is
    warned about. *)
Example batch_isolation :
  outcome (concurrent (Sample.fails_for "out/panels/p1-b.png") 2 page1_jobs
             Sample.empty_world)
  = (Ok tt,
     ["out/panels/p1-a.png"; "out/panels/p1-b.png"; "out/panels/p1-b.png";
      "out/panels/p1-b.png"; "out/panels/p1-c.png"],
     ["p1-b"],
     ["out/panels/p1-c.png"; "out/panels/p1-a.png"]).
Proof. vm_compute. reflexivity. Qed.

(** C4: a failure of a job is caught at the controller and the remaining
    jobs are still attempted, under both strategies.  The sequential
    strategy does not do this: when the first of three jobs fails its three
    attempts, [generatePanelSequential] throws that error, the other two
    jobs are never started, and [generateComic] passes the error on to its
    caller.  The concurrent strategy, on the same jobs and provider,
    returns normally and produces the other two files. *)
Theorem generatePanelSequential_stops_at_failure :
  let spawn := Sample.fails_for "out/panels/p1-a.png" in
  outcome (sequential spawn page1_jobs Sample.empty_world)
  = (Throw (failure 1),
     ["out/panels/p1-a.png"; "out/panels/p1-a.png"; "out/panels/p1-a.png"],
     [], [])
  ∧ fst (Sample.run spawn Sample.options0 Sample.project Sample.empty_world)
    = Throw (failure 1)
  ∧ outcome (concurrent spawn 4 page1_jobs Sample.empty_world)
    = (Ok tt,
       ["out/panels/p1-a.png"; "out/panels/p1-a.png"; "out/panels/p1-a.png";
        "out/panels/p1-b.png"; "out/panels/p1-c.png"],
       ["p1-a"],
       ["out/panels/p1-c.png"; "out/panels/p1-b.png"]).
Proof. repeat split; vm_compute; reflexivity. Qed.

End ControllerExamples.

(** ** Selections *)

Module ValidationProps.
Import JS Validation.

Section NewSet.
Context {A : Type} `{EqDecision A}.

Lemma fold_Set_add (l : list A) :
  ∀ acc, NoDup acc →
    NoDup (fold_left Set_add l acc)
    ∧ ∀ x, x ∈ fold_left Set_add l acc ↔ x ∈ acc ∨ x ∈ l.
Proof.
  induction l as [|a l IH]; intros acc Hacc; cbn [fold_left].
  - split; [exact Hacc|]. set_solver.
  - assert (NoDup (Set_add acc a)
            ∧ ∀ x, x ∈ Set_add acc a ↔ x ∈ acc ∨ x = a) as [Hnd Hin].
    { unfold Set_add. destruct (decide (a ∈ acc)) as [Ha|Ha].
      - split; [exact Hacc|]. set_solver.
      - split; [|set_solver].
        apply NoDup_app. split; [exact Hacc|].
        split; [set_solver|apply NoDup_singleton]. }
    destruct (IH _ Hnd) as [Hnd' Hin']. split; [exact Hnd'|].
    intros x. rewrite Hin', Hin. set_solver.
Qed.

Lemma new_Set_NoDup (l : list A) : NoDup (new_Set l).
Proof. apply fold_Set_add. constructor. Qed.

Lemma elem_of_new_Set (l : list A) x : x ∈ new_Set l ↔ x ∈ l.
Proof.
  unfold new_Set.
  destruct (fold_Set_add l [] (NoDup_nil_2)) as [_ H].
  rewrite H. set_solver.
Qed.
End NewSet.

Lemma elem_of_for_range a b i : i ∈ for_range a b ↔ a <= i <= b.
Proof.
  unfold for_range. rewrite list_elem_of_fmap. split.
  - intros (k & -> & Hk). apply elem_of_seq in Hk. lia.
  - intros Hi. exists (Z.to_nat (i - a)). split; [lia|].
    apply elem_of_seq. lia.
Qed.

(** A sorted list without repetition is strictly increasing. *)
Lemma strictly_sorted (l : list Z) :
  StronglySorted Z.le l → NoDup l → StronglySorted Z.lt l.
Proof.
  induction 1 as [|a l Hl IH Ha]; intros Hnd; constructor.
  - apply IH. by apply NoDup_cons_1_2 in Hnd.
  - apply NoDup_cons in Hnd as [Hnot _].
    rewrite Forall_forall in Ha |- *. intros b Hb.
    assert (a ≠ b) by (intros ->; done).
    specialize (Ha b Hb). lia.
Qed.

Lemma elem_of_expand total ab i :
  i ∈ expand total ab ↔ (1 <= i <= total) ∧ (ab.1 <= i <= ab.2).
Proof.
  unfold expand. rewrite list_elem_of_filter, elem_of_for_range. tauto.
Qed.

Lemma expand_single total n :
  expand total (n, n) = if decide (1 <= n ∧ n <= total) then [n] else [].
Proof.
  unfold expand, for_range. cbn [fst snd].
  replace (Z.to_nat (n - n + 1)) with 1%nat by lia. cbn [seq fmap list_fmap].
  replace (n + Z.of_nat 0) with n by lia.
  rewrite filter_cons, filter_nil. reflexivity.
Qed.

(** A loop that parses each element and appends what it stands for. *)
Lemma for_of_collect {A X B} (f : A → option X) (g : X → list B)
    (body : A → list B → Result (list B)) :
  (∀ a s, match f a with
          | Some x => body a s = Ok (s ++ g x)
          | None => ∃ e, body a s = Throw e
          end) →
  ∀ l s, match mapM f l with
         | Some xs => for_of l body s = Ok (s ++ (xs ≫= g))
         | None => ∃ e, for_of l body s = Throw e
         end.
Proof.
  intros Hbody. induction l as [|a l IH]; intros s.
  - cbn. rewrite app_nil_r. reflexivity.
  - cbn [for_of]. specialize (Hbody a s).
    change (mapM f (a :: l)) with (y ← f a; k ← mapM f l; mret (y :: k)).
    destruct (f a) as [x|]; cbn.
    + rewrite Hbody. cbn. specialize (IH (s ++ g x)).
      destruct (mapM f l) as [xs|]; cbn.
      * rewrite IH, <- app_assoc. reflexivity.
      * exact IH.
    + destruct Hbody as [e ->]. exists e. reflexivity.
Qed.

(** [validatePageRange] parses the items, keeps the numbers within
    [1..totalPages], removes the repetitions and sorts. *)
Lemma validatePageRange_eq range totalPages :
  match mapM part_bounds (split "," range) with
  | Some items =>
      validatePageRange range totalPages
      = Ok (merge_sort Z.le
              (new_Set (items ≫= expand totalPages)))
  | None => ∃ e, validatePageRange range totalPages = Throw e
  end.
Proof.
  unfold validatePageRange.
  match goal with
  | |- context [for_of ?l ?body []] =>
      pose proof (for_of_collect part_bounds (expand totalPages) body) as H
  end.
  match type of H with
  | ?P → _ => assert P as Hbody; [|specialize (H Hbody (split "," range) [])]
  end.
  { intros part s. unfold part_bounds.
    destruct (includes "-" (trim part)).
    - destruct (((fun s => parseInt_Z (trim s)) <$> split "-" (trim part))
                  !! 0%nat) as [[a|]|];
        [|eexists; reflexivity|eexists; reflexivity].
      destruct (((fun s => parseInt_Z (trim s)) <$> split "-" (trim part))
                  !! 1%nat) as [[b|]|];
        [reflexivity|eexists; reflexivity|eexists; reflexivity].
    - destruct (parseInt_Z (trim part)) as [n|]; cbn;
        [|eexists; reflexivity].
      rewrite expand_single. destruct (decide (1 <= n ∧ n <= totalPages));
        [reflexivity|rewrite app_nil_r; reflexivity]. }
  destruct (mapM part_bounds (split "," range)) as [items|].
  - rewrite H. reflexivity.
  - destruct H as [e ->]. exists e. reflexivity.
Qed.

Lemma validatePageRange_spec range totalPages l :
  validatePageRange range totalPages = Ok l →
  StronglySorted Z.lt l
  ∧ ∀ i, i ∈ l ↔ (1 <= i <= totalPages) ∧ names range i.
Proof.
  pose proof (validatePageRange_eq range totalPages) as H.
  destruct (mapM part_bounds (split "," range)) as [items|] eqn:Hitems;
    [|destruct H as [e ->]; discriminate].
  rewrite H. intros [= <-].
  apply mapM_Some_1 in Hitems.
  split.
  - apply strictly_sorted.
    + apply (StronglySorted_merge_sort Z.le).
    + rewrite merge_sort_Permutation. apply new_Set_NoDup.
  - intros i. rewrite merge_sort_Permutation, elem_of_new_Set.
    rewrite list_elem_of_bind. split.
    + intros (ab & Hi & Hab).
      apply elem_of_expand in Hi as [Hr Hi]. split; [exact Hr|].
      apply list_elem_of_lookup in Hab as [k Hk].
      destruct (Forall2_lookup_r _ _ _ _ _ Hitems Hk) as (part & Hpart & Hpb).
      destruct ab as [a b]. exists part, a, b.
      split; [eapply list_elem_of_lookup_2; exact Hpart|]. split; assumption.
    + intros (Hr & part & a & b & Hpart & Hpb & Hi).
      apply list_elem_of_lookup in Hpart as [k Hk].
      destruct (Forall2_lookup_l _ _ _ _ _ Hitems Hk) as (ab & Hab & Hpb').
      rewrite Hpb in Hpb'. injection Hpb' as <-.
      exists (a, b). split.
      * apply elem_of_expand. done.
      * eapply list_elem_of_lookup_2; exact Hab.
Qed.

(** Whether a page selection is accepted depends on its syntax alone. *)
Lemma validatePageRange_accepts range totalPages :
  is_ok (validatePageRange range totalPages)
  ↔ Forall (fun part => is_Some (part_bounds part)) (split "," range).
Proof.
  pose proof (validatePageRange_eq range totalPages) as H.
  rewrite <- (mapM_is_Some part_bounds).
  destruct (mapM part_bounds (split "," range)) as [items|].
  - rewrite H. split; [eauto|]. intros _. eexists; reflexivity.
  - destruct H as [e ->]. split.
    + intros [a Ha]. discriminate.
    + intros [a Ha]. discriminate.
Qed.

Lemma split_head c s : ∃ p ps, split c s = p :: ps.
Proof.
  destruct s as [|d r]; cbn [split]; [eauto|].
  destruct (Ascii.eqb c d); [eauto|]. destruct (split c r); eauto.
Qed.

Lemma elem_of_panel_at page i id :
  id ∈ panel_at page i
  ↔ ∃ panel, nth_Z (panels (layout page)) (i - 1) = Some panel
             ∧ panel_id panel = id.
Proof.
  unfold panel_at. destruct (nth_Z _ _) as [panel|].
  - rewrite list_elem_of_singleton. split.
    + intros ->. eauto.
    + intros (p & [= <-] & <-). reflexivity.
  - split; [intros H; inversion H|intros (p & Hp & _); discriminate].
Qed.

(** [validatePanelRange] finds the page, parses the items, collects the
    panels of the page they stand for, and removes the repetitions. *)
Lemma validatePanelRange_eq range pages :
  let parts := split ":" range in
  let pageId := default "" (parts !! 0%nat) in
  match parts !! 1%nat with
  | None | Some "" => ∃ e, validatePanelRange range pages = Throw e
  | Some panelRange =>
      match find_page pageId pages with
      | None =>
          validatePanelRange range pages
          = Throw (Error ("Page not found: " +:+ pageId))
      | Some page =>
          match mapM part_bounds (split "," panelRange) with
          | Some items =>
              validatePanelRange range pages
              = Ok (new_Set (items ≫= expand_panels page))
          | None => ∃ e, validatePanelRange range pages = Throw e
          end
      end
  end.
Proof.
  intros parts pageId. unfold validatePanelRange. fold parts. fold pageId.
  destruct (parts !! 1%nat) as [[|c r]|]; try (eexists; reflexivity).
  destruct (find_page pageId pages) as [page|]; [|reflexivity].
  match goal with
  | |- context [for_of ?l ?body []] =>
      pose proof (for_of_collect part_bounds (expand_panels page) body) as H
  end.
  match type of H with
  | ?P → _ =>
      assert P as Hbody;
      [|specialize (H Hbody (split "," (String c r)) [])]
  end.
  { intros part s. unfold part_bounds.
    destruct (includes "-" (trim part)).
    - destruct (((fun s => parseInt_Z (trim s)) <$> split "-" (trim part))
                  !! 0%nat) as [[a|]|];
        [|eexists; reflexivity|eexists; reflexivity].
      destruct (((fun s => parseInt_Z (trim s)) <$> split "-" (trim part))
                  !! 1%nat) as [[b|]|];
        [reflexivity|eexists; reflexivity|eexists; reflexivity].
    - destruct (parseInt_Z (trim part)) as [n|]; cbn;
        [|eexists; reflexivity].
      unfold expand_panels. rewrite expand_single.
      destruct (decide (1 <= n ∧ n <= _)); cbn;
        [rewrite app_nil_r; reflexivity|rewrite app_nil_r; reflexivity]. }
  destruct (mapM part_bounds (split "," (String c r))) as [items|].
  - rewrite H. reflexivity.
  - destruct H as [e ->]. exists e. reflexivity.
Qed.

Lemma find_page_Some pageId pages page :
  find_page pageId pages = Some page → page ∈ pages ∧ page_id page = pageId.
Proof.
  unfold find_page. intros H. apply find_some in H as [Hin Heq].
  split; [apply list_elem_of_In; exact Hin|].
  apply String.eqb_eq. exact Heq.
Qed.

Lemma validatePanelRange_spec range pages ids :
  validatePanelRange range pages = Ok ids →
  ∃ pageId panelRange page,
    split ":" range !! 0%nat = Some pageId
    ∧ split ":" range !! 1%nat = Some panelRange
    ∧ find_page pageId pages = Some page
    ∧ NoDup ids
    ∧ ∀ id, id ∈ ids ↔
        ∃ i panel, names panelRange i
                   ∧ 1 <= i <= Z.of_nat (length (panels (layout page)))
                   ∧ panels (layout page) !! Z.to_nat (i - 1) = Some panel
                   ∧ panel_id panel = id.
Proof.
  intros Hok. pose proof (validatePanelRange_eq range pages) as H.
  cbn zeta in H.
  assert (∃ pageId, split ":" range !! 0%nat = Some pageId) as [pageId HpageId].
  { destruct (split_head ":" range) as (p & ps & ->). eauto. }
  rewrite HpageId in H. change (default "" (Some pageId)) with pageId in H.
  destruct (split ":" range !! 1%nat) as [panelRange|] eqn:Hpr;
    [|destruct H as [e He]; congruence].
  destruct panelRange as [|c r]; [destruct H as [e He]; congruence|].
  destruct (find_page pageId pages) as [page|] eqn:Hpage; [|congruence].
  destruct (mapM part_bounds (split "," (String c r))) as [items|] eqn:Hitems;
    [|destruct H as [e He]; congruence].
  rewrite H in Hok. injection Hok as <-.
  exists pageId, (String c r), page.
  split; [exact HpageId|]. split; [reflexivity|]. split; [exact Hpage|].
  split; [apply new_Set_NoDup|].
  apply mapM_Some_1 in Hitems.
  intros id. rewrite elem_of_new_Set, list_elem_of_bind.
  unfold expand_panels. split.
  - intros (ab & Hid & Hab).
    apply list_elem_of_bind in Hid as (i & Hid & Hi).
    apply elem_of_expand in Hi as [Hr Hi].
    apply elem_of_panel_at in Hid as (panel & Hpanel & <-).
    unfold nth_Z in Hpanel. destruct (decide (0 <= i - 1)); [|done].
    exists i, panel. split; [|done].
    apply list_elem_of_lookup in Hab as [k Hk].
    destruct (Forall2_lookup_r _ _ _ _ _ Hitems Hk) as (part & Hpart & Hpb).
    destruct ab as [a b]. exists part, a, b.
    split; [eapply list_elem_of_lookup_2; exact Hpart|]. done.
  - intros (i & panel & (part & a & b & Hpart & Hpb & Hi) & Hr & Hpanel & <-).
    apply list_elem_of_lookup in Hpart as [k Hk].
    destruct (Forall2_lookup_l _ _ _ _ _ Hitems Hk) as (ab & Hab & Hpb').
    rewrite Hpb in Hpb'. injection Hpb' as <-.
    exists (a, b). split; [|eapply list_elem_of_lookup_2; exact Hab].
    apply list_elem_of_bind. exists i. split.
    + apply elem_of_panel_at. exists panel. split; [|done].
      unfold nth_Z. rewrite decide_True by lia. exact Hpanel.
    + apply elem_of_expand. done.
Qed.

End ValidationProps.

(** ** The enumeration of jobs *)

Module EnumerationProps.
Import JS Validation Pipeline ValidationProps.

Lemma collectPanels_unfold config pgs sel :
  collectPanels config pgs sel
  = pgs ≫= fun pageIndex =>
      match nth_Z (pages config) (pageIndex - 1) with
      | None => []
      | Some pg => page_jobs pageIndex pg sel
      end.
Proof. reflexivity. Qed.

Lemma elem_of_page_jobs pageIndex pg sel job :
  job ∈ page_jobs pageIndex pg sel
  ↔ ∃ k p, panels (layout pg) !! k = Some p
           ∧ selected sel p
           ∧ job = {| page := pg; panel := p; pageIndex := pageIndex;
                      panelIndex := Z.of_nat k |}.
Proof.
  unfold page_jobs. rewrite list_elem_of_bind. split.
  - intros ([k p] & Hjob & Hkp).
    apply elem_of_lookup_imap_1 in Hkp as (k' & p' & [= -> ->] & Hp).
    exists k', p'. split; [exact Hp|].
    destruct sel as [ids|]; cbn.
    + destruct (decide (panel_id p' ∈ ids)); [|inversion Hjob].
      apply list_elem_of_singleton in Hjob. done.
    + apply list_elem_of_singleton in Hjob. done.
  - intros (k & p & Hp & Hsel & ->). exists (k, p). split.
    + destruct sel as [ids|]; cbn in *.
      * rewrite decide_True by exact Hsel. apply list_elem_of_singleton. done.
      * apply list_elem_of_singleton. done.
    + apply (elem_of_lookup_imap_2 (fun i p => (i, p))). exact Hp.
Qed.

(** The enumerated jobs are exactly the selected panels of the selected
    pages that exist. *)
Lemma elem_of_collectPanels config pgs sel job :
  job ∈ collectPanels config pgs sel
  ↔ pageIndex job ∈ pgs
    ∧ nth_Z (pages config) (pageIndex job - 1) = Some (page job)
    ∧ (∃ k, panelIndex job = Z.of_nat k
            ∧ panels (layout (page job)) !! k = Some (panel job))
    ∧ selected sel (panel job).
Proof.
  rewrite collectPanels_unfold, list_elem_of_bind. split.
  - intros (i & Hjob & Hi).
    destruct (nth_Z (pages config) (i - 1)) as [pg|] eqn:Hpg;
      [|inversion Hjob].
    apply elem_of_page_jobs in Hjob as (k & p & Hp & Hsel & ->). cbn.
    split; [exact Hi|]. split; [exact Hpg|]. split; [eauto|exact Hsel].
  - intros (Hi & Hpg & (k & Hk & Hp) & Hsel).
    exists (pageIndex job). split; [|exact Hi]. rewrite Hpg.
    apply elem_of_page_jobs. exists k, (panel job).
    split; [exact Hp|]. split; [exact Hsel|].
    destruct job; cbn in *. congruence.
Qed.

Lemma StronglySorted_bind {A B} (RA : relation A) (RB : relation B)
    (f : A → list B) (l : list A) :
  StronglySorted RA l →
  (∀ a, a ∈ l → StronglySorted RB (f a)) →
  (∀ a a' x y, RA a a' → x ∈ f a → y ∈ f a' → RB x y) →
  StronglySorted RB (l ≫= f).
Proof.
  intros Hl Hf Hcross. induction Hl as [|a l Hl IH Ha]; [constructor|].
  change ((a :: l) ≫= f) with (f a ++ (l ≫= f)).
  apply StronglySorted_app_2.
  - intros x y Hx Hy. apply list_elem_of_bind in Hy as (a' & Hy & Ha').
    rewrite Forall_forall in Ha. eapply Hcross; eauto.
  - apply Hf. left.
  - apply IH. intros a' Ha'. apply Hf. right. exact Ha'.
Qed.

Lemma imap_pairs_sorted {A} (l : list A) (k : nat) :
  StronglySorted (fun a b : nat * A => (a.1 < b.1)%nat)
                 (imap (fun i p => (k + i, p)%nat) l).
Proof.
  revert k. induction l as [|a l IH]; intros k; [constructor|].
  rewrite imap_cons. constructor.
  - erewrite imap_ext; [apply (IH (S k))|]. intros i x _. cbn. f_equal. lia.
  - apply Forall_forall. intros [i x] Hin.
    apply elem_of_lookup_imap_1 in Hin as (j & y & [= -> ->] & _). cbn. lia.
Qed.

Lemma page_jobs_sorted idx pg sel :
  StronglySorted job_lt (page_jobs idx pg sel).
Proof.
  unfold page_jobs.
  eapply (StronglySorted_bind (fun a b : nat * PanelConfig => (a.1 < b.1)%nat)).
  - apply (imap_pairs_sorted _ 0).
  - intros [k p] _. destruct sel as [ids|];
      [destruct (decide (panel_id p ∈ ids))|];
      repeat constructor.
  - intros [k p] [k' p'] x y Hlt Hx Hy. cbn in Hlt.
    assert (pageIndex x = idx ∧ panelIndex x = Z.of_nat k) as [Hx1 Hx2].
    { destruct sel as [ids|]; [destruct (decide (panel_id p ∈ ids))|];
        try (inversion Hx; fail);
        apply list_elem_of_singleton in Hx; subst x; done. }
    assert (pageIndex y = idx ∧ panelIndex y = Z.of_nat k') as [Hy1 Hy2].
    { destruct sel as [ids|]; [destruct (decide (panel_id p' ∈ ids))|];
        try (inversion Hy; fail);
        apply list_elem_of_singleton in Hy; subst y; done. }
    right. split; [congruence|lia].
Qed.

(** Pages in ascending order give jobs in ascending order. *)
Lemma collectPanels_sorted config pgs sel :
  StronglySorted Z.lt pgs →
  StronglySorted job_lt (collectPanels config pgs sel).
Proof.
  intros Hpgs. rewrite collectPanels_unfold.
  eapply StronglySorted_bind; [exact Hpgs| |].
  - intros i _. destruct (nth_Z (pages config) (i - 1));
      [apply page_jobs_sorted|constructor].
  - intros i i' x y Hlt Hx Hy.
    destruct (nth_Z (pages config) (i - 1)); [|inversion Hx].
    destruct (nth_Z (pages config) (i' - 1)); [|inversion Hy].
    apply elem_of_page_jobs in Hx as (? & ? & _ & _ & ->).
    apply elem_of_page_jobs in Hy as (? & ? & _ & _ & ->).
    left. exact Hlt.
Qed.

Lemma allPages_sorted config : StronglySorted Z.lt (allPages config).
Proof.
  unfold allPages.
  rewrite (imap_seq_0 (pages config) (fun i => Z.of_nat i + 1)).
  generalize (length (pages config)), 0%nat.
  intros n. induction n as [|n IH]; intros k; [constructor|].
  cbn. constructor; [apply IH|].
  apply Forall_forall. intros z Hz.
  apply list_elem_of_fmap in Hz as (j & -> & Hj).
  apply elem_of_seq in Hj. lia.
Qed.

End EnumerationProps.

(** ** Selections that name what the project does not have *)

Module SelectionProps.
Import JS Validation Pipeline ValidationProps EnumerationProps.

Lemma validatePanelRange_accepts range pages pageId panelRange page :
  split ":" range !! 0%nat = Some pageId →
  split ":" range !! 1%nat = Some panelRange →
  panelRange ≠ "" →
  find_page pageId pages = Some page →
  is_ok (validatePanelRange range pages)
  ↔ Forall (fun part => is_Some (part_bounds part)) (split "," panelRange).
Proof.
  intros H0 H1 Hne Hpage.
  pose proof (validatePanelRange_eq range pages) as H. cbn zeta in H.
  rewrite H0, H1 in H. change (default "" (Some pageId)) with pageId in H.
  destruct panelRange as [|c r]; [done|]. rewrite Hpage in H.
  rewrite <- (mapM_is_Some part_bounds).
  destruct (mapM part_bounds (split "," (String c r))) as [items|].
  - rewrite H. split; [eauto|]. intros _. eexists; reflexivity.
  - destruct H as [e ->]. split; intros [a Ha]; discriminate.
Qed.

Lemma validatePanelRange_page_not_found range pages pageId panelRange :
  split ":" range !! 0%nat = Some pageId →
  split ":" range !! 1%nat = Some panelRange →
  panelRange ≠ "" →
  find_page pageId pages = None →
  validatePanelRange range pages
  = Throw (Error ("Page not found: " +:+ pageId)).
Proof.
  intros H0 H1 Hne Hpage.
  pose proof (validatePanelRange_eq range pages) as H. cbn zeta in H.
  rewrite H0, H1 in H. change (default "" (Some pageId)) with pageId in H.
  destruct panelRange as [|c r]; [done|]. rewrite Hpage in H. exact H.
Qed.







End SelectionProps.

(** ** The page size *)

Module PageSizeProps.
Import JS Layout Controller Pipeline ValidationProps.

Lemma Qle_bool_inject_Z a b : Qle_bool (inject_Z a) (inject_Z b) = (a <=? b)%Z.
Proof. unfold Qle_bool. cbn. rewrite !Z.mul_1_r. reflexivity. Qed.

Lemma leb_of_Z a b : leb (of_Z a) (of_Z b) = (a <=? b)%Z.
Proof. apply Qle_bool_inject_Z. Qed.

Lemma parseInt_Some s n : parseInt_Z s = Some n → parseInt s = of_Z n.
Proof. unfold parseInt. intros ->. reflexivity. Qed.

Lemma parseInt_None s : parseInt_Z s = None → parseInt s = NaN.
Proof. unfold parseInt. intros ->. reflexivity. Qed.

Lemma positive_component_Some s n :
  parseInt_Z s = Some n → positive_component (Some s) ↔ 0 < n.
Proof.
  intros Hn. unfold positive_component. cbn. rewrite Hn. split.
  - intros (m & [= <-] & Hm). exact Hm.
  - intros Hpos. eauto.
Qed.

Lemma positive_component_None s :
  parseInt_Z s = None → ¬ positive_component (Some s).
Proof.
  intros Hn (m & Hm & _). cbn in Hm. congruence.
Qed.

Lemma positive_component_missing : ¬ positive_component None.
Proof. intros (m & Hm & _). discriminate. Qed.

Lemma calculatePageSize_cases config :
  explicit_size (pageSettings config) = None →
  let ratio := ps_aspectRatio (pageSettings config) in
  let usable :=
    positive_component (split ":" ratio !! 0%nat)
    ∧ positive_component (split ":" ratio !! 1%nat) in
  (usable ∧ is_ok (calculatePageSize config))
  ∨ (¬ usable
     ∧ calculatePageSize config
       = Throw (Error ("Invalid aspect ratio: " +:+ ratio))).
Proof.
  intros Hdims ratio usable. unfold usable.
  unfold calculatePageSize. rewrite Hdims. fold ratio.
  rewrite !list_lookup_fmap.
  destruct (split ":" ratio !! 0%nat) as [s0|];
    [|right; split; [intros [H _]; exact (positive_component_missing H)
                    |reflexivity]].
  destruct (split ":" ratio !! 1%nat) as [s1|];
    [|right; split; [intros [_ H]; exact (positive_component_missing H)
                    |reflexivity]].
  cbn [fmap option_fmap option_map].
  destruct (parseInt_Z s0) as [w|] eqn:Hw;
    [rewrite (parseInt_Some _ _ Hw)
    |rewrite (parseInt_None _ Hw); right;
     split; [intros [H _]; exact (positive_component_None _ Hw H)
            |reflexivity]].
  destruct (parseInt_Z s1) as [h|] eqn:Hh;
    [rewrite (parseInt_Some _ _ Hh)
    |rewrite (parseInt_None _ Hh); right;
     split; [intros [_ H]; exact (positive_component_None _ Hh H)
            |reflexivity]].
  rewrite !leb_of_Z. cbn [isNaN of_Z orb].
  rewrite (positive_component_Some _ _ Hw), (positive_component_Some _ _ Hh).
  destruct (Z.leb_spec w 0); [right; split; [lia|reflexivity]|].
  destruct (Z.leb_spec h 0); [right; split; [lia|reflexivity]|].
  left. split; [lia|].
  destruct (geb (of_Z w) (of_Z h)); eexists; reflexivity.
Qed.

Lemma forM_ok {A} (body : A → M unit) (l : list A) :
  (∀ a σ, ∃ σ', body a σ = (Ok tt, σ')) →
  ∀ σ, ∃ σ', forM l body σ = (Ok tt, σ').
Proof.
  intros Hbody. induction l as [|a l IH]; intros σ; [exists σ; reflexivity|].
  destruct (Hbody a σ) as [σ1 H1]. destruct (IH σ1) as [σ2 H2].
  exists σ2. cbn [forM]. rewrite (bind_ok _ _ _ _ _ H1). exact H2.
Qed.

Section Collaborators.
Variable path_join : list string → string.
Variable render :
  PageConfig → PageSize → list (string * PanelBounds) → World →
  option JS.error.

(** The composition of pages never throws: what goes wrong with a page
    becomes a warning. *)
Lemma compositePages_returns config outputDir pageIndices σ :
  ∃ σ', compositePages path_join render config outputDir pageIndices σ
        = (Ok tt, σ').
Proof.
  unfold compositePages. apply forM_ok. clear σ. intros pageIndex σ.
  destruct (nth_Z (pages config) (pageIndex - 1)) as [pg|];
    [|exists σ; reflexivity].
  unfold try_catch.
  destruct ((compositeSinglePage path_join render pg config _ _;;
             tell (EvComposed (page_id pg))) σ) as [[[]|e] σ1];
    eexists; reflexivity.
Qed.

Lemma compositeSinglePage_invalid config pg panelsDir pagesDir σ e :
  calculatePageSize config = Throw e →
  compositeSinglePage path_join render pg config panelsDir pagesDir σ
  = (Throw e, σ).
Proof.
  intros H. unfold compositeSinglePage.
  apply bind_throw. unfold lift. rewrite H. reflexivity.
Qed.


End Collaborators.



End PageSizeProps.

(** ** The aspect ratio of a panel *)

Module NumberProps.
Import JS.

Lemma Qred_inject_Z z : Qred (inject_Z z) = inject_Z z.
Proof.
  unfold Qred, inject_Z.
  pose proof (Z.ggcd_gcd z 1) as Hg.
  pose proof (Z.ggcd_correct_divisors z 1) as Hd.
  destruct (Z.ggcd z 1) as [g [n d]]. cbn in Hg, Hd.
  rewrite Z.gcd_1_r in Hg. subst g. destruct Hd as [Hn Hd].
  replace n with z by lia. replace d with 1 by lia. reflexivity.
Qed.

Lemma Fin_Qred q z : (q == inject_Z z)%Q → Fin (Qred q) = of_Z z.
Proof.
  intros H. unfold of_Z. rewrite (Qred_complete _ _ H), Qred_inject_Z.
  reflexivity.
Qed.

Lemma eqb_of_Z a b : eqb (of_Z a) (of_Z b) = (a =? b)%Z.
Proof.
  unfold eqb, of_Z. destruct (Z.eqb_spec a b) as [->|Hne].
  - apply Qeq_bool_iff. reflexivity.
  - apply not_true_is_false. intros H. apply Qeq_bool_iff in H.
    unfold Qeq in H. cbn in H. lia.
Qed.

Lemma Qtrunc_div a b : 0 < b → Qtrunc (inject_Z a / inject_Z b) = a ÷ b.
Proof.
  intros Hb. destruct b as [|p|p]; try lia.
  unfold Qtrunc, Qdiv, Qmult, Qinv, inject_Z. cbn.
  rewrite Z.mul_1_r. reflexivity.
Qed.

(** The truncation of a fraction does not depend on how it is written. *)
Lemma Qtrunc_eq q m (D : positive) : (q == m # D)%Q → Qtrunc q = m ÷ Z.pos D.
Proof.
  unfold Qeq, Qtrunc. cbn. intros H.
  rewrite <- (Z.quot_mul_cancel_r (Qnum q) (Z.pos (Qden q)) (Z.pos D)) by lia.
  rewrite H, (Z.mul_comm (Z.pos (Qden q)) (Z.pos D)).
  apply Z.quot_mul_cancel_r; lia.
Qed.

Lemma Qtrunc_quot a b m n (D : positive) :
  (a == m # D)%Q → (b == n # D)%Q → n ≠ 0 →
  Qtrunc (a / b) = m ÷ n.
Proof.
  intros Ha Hb Hn.
  assert (a / b == (m * Z.sgn n) # Z.to_pos (Z.abs n))%Q as H.
  { rewrite Ha, Hb. unfold Qdiv, Qmult, Qinv, Qeq.
    destruct n as [|p|p]; [lia| |]; cbn; unfold Z.abs, Z.to_pos; nia. }
  rewrite (Qtrunc_eq _ _ _ H).
  destruct n as [|p|p]; [lia| |]; cbn [Z.sgn Z.abs Z.to_pos].
  - rewrite Z.mul_1_r. reflexivity.
  - replace (m * -1) with (- m) by lia.
    rewrite <- (Z.quot_opp_opp m (Z.neg p)) by lia. reflexivity.
Qed.

(** On whole numbers [%] is the remainder of the truncated division. *)
Lemma rem_of_Z a b : 0 < b → rem (of_Z a) (of_Z b) = of_Z (Z.rem a b).
Proof.
  intros Hb. unfold rem, of_Z at 1 2.
  replace (Qis_zero (inject_Z b)) with false
    by (unfold Qis_zero; cbn; symmetry; apply Z.eqb_neq; lia).
  apply Fin_Qred. rewrite (Qtrunc_div a b Hb).
  rewrite (Z.rem_eq a b) by lia.
  unfold Z.sub, Qminus.
  rewrite inject_Z_plus, inject_Z_opp, inject_Z_mult. reflexivity.
Qed.

(** The division of a whole number by a divisor of it is exact. *)
Lemma div_of_Z a g : 0 < g → (g | a) → div (of_Z a) (of_Z g) = of_Z (a / g).
Proof.
  intros Hg [k ->]. unfold div, of_Z at 1 2.
  replace (Qis_zero (inject_Z g)) with false
    by (unfold Qis_zero; cbn; symmetry; apply Z.eqb_neq; lia).
  apply Fin_Qred. rewrite Z.div_mul by lia.
  rewrite inject_Z_mult. apply Qdiv_mult_l.
  intros H. unfold Qeq in H. cbn in H. lia.
Qed.

Lemma round_of_Z n : round (of_Z n) = of_Z n.
Proof.
  unfold round, of_Z at 1. f_equal.
  unfold Qfloor, Qplus, inject_Z. cbn.
  change (Z.pos (1 * 2)) with 2.
  replace (n * 2 + 1 * 1) with (1 + n * 2) by lia.
  rewrite Z.div_add by lia. reflexivity.
Qed.

Lemma toString_of_Z n : toString (of_Z n) = pretty n.
Proof.
  unfold toString, of_Z, is_integer.
  assert (Qfloor (inject_Z n) = n) as ->.
  { unfold Qfloor, inject_Z. apply Z.div_1_r. }
  rewrite (proj2 (Qeq_bool_iff _ _)) by reflexivity. reflexivity.
Qed.

End NumberProps.

Module AspectRatioProps.
Import JS Layout Adapter Controller NumberProps AdapterProps.

(** On whole numbers the local [gcd] is Euclid's algorithm, and it ends
    within the depth allowed. *)
Lemma gcd_of_Z (depth : nat) :
  ∀ a b, 0 <= a → 0 <= b → (Z.to_nat b < depth)%nat →
    gcd depth (of_Z a) (of_Z b) = Ok (of_Z (Z.gcd a b)).
Proof.
  induction depth as [|d IH]; intros a b Ha Hb Hd; [lia|].
  cbn [gcd]. rewrite eqb_of_Z.
  destruct (Z.eqb_spec b 0) as [->|Hne].
  - rewrite Z.gcd_0_r, Z.abs_eq by lia. reflexivity.
  - assert (0 < b) as Hpos by lia.
    rewrite (rem_of_Z a b Hpos).
    pose proof (Z.rem_bound_pos a b Ha Hpos) as Hr.
    rewrite IH by lia.
    rewrite Z.rem_mod_nonneg by lia.
    rewrite Z.gcd_mod_r. rewrite Z.gcd_comm. reflexivity.
Qed.

(** On finite numbers the recursion ends: written over a common
    denominator [D], the second argument decreases in absolute value. *)
Lemma gcd_common_denominator (depth : nat) (D : positive) :
  ∀ a b m n, (a == m # D)%Q → (b == n # D)%Q →
    (Z.to_nat (Z.abs n) < depth)%nat →
    ∃ g, gcd depth (Fin a) (Fin b) = Ok (Fin g).
Proof.
  induction depth as [|d IH]; intros a b m n Ha Hb Hd; [lia|].
  cbn [gcd]. unfold eqb, of_Z.
  destruct (Qeq_bool b (inject_Z 0)) eqn:Hz; [eexists; reflexivity|].
  apply Qeq_bool_neq in Hz.
  assert (n ≠ 0) as Hn.
  { intros ->. apply Hz. rewrite Hb. reflexivity. }
  assert (Qis_zero b = false) as Hb0.
  { unfold Qis_zero. apply Z.eqb_neq. intros H0. apply Hz.
    unfold Qeq. cbn. lia. }
  unfold rem. rewrite Hb0.
  apply (IH _ _ n (Z.rem m n)); [exact Hb| |].
  - rewrite Qred_correct, (Qtrunc_quot a b m n D Ha Hb Hn), Ha, Hb.
    rewrite (Z.rem_eq m n) by exact Hn.
    unfold Qeq, Qminus, Qplus, Qopp, Qmult, inject_Z. cbn. nia.
  - pose proof (Z.rem_bound_abs m n Hn). lia.
Qed.

Lemma gcd_finite x y :
  ∃ g, gcd (gcd_depth (Fin x) (Fin y)) (Fin x) (Fin y) = Ok (Fin g).
Proof.
  apply (gcd_common_denominator _ (Qden x * Qden y) x y
           (Qnum x * Z.pos (Qden y)) (Qnum y * Z.pos (Qden x))).
  - unfold Qeq. cbn. lia.
  - unfold Qeq. cbn. lia.
  - unfold gcd_depth. rewrite Z.abs_mul. lia.
Qed.

(** Bounds that are finite numbers always get a ratio. *)
Lemma calculatePanelAspectRatio_finite x y :
  is_ok (calculatePanelAspectRatio (Fin x) (Fin y)).
Proof.
  unfold calculatePanelAspectRatio.
  destruct (gcd_finite x y) as [g ->]. eexists. reflexivity.
Qed.

(** The ratio of positive whole bounds is reduced to lowest terms. *)
Lemma calculatePanelAspectRatio_reduced W H :
  0 < W → 0 < H →
  calculatePanelAspectRatio (of_Z W) (of_Z H)
  = Ok (pretty (W / Z.gcd W H) +:+ ":" +:+ pretty (H / Z.gcd W H))
  ∧ Z.gcd (W / Z.gcd W H) (H / Z.gcd W H) = 1.
Proof.
  intros HW HH.
  assert (0 < Z.gcd W H) as Hg.
  { pose proof (Z.gcd_nonneg W H) as Hnn.
    assert (Z.gcd W H ≠ 0) as Hne; [|lia].
    intros Hz. apply Z.gcd_eq_0_l in Hz. lia. }
  split; [|apply Z.gcd_div_gcd; [lia|reflexivity]].
  unfold calculatePanelAspectRatio.
  rewrite gcd_of_Z; [|lia|lia|unfold gcd_depth, of_Z; cbn; lia].
  cbn [mbind Result_bind].
  rewrite (div_of_Z W _ Hg (Z.gcd_divide_l W H)).
  rewrite (div_of_Z H _ Hg (Z.gcd_divide_r W H)).
  rewrite !round_of_Z, !toString_of_Z. reflexivity.
Qed.

Lemma panelAspectRatio_override item s :
  aspectRatio (panel item) = Some s → s ≠ "" →
  panelAspectRatio item = Ok s.
Proof.
  intros Hs Hne. unfold panelAspectRatio. rewrite Hs.
  destruct s; [done|reflexivity].
Qed.

Lemma panelAspectRatio_computed item :
  aspectRatio (panel item) = None ∨ aspectRatio (panel item) = Some "" →
  panelAspectRatio item
  = calculatePanelAspectRatio (w (jobBounds item)) (h (jobBounds item)).
Proof. intros [H|H]; unfold panelAspectRatio; rewrite H; reflexivity. Qed.

Section Collaborators.
Variable spawn : ImageGenOptions → World → Z.
Variable path_join : list string → string.
Variable buildPanelPrompt :
  FlexicomicConfig → PageConfig → PanelConfig → string.
Variable getCharacterReferenceImages :
  FlexicomicConfig → PageConfig → PanelConfig → string → World →
  list string.

Local Abbreviation generateSinglePanel :=
  (generateSinglePanel spawn path_join buildPanelPrompt
                       getCharacterReferenceImages).

(** The ratio chosen for a job is the one every provider call of the
    job is made with, and there is at least one call. *)
Lemma generateSinglePanel_ratio item config outputDir provider σ a :
  outputPath path_join outputDir (panel item) ∉ files σ →
  panelAspectRatio item = Ok a →
  ∃ r σ' evs k,
    await (generateSinglePanel item config outputDir provider) σ = (r, σ')
    ∧ log σ' = log σ ++ evs
    ∧ (1 ≤ k ≤ 3)%nat
    ∧ ar <$> spawns evs = replicate k (Some a).
Proof.
  intros Hfile Har.
  set (σ1 := emit (EvPrompt (page_id (page item)) (panel_id (panel item))) σ).
  assert (await (generateSinglePanel item config outputDir provider) σ
          = generateSinglePanel_rest spawn path_join buildPanelPrompt
              getCharacterReferenceImages item config outputDir provider
              a σ1) as ->.
  { unfold await, Controller.generateSinglePanel. rewrite Har.
    unfold mbind at 1, M_bind. rewrite bind_get.
    unfold existsSync. rewrite bool_decide_eq_false_2 by exact Hfile.
    rewrite bind_tell. reflexivity. }
  unfold Controller.generateSinglePanel_rest. rewrite bind_get.
  match goal with
  | |- context [callImageGenWithRetry spawn ?o 2 σ1] =>
      destruct (callImageGenWithRetry_calls spawn o σ1)
        as (r & σ' & evs & k & Hrun & Hlog & Hk & Hks)
  end.
  exists r, σ',
    (EvPrompt (page_id (page item)) (panel_id (panel item)) :: evs), k.
  split; [exact Hrun|].
  split.
  { rewrite Hlog. unfold σ1. cbn. rewrite <- app_assoc. reflexivity. }
  split; [exact Hk|].
  change (spawns (EvPrompt (page_id (page item)) (panel_id (panel item))
                    :: evs)) with (spawns evs).
  rewrite Hks, fmap_replicate. reflexivity.
Qed.


End Collaborators.



End AspectRatioProps.

(** * Further properties *)

(** ** Whole numbers *)

Module WholeNumbers.
Import JS NumberProps.

Lemma add_of_Z a b : add (of_Z a) (of_Z b) = of_Z (a + b).
Proof.
  unfold add, of_Z at 1 2. apply Fin_Qred.
  rewrite inject_Z_plus. reflexivity.
Qed.

Lemma neg_of_Z a : neg (of_Z a) = of_Z (- a).
Proof.
  unfold neg, of_Z at 1. apply Fin_Qred.
  rewrite inject_Z_opp. reflexivity.
Qed.

Lemma sub_of_Z a b : sub (of_Z a) (of_Z b) = of_Z (a - b).
Proof. unfold sub. rewrite neg_of_Z, add_of_Z. reflexivity. Qed.

Lemma mul_of_Z a b : mul (of_Z a) (of_Z b) = of_Z (a * b).
Proof.
  unfold mul, of_Z at 1 2. apply Fin_Qred.
  rewrite inject_Z_mult. reflexivity.
Qed.

(** The size of a cell when it is a whole number. *)
Lemma cell_of_Z W g n :
  0 < n → (n | W - g * (n + 1)) →
  div (sub (of_Z W) (mul (of_Z g) (add (of_Z n) (of_Z 1)))) (of_Z n)
  = of_Z ((W - g * (n + 1)) / n).
Proof.
  intros Hn Hdiv.
  rewrite add_of_Z, mul_of_Z, sub_of_Z. apply div_of_Z; assumption.
Qed.

Lemma cell_exact W g n :
  0 < n → (n | W - g * (n + 1)) →
  W = g * (n + 1) + n * ((W - g * (n + 1)) / n).
Proof.
  intros Hn Hdiv.
  pose proof (Z.div_exact (W - g * (n + 1)) n ltac:(lia)) as [_ Hex].
  rewrite <- Hex; [lia|]. apply Z.mod_divide; [lia|exact Hdiv].
Qed.

End WholeNumbers.

(** ** The cells of a grid *)

Module GridProps.
Import JS Layout Grid GridVocabulary NumberProps WholeNumbers.

(** The edges of a panel on a grid whose cells are a whole number of
    pixels wide and high. *)
Lemma calculatePanelBoundsCustom_x panel grid pageSize W g n c :
  width pageSize = of_Z W → cols grid = of_Z n →
  effective_gutter grid = of_Z g →
  0 < n → (n | W - g * (n + 1)) →
  col (position panel) = of_Z c →
  x (calculatePanelBoundsCustom panel grid pageSize)
  = of_Z (g + c * ((W - g * (n + 1)) / n + g)).
Proof.
  intros HW Hcols Hg Hn Hdiv Hc. unfold effective_gutter in Hg.
  unfold calculatePanelBoundsCustom. cbn [x].
  rewrite HW, Hcols, Hg, Hc, (cell_of_Z W g n Hn Hdiv).
  rewrite !add_of_Z, !mul_of_Z, !add_of_Z. reflexivity.
Qed.

Lemma calculatePanelBoundsCustom_w panel grid pageSize W g n k :
  width pageSize = of_Z W → cols grid = of_Z n →
  effective_gutter grid = of_Z g →
  0 < n → (n | W - g * (n + 1)) →
  effective_colspan panel = of_Z k →
  w (calculatePanelBoundsCustom panel grid pageSize)
  = of_Z (k * ((W - g * (n + 1)) / n) + (k - 1) * g).
Proof.
  intros HW Hcols Hg Hn Hdiv Hk.
  unfold effective_gutter in Hg. unfold effective_colspan in Hk.
  unfold calculatePanelBoundsCustom. cbn [w].
  rewrite HW, Hcols, Hg, Hk, (cell_of_Z W g n Hn Hdiv).
  rewrite !sub_of_Z, !mul_of_Z, !add_of_Z. reflexivity.
Qed.

Lemma calculatePanelBoundsCustom_y panel grid pageSize H g m r :
  height pageSize = of_Z H → rows grid = of_Z m →
  effective_gutter grid = of_Z g →
  0 < m → (m | H - g * (m + 1)) →
  row (position panel) = of_Z r →
  y (calculatePanelBoundsCustom panel grid pageSize)
  = of_Z (g + r * ((H - g * (m + 1)) / m + g)).
Proof.
  intros HH Hrows Hg Hm Hdiv Hr. unfold effective_gutter in Hg.
  unfold calculatePanelBoundsCustom. cbn [y].
  rewrite HH, Hrows, Hg, Hr, (cell_of_Z H g m Hm Hdiv).
  rewrite !add_of_Z, !mul_of_Z, !add_of_Z. reflexivity.
Qed.

Lemma calculatePanelBoundsCustom_h panel grid pageSize H g m l :
  height pageSize = of_Z H → rows grid = of_Z m →
  effective_gutter grid = of_Z g →
  0 < m → (m | H - g * (m + 1)) →
  effective_rowspan panel = of_Z l →
  h (calculatePanelBoundsCustom panel grid pageSize)
  = of_Z (l * ((H - g * (m + 1)) / m) + (l - 1) * g).
Proof.
  intros HH Hrows Hg Hm Hdiv Hl.
  unfold effective_gutter in Hg. unfold effective_rowspan in Hl.
  unfold calculatePanelBoundsCustom. cbn [h].
  rewrite HH, Hrows, Hg, Hl, (cell_of_Z H g m Hm Hdiv).
  rewrite !sub_of_Z, !mul_of_Z, !add_of_Z. reflexivity.
Qed.

(** X1: on a grid whose cells are a whole number of pixels wide and high,
    the bounds of [calculatePanelBoundsCustom] tile the page: a panel
    ends exactly one gutter before the panel that starts in the next free
    column (or row), whatever its span; the first column (row) starts one
    gutter from the page edge and the last one ends one gutter before the
    opposite edge. *)
Theorem neighbours_one_gutter_apart
    panel right below grid pageSize W H g n m c r k l :
  width pageSize = of_Z W → height pageSize = of_Z H →
  cols grid = of_Z n → rows grid = of_Z m →
  effective_gutter grid = of_Z g →
  0 < n → 0 < m →
  (n | W - g * (n + 1)) → (m | H - g * (m + 1)) →
  col (position panel) = of_Z c → row (position panel) = of_Z r →
  effective_colspan panel = of_Z k → effective_rowspan panel = of_Z l →
  col (position right) = of_Z (c + k) →
  row (position below) = of_Z (r + l) →
  let b := calculatePanelBoundsCustom panel grid pageSize in
  add (add (x b) (w b)) (of_Z g)
  = x (calculatePanelBoundsCustom right grid pageSize)
  ∧ add (add (y b) (h b)) (of_Z g)
    = y (calculatePanelBoundsCustom below grid pageSize)
  ∧ (c = 0 → x b = of_Z g)
  ∧ (r = 0 → y b = of_Z g)
  ∧ (c + k = n → add (x b) (w b) = of_Z (W - g))
  ∧ (r + l = m → add (y b) (h b) = of_Z (H - g)).
Proof.
  intros HW HH Hcols Hrows Hg Hn Hm Hdn Hdm Hc Hr Hk Hl Hright Hbelow b.
  unfold b.
  rewrite (calculatePanelBoundsCustom_x panel grid pageSize W g n c)
    by assumption.
  rewrite (calculatePanelBoundsCustom_w panel grid pageSize W g n k)
    by assumption.
  rewrite (calculatePanelBoundsCustom_y panel grid pageSize H g m r)
    by assumption.
  rewrite (calculatePanelBoundsCustom_h panel grid pageSize H g m l)
    by assumption.
  rewrite (calculatePanelBoundsCustom_x right grid pageSize W g n (c + k))
    by assumption.
  rewrite (calculatePanelBoundsCustom_y below grid pageSize H g m (r + l))
    by assumption.
  rewrite !add_of_Z.
  pose proof (cell_exact W g n Hn Hdn) as HWeq.
  pose proof (cell_exact H g m Hm Hdm) as HHeq.
  set (cw := (W - g * (n + 1)) / n) in *.
  set (ch := (H - g * (m + 1)) / m) in *.
  clearbody cw ch. clear Hdn Hdm.
  split; [f_equal; ring|]. split; [f_equal; ring|].
  split; [intros ->; f_equal; ring|].
  split; [intros ->; f_equal; ring|].
  split.
  - intros <-. f_equal. rewrite HWeq. ring.
  - intros <-. f_equal. rewrite HHeq. ring.
Qed.

Lemma neighbours_one_gutter_apart_witness :
  let b := calculatePanelBoundsCustom (Sample.mkPanel "a" 0 0)
             (getLayoutGrid "2x2-grid" (of_Z 3)) page1200x1600 in
  add (add (x b) (w b)) (of_Z 10)
  = x (calculatePanelBoundsCustom (Sample.mkPanel "b" 0 1)
         (getLayoutGrid "2x2-grid" (of_Z 3)) page1200x1600)
  ∧ x b = of_Z 10.
Proof.
  assert (2 | 1200 - 10 * (2 + 1)) as Hn by (exists 585; reflexivity).
  assert (2 | 1600 - 10 * (2 + 1)) as Hm by (exists 785; reflexivity).
  destruct (neighbours_one_gutter_apart
              (Sample.mkPanel "a" 0 0) (Sample.mkPanel "b" 0 1)
              (Sample.mkPanel "c" 1 0)
              (getLayoutGrid "2x2-grid" (of_Z 3)) page1200x1600
              1200 1600 10 2 2 0 0 1 1
              eq_refl eq_refl eq_refl eq_refl eq_refl
              ltac:(lia) ltac:(lia) Hn Hm
              eq_refl eq_refl eq_refl eq_refl eq_refl eq_refl)
    as (Hx & _ & Hfirst & _).
  split; [exact Hx|apply Hfirst; reflexivity].
Defined.

(** X2: the cells of [calculateGridDimensions] and the gutters around
    them fill the page exactly when the cell size is a whole number, and
    they are the cells [calculatePanelBoundsCustom] lays panels on: a
    panel that spans one row and one column is as wide and as high as
    a cell. *)
Theorem calculateGridDimensions_fills pageSize W H g n m :
  width pageSize = of_Z W → height pageSize = of_Z H →
  0 < n → 0 < m →
  (n | W - g * (n + 1)) → (m | H - g * (m + 1)) →
  let d := calculateGridDimensions (of_Z m) (of_Z n) pageSize
                                   (Some (of_Z g)) in
  add (mul (of_Z n) (cellWidth d)) (mul (of_Z g) (of_Z (n + 1))) = of_Z W
  ∧ add (mul (of_Z m) (cellHeight d)) (mul (of_Z g) (of_Z (m + 1))) = of_Z H
  ∧ ∀ panel grid,
      rows grid = of_Z m → cols grid = of_Z n →
      effective_gutter grid = of_Z g →
      effective_colspan panel = of_Z 1 → effective_rowspan panel = of_Z 1 →
      w (calculatePanelBoundsCustom panel grid pageSize) = cellWidth d
      ∧ h (calculatePanelBoundsCustom panel grid pageSize) = cellHeight d.
Proof.
  intros HW HH Hn Hm Hdn Hdm d.
  assert (cellWidth d = of_Z ((W - g * (n + 1)) / n)) as Hcw.
  { unfold d, calculateGridDimensions. cbn [cellWidth default].
    rewrite HW. apply cell_of_Z; assumption. }
  assert (cellHeight d = of_Z ((H - g * (m + 1)) / m)) as Hch.
  { unfold d, calculateGridDimensions. cbn [cellHeight default].
    rewrite HH. apply cell_of_Z; assumption. }
  rewrite Hcw, Hch, !mul_of_Z, !add_of_Z.
  pose proof (cell_exact W g n Hn Hdn) as HWeq.
  pose proof (cell_exact H g m Hm Hdm) as HHeq.
  split; [f_equal; lia|]. split; [f_equal; lia|].
  intros panel grid Hrows Hcols Hg Hk Hl.
  rewrite (calculatePanelBoundsCustom_w panel grid pageSize W g n 1)
    by assumption.
  rewrite (calculatePanelBoundsCustom_h panel grid pageSize H g m 1)
    by assumption.
  split; f_equal; lia.
Qed.

Lemma calculateGridDimensions_fills_witness :
  let d := calculateGridDimensions (of_Z 2) (of_Z 2) page1200x1600
                                   (Some (of_Z 10)) in
  add (mul (of_Z 2) (cellWidth d)) (mul (of_Z 10) (of_Z (2 + 1)))
  = of_Z 1200.
Proof.
  assert (2 | 1200 - 10 * (2 + 1)) as Hn by (exists 585; reflexivity).
  assert (2 | 1600 - 10 * (2 + 1)) as Hm by (exists 785; reflexivity).
  destruct (calculateGridDimensions_fills page1200x1600 1200 1600 10 2 2
              eq_refl eq_refl ltac:(lia) ltac:(lia) Hn Hm)
    as (Hw & _).
  exact Hw.
Defined.

(** X3: on its fixed 2 by 2 grid [calculatePanelBounds] gives the bounds
    of [calculatePanelBoundsCustom] when the gutter is left out or is not
    0, but it takes a gutter of 0 as given, where
    [calculatePanelBoundsCustom] falls back to 10: with a gutter of 0 the
    cells are the halves of the page and touch. *)
Theorem calculatePanelBounds_gutter panel pageSize :
  (∀ g, absent_or_truthy g →
     calculatePanelBounds panel pageSize g
     = calculatePanelBoundsCustom panel (grid2x2 g) pageSize)
  ∧ calculatePanelBoundsCustom panel (grid2x2 (Some (of_Z 0))) pageSize
    = calculatePanelBounds panel pageSize None
  ∧ ∀ a b r c k l,
      width pageSize = of_Z (2 * a) → height pageSize = of_Z (2 * b) →
      col (position panel) = of_Z c → row (position panel) = of_Z r →
      effective_colspan panel = of_Z k → effective_rowspan panel = of_Z l →
      calculatePanelBounds panel pageSize (Some (of_Z 0))
      = {| x := of_Z (c * a); y := of_Z (r * b);
           w := of_Z (k * a); h := of_Z (l * b) |}.
Proof.
  split.
  { intros g Hg. unfold calculatePanelBounds, calculatePanelBoundsCustom.
    cbn [rows cols gutter grid2x2].
    rewrite (BoundsProps.or_default_default g) by exact Hg. reflexivity. }
  split; [reflexivity|].
  intros a b r c k l HW HH Hc Hr Hk Hl.
  unfold effective_colspan in Hk. unfold effective_rowspan in Hl.
  unfold calculatePanelBounds. cbn [default]. unfold id.
  rewrite HW, HH, Hc, Hr, Hk, Hl.
  rewrite !add_of_Z, !mul_of_Z, !sub_of_Z.
  rewrite (div_of_Z (2 * a - 0 * (2 + 1)) 2) by (try lia; exists a; lia).
  rewrite (div_of_Z (2 * b - 0 * (2 + 1)) 2) by (try lia; exists b; lia).
  replace ((2 * a - 0 * (2 + 1)) / 2) with a
    by (replace (2 * a - 0 * (2 + 1)) with (a * 2) by lia;
        rewrite Z.div_mul; lia).
  replace ((2 * b - 0 * (2 + 1)) / 2) with b
    by (replace (2 * b - 0 * (2 + 1)) with (b * 2) by lia;
        rewrite Z.div_mul; lia).
  rewrite !add_of_Z, !mul_of_Z, !add_of_Z.
  f_equal; f_equal; lia.
Qed.

Lemma calculatePanelBounds_gutter_witness :
  calculatePanelBounds (Sample.mkPanel "b" 0 1) page1200x1600
                       (Some (of_Z 0))
  = {| x := of_Z 600; y := of_Z 0; w := of_Z 600; h := of_Z 800 |}.
Proof.
  destruct (calculatePanelBounds_gutter (Sample.mkPanel "b" 0 1)
              page1200x1600) as (_ & _ & Hzero).
  apply (Hzero 600 800 0 1 1 1); reflexivity.
Defined.

End GridProps.

(** ** The command line *)

Module CliProps.
Import JS Cli CliVocabulary.

Lemma switch_known a : a ∈ knownOptions → switch a ≠ Unknown.
Proof.
  unfold knownOptions. intros H.
  repeat (apply elem_of_cons in H as [->|H]; [discriminate|]).
  apply elem_of_nil in H. destruct H.
Qed.

Lemma switch_unknown a : a ∉ knownOptions → switch a = Unknown.
Proof.
  intros H. unfold switch.
  repeat match goal with
         | |- context [String.eqb a ?s] =>
             destruct (String.eqb_spec a s) as [->|_];
             [exfalso; apply H; unfold knownOptions;
              rewrite !elem_of_cons; tauto|];
             cbn [orb]
         end.
  reflexivity.
Qed.

(** What the loop does, by the number of arguments left. *)
Lemma parseLoop_errors (fuel : nat) :
  ∀ rest st, (length rest ≤ fuel)%nat →
    (∀ e, parseLoop rest st = Throw e →
       ∃ a, a ∈ rest ∧ startsWith "-" a = true ∧ (a ∉ knownOptions)
            ∧ e = Error ("Unknown option: " +:+ a))
    ∧ ((∀ a, a ∈ rest → startsWith "-" a = true → a ∈ knownOptions) →
       is_ok (parseLoop rest st)).
Proof.
  induction fuel as [|fuel IH]; intros rest st Hlen.
  { destruct rest; [|cbn in Hlen; lia].
    split; [discriminate|]. intros _. eexists. reflexivity. }
  destruct rest as [|arg rest].
  { split; [discriminate|]. intros _. eexists. reflexivity. }
  cbn in Hlen. cbn [parseLoop].
  destruct (startsWith "-" arg) eqn:Hdash.
  - destruct (switch arg) as [assign|assign|] eqn:Hsw.
    + destruct rest as [|value rest].
      { split; [discriminate|]. intros _. eexists. reflexivity. }
      cbn in Hlen.
      destruct (IH rest (with_options (assign (Some value)) st) ltac:(lia))
        as [Hthrow Hok].
      split.
      * intros e He. destruct (Hthrow e He) as (a & Ha & H).
        exists a. split; [|exact H].
        apply elem_of_cons. right. apply elem_of_cons. right. exact Ha.
      * intros Hknown. apply Hok. intros a Ha. apply Hknown.
        apply elem_of_cons. right. apply elem_of_cons. right. exact Ha.
    + destruct (IH rest (with_options assign st) ltac:(lia))
        as [Hthrow Hok].
      split.
      * intros e He. destruct (Hthrow e He) as (a & Ha & H).
        exists a. split; [|exact H]. apply elem_of_cons. right. exact Ha.
      * intros Hknown. apply Hok. intros a Ha. apply Hknown.
        apply elem_of_cons. right. exact Ha.
    + split.
      * intros e He. injection He as <-. exists arg.
        split; [apply elem_of_cons; left; reflexivity|].
        split; [exact Hdash|]. split; [|reflexivity].
        intros Hin. exact (switch_known arg Hin Hsw).
      * intros Hknown. exfalso.
        apply (switch_known arg); [|exact Hsw].
        apply Hknown; [apply elem_of_cons; left; reflexivity|exact Hdash].
  - assert (∀ st',
              (∀ e, parseLoop rest st' = Throw e →
                 ∃ a, a ∈ arg :: rest ∧ startsWith "-" a = true
                      ∧ (a ∉ knownOptions)
                      ∧ e = Error ("Unknown option: " +:+ a))
              ∧ ((∀ a, a ∈ arg :: rest → startsWith "-" a = true →
                    a ∈ knownOptions) →
                 is_ok (parseLoop rest st'))) as Hstep.
    { intros st'. destruct (IH rest st' ltac:(lia)) as [Hthrow Hok].
      split.
      - intros e He. destruct (Hthrow e He) as (a & Ha & H).
        exists a. split; [|exact H]. apply elem_of_cons. right. exact Ha.
      - intros Hknown. apply Hok. intros a Ha. apply Hknown.
        apply elem_of_cons. right. exact Ha. }
    destruct (String.eqb (command st) ""); apply Hstep.
Qed.

(** X4: [parseCommandArgs] fails only with "Unknown option: <arg>" for
    an argument after the first two that starts with a dash and is not
    one of the fifteen option spellings; when every argument that starts
    with a dash is one of them, it returns. *)
Theorem parseCommandArgs_errors argv :
  (∀ e, parseCommandArgs argv = Throw e →
     ∃ a, a ∈ drop 2 argv ∧ startsWith "-" a = true ∧ (a ∉ knownOptions)
          ∧ e = Error ("Unknown option: " +:+ a))
  ∧ ((∀ a, a ∈ drop 2 argv → startsWith "-" a = true → a ∈ knownOptions) →
     is_ok (parseCommandArgs argv)).
Proof.
  unfold parseCommandArgs.
  apply (parseLoop_errors (length (drop 2 argv))). reflexivity.
Qed.

Lemma parseCommandArgs_errors_witness :
  parseCommandArgs ["bun"; "main.ts"; "generate"; "--fast"]
  = Throw (Error "Unknown option: --fast")
  ∧ is_ok (parseCommandArgs ["bun"; "main.ts"; "generate"; "--parallel"]).
Proof.
  destruct (parseCommandArgs_errors
              ["bun"; "main.ts"; "generate"; "--parallel"]) as [_ Hok].
  split; [reflexivity|]. apply Hok.
  intros a Ha Hdash. cbn in Ha.
  apply elem_of_cons in Ha as [->|Ha]; [discriminate|].
  apply list_elem_of_singleton in Ha as ->.
  unfold knownOptions. rewrite !elem_of_cons. tauto.
Defined.



Lemma has_word spellings a args :
  Forall (fun f => startsWith "-" f = true) spellings →
  word a = true → has spellings (a :: args) = has spellings args.
Proof.
  intros Hsp Hw. unfold has. cbn [existsb].
  replace (existsb (String.eqb a) spellings) with false; [reflexivity|].
  symmetry. apply not_true_is_false. intros Hex.
  apply existsb_exists in Hex as (f & Hf & Heq).
  apply String.eqb_eq in Heq as <-.
  rewrite Forall_forall in Hsp. apply list_elem_of_In in Hf.
  unfold word in Hw. rewrite (Hsp a Hf) in Hw. discriminate.
Qed.

Lemma flagged_word a args o :
  word a = true → flagged (a :: args) o = flagged args o.
Proof.
  intros Hw. unfold flagged.
  rewrite !(has_word _ a args) by first [exact Hw|repeat constructor].
  reflexivity.
Qed.

Lemma parseLoop_flags_words args :
  ∀ st, Forall (fun a => word a = true ∨ a ∈ flags) args →
    parseLoop args st
    = Ok {| command := if String.eqb (command st) ""
                       then hd "" (words args) else command st;
            Cli.args := Cli.args st
                        ++ (if String.eqb (command st) ""
                            then tl (words args) else words args);
            options := flagged args (options st) |}.
Proof.
  induction args as [|a args IH]; intros st Hall.
  { destruct st as [c l o]. cbn [parseLoop command Cli.args options].
    assert (flagged [] o = o) as ->.
    { destruct o. unfold flagged, has. cbn. rewrite !orb_false_r.
      reflexivity. }
    destruct (String.eqb_spec c ""); subst; cbn; rewrite app_nil_r;
      reflexivity. }
  apply Forall_cons in Hall as [Ha Hall].
  destruct Ha as [Hw|Hf].
  - cbn [parseLoop].
    assert (startsWith "-" a = false ∧ a ≠ "") as [Hdash Hne].
    { unfold word in Hw. apply andb_true_iff in Hw as [H1 H2].
      apply negb_true_iff in H1. apply negb_true_iff in H2.
      split; [exact H1|]. intros ->. discriminate. }
    rewrite Hdash.
    assert (words (a :: args) = a :: words args) as Hwords.
    { unfold words. cbn [List.filter]. rewrite Hw. reflexivity. }
    rewrite Hwords, (flagged_word a args _ Hw). cbn [hd tl].
    destruct (String.eqb_spec (command st) "") as [Hc|Hc].
    + rewrite (IH _ Hall). cbn [command Cli.args options with_command].
      destruct (String.eqb_spec a ""); [contradiction|]. reflexivity.
    + rewrite (IH _ Hall). cbn [command Cli.args options push_arg].
      destruct (String.eqb_spec (command st) ""); [contradiction|].
      rewrite <- app_assoc. reflexivity.
  - unfold flags in Hf.
    repeat (apply elem_of_cons in Hf as [->|Hf];
            [cbn [parseLoop startsWith Ascii.eqb Bool.eqb switch String.eqb
                  orb andb];
             rewrite (IH _ Hall);
             cbn [command Cli.args options with_options];
             f_equal; destruct (options st); unfold flagged, has;
             cbn; rewrite ?orb_true_r; reflexivity|]).
    apply elem_of_nil in Hf. destruct Hf.
Qed.

(** X6: when the arguments are words and flags only (no option with a
    value), [parseCommandArgs] returns: the first word is the command,
    the other words are the positional arguments in their order, and a
    flag is set exactly when one of its spellings occurs, wherever it
    stands and however often. *)
Theorem flags_and_words n s args :
  Forall (fun a => word a = true ∨ a ∈ flags) args →
  parseCommandArgs (n :: s :: args)
  = Ok {| command := hd "" (words args); Cli.args := tl (words args);
          options := flagged args defaults |}.
Proof.
  intros Hall. unfold parseCommandArgs. cbn [drop].
  rewrite (parseLoop_flags_words args _ Hall). reflexivity.
Qed.

Lemma flags_and_words_witness :
  parseCommandArgs ["bun"; "main.ts"; "-v"; "init"; "--parallel"; "my-comic"]
  = Ok {| command := "init"; Cli.args := ["my-comic"];
          options := set_verbose true (set_parallel true defaults) |}.
Proof.
  rewrite (flags_and_words "bun" "main.ts"
             ["-v"; "init"; "--parallel"; "my-comic"]).
  - reflexivity.
  - unfold flags.
    repeat (apply Forall_cons; split;
            [first [left; reflexivity|right; rewrite !elem_of_cons; tauto]|]).
    apply Forall_nil. exact I.
Defined.

End CliProps.

(** ** The entry point *)

Module MainProps.
Import JS Cli Main CliVocabulary.

(** X7: a command other than init, generate, preview and composite is
    not run: [main] prints "Unknown command", calls nothing and exits
    with code 1.  The "pdf" command that the usage text lists is such a
    command. *)
Theorem main_unknown_command run argv parsed :
  parseCommandArgs argv = Ok parsed →
  help (options parsed) = false →
  command parsed ≠ "" → command parsed ∉ commands →
  main run argv
  = Ok {| printed := [ConsoleError ("Unknown command: " +:+ command parsed);
                      ConsoleError "Run with --help to see available commands"];
          called := None; exitCode := Some 1 |}.
Proof.
  intros Hparse Hhelp Hne Hcmd. unfold main. rewrite Hparse.
  cbn [mbind Result_bind]. rewrite Hhelp. cbn [orb].
  unfold commands in Hcmd. rewrite !elem_of_cons in Hcmd.
  repeat match goal with
         | |- context [String.eqb (command parsed) ?s] =>
             destruct (String.eqb_spec (command parsed) s);
             [exfalso; tauto|]
         end.
  reflexivity.
Qed.

Lemma main_unknown_command_witness :
  main returns ["bun"; "main.ts"; "pdf"; "-c"; "comic/flexicomic.json"]
  = Ok {| printed := [ConsoleError "Unknown command: pdf";
                      ConsoleError "Run with --help to see available commands"];
          called := None; exitCode := Some 1 |}.
Proof.
  apply (main_unknown_command returns
           ["bun"; "main.ts"; "pdf"; "-c"; "comic/flexicomic.json"]
           {| command := "pdf"; args := [];
              options := set_config (Some "comic/flexicomic.json") defaults |}).
  - reflexivity.
  - reflexivity.
  - discriminate.
  - unfold commands. rewrite !elem_of_cons, elem_of_nil.
    intros [H|[H|[H|[H|[]]]]]; discriminate.
Defined.

(** X8: what [main] does once the command line is parsed.  It hands over
    only without the help flag: to the project setup for "init" with a
    project name that is not empty, to the generator and the composer for
    "generate" and "composite" with a configuration path, to the preview
    for "preview" with one; when the call returns it prints nothing and
    leaves the exit to the runtime, when the call throws it prints
    "Error: <message>" and exits with 1.  When it hands over to nothing
    it prints something and exits with 1, or with 0 for the help flag
    together with a command. *)
Theorem main_outcomes run argv r :
  main run argv = Ok r →
  ∃ parsed,
    parseCommandArgs argv = Ok parsed
    ∧ match called r with
      | Some c =>
          help (options parsed) = false
          ∧ match c with
            | InitInteractive name =>
                command parsed = "init"
                ∧ args parsed !! 0%nat = Some name ∧ name ≠ ""
            | GenerateComic o =>
                command parsed = "generate"
                ∧ o = options parsed ∧ is_Some (config o)
            | PreviewLayout path =>
                command parsed = "preview"
                ∧ config (options parsed) = Some path
            | CompositePages o =>
                command parsed = "composite"
                ∧ o = options parsed ∧ is_Some (config o)
            end
          ∧ match run c with
            | Ok _ => printed r = [] ∧ exitCode r = None
            | Throw e =>
                printed r = [ConsoleError ("Error: " +:+ message e)]
                ∧ exitCode r = Some 1
            end
      | None =>
          printed r ≠ []
          ∧ (exitCode r = Some 1
             ∨ (exitCode r = Some 0 ∧ printed r = [Usage]
                ∧ help (options parsed) = true ∧ command parsed ≠ ""))
      end.
Proof.
  unfold main. destruct (parseCommandArgs argv) as [parsed|e]; [|discriminate].
  cbn [mbind Result_bind]. intros Hrun. exists parsed.
  split; [reflexivity|].
  destruct (help (options parsed)) eqn:Hhelp; cbn [orb] in Hrun.
  { injection Hrun as <-. cbn [called printed exitCode].
    split; [discriminate|].
    destruct (String.eqb_spec (command parsed) ""); [left; reflexivity|].
    right. done. }
  destruct (String.eqb_spec (command parsed) "") as [|Hne].
  { injection Hrun as <-. cbn. split; [discriminate|]. left. reflexivity. }
  assert (∀ c, match run c with
               | Ok _ => printed (attempt run c) = []
                         ∧ exitCode (attempt run c) = None
               | Throw e =>
                   printed (attempt run c)
                   = [ConsoleError ("Error: " +:+ message e)]
                   ∧ exitCode (attempt run c) = Some 1
               end) as Hattempt.
  { intros c. unfold attempt. destruct (run c); split; reflexivity. }
  assert (∀ c, called (attempt run c) = Some c) as Hcalled.
  { intros c. unfold attempt. destruct (run c); reflexivity. }
  destruct (String.eqb_spec (command parsed) "init") as [Hinit|_].
  { destruct (args parsed !! 0%nat) as [[|ch name]|] eqn:Hargs;
      cbn [or_null] in Hrun; injection Hrun as <-.
    - cbn. split; [discriminate|]. left. reflexivity.
    - rewrite Hcalled. split; [reflexivity|].
      split; [done|]. apply Hattempt.
    - cbn. split; [discriminate|]. left. reflexivity. }
  destruct (String.eqb_spec (command parsed) "generate") as [Hgen|_].
  { destruct (config (options parsed)) as [path|] eqn:Hconfig;
      injection Hrun as <-.
    - rewrite Hcalled. split; [reflexivity|].
      split; [|apply Hattempt].
      split; [exact Hgen|]. split; [reflexivity|]. rewrite Hconfig. eauto.
    - cbn. split; [discriminate|]. left. reflexivity. }
  destruct (String.eqb_spec (command parsed) "preview") as [Hpre|_].
  { destruct (config (options parsed)) as [path|] eqn:Hconfig;
      injection Hrun as <-.
    - rewrite Hcalled. split; [reflexivity|].
      split; [|apply Hattempt]. done.
    - cbn. split; [discriminate|]. left. reflexivity. }
  destruct (String.eqb_spec (command parsed) "composite") as [Hcomp|_].
  { destruct (config (options parsed)) as [path|] eqn:Hconfig;
      injection Hrun as <-.
    - rewrite Hcalled. split; [reflexivity|].
      split; [|apply Hattempt].
      split; [exact Hcomp|]. split; [reflexivity|]. rewrite Hconfig. eauto.
    - cbn. split; [discriminate|]. left. reflexivity. }
  injection Hrun as <-. cbn. split; [discriminate|]. left. reflexivity.
Qed.

Lemma main_outcomes_witness :
  ∃ parsed,
    parseCommandArgs ["bun"; "main.ts"; "generate"; "-c"; "c.json"]
    = Ok parsed
    ∧ command parsed = "generate" ∧ config (options parsed) = Some "c.json".
Proof.
  destruct (main_outcomes returns
              ["bun"; "main.ts"; "generate"; "-c"; "c.json"]
              {| printed := []; exitCode := None;
                 called := Some (GenerateComic
                                   (set_config (Some "c.json") defaults)) |}
              eq_refl)
    as (parsed & Hparse & H).
  cbn [called] in H. destruct H as (_ & (Hcmd & Ho & _) & _).
  exists parsed. split; [exact Hparse|]. split; [exact Hcmd|].
  rewrite <- Ho. reflexivity.
Defined.

End MainProps.

(** ** The fallback configuration check *)

Module ConfigCheckProps.
Import ConfigCheck ConfigCheckVocabulary.

Lemma not_object v :
  negb (truthy v) || negb (String.eqb (typeof v) "object")
  = match v with
    | Some (JArray _) | Some (JObject _) => false
    | _ => true
    end.
Proof.
  destruct v as [[]|]; cbn; rewrite ?orb_true_r; reflexivity.
Qed.

Lemma not_string v :
  negb (String.eqb (typeof v) "string")
  = match v with Some (JString _) => false | _ => true end.
Proof. destruct v as [[]|]; reflexivity. Qed.

Lemma push_if_nil c m e : push_if c m e = [] ↔ c = false ∧ e = [].
Proof.
  unfold push_if. destruct c.
  - split; [intros H; destruct e; discriminate|intros [? _]; discriminate].
  - split; [intros ->; done|intros [_ ->]; done].
Qed.

Lemma push_if_length c m e :
  (length e ≤ length (push_if c m e) ≤ S (length e))%nat.
Proof. unfold push_if. destruct c; rewrite ?length_app; cbn; lia. Qed.

Lemma has_string_spec v key :
  match get v key with Some (JString _) => false | _ => true end = false
  ↔ has_string v key.
Proof.
  unfold has_string. destruct (get v key) as [[]|]; split;
    try discriminate; try (intros [? ?]; discriminate); eauto.
Qed.

Lemma has_array_spec v key :
  negb (isArray (get v key)) = false ↔ has_array v key.
Proof.
  unfold has_array. destruct (get v key) as [[]|]; cbn; split;
    try discriminate; try (intros [? ?]; discriminate); eauto.
Qed.

Lemma get_object v key x :
  get v key = Some x → ∃ fields, v = Some (JObject fields).
Proof. destruct v as [[]|]; try discriminate. eauto. Qed.

(** The list of messages that the check builds for an object or an
    array. *)
Lemma basicValidation_messages config :
  (∃ items, config = JArray items) ∨ (∃ fields, config = JObject fields) →
  ∃ l, basicValidation config
       = {| valid := (length l =? 0)%nat;
            errors := if (0 <? length l)%nat then Some l else None |}
       ∧ (length l ≤ 6)%nat
       ∧ (l = [] ↔ well_shaped config).
Proof.
  intros Hobj.
  assert (negb (truthy (Some config))
          || negb (String.eqb (typeof (Some config)) "object") = false)
    as Htest.
  { rewrite not_object. destruct Hobj as [[? ->]|[? ->]]; reflexivity. }
  unfold basicValidation. rewrite Htest.
  rewrite !not_object, !not_string.
  set (c := Some config).
  set (e1 := if match get c "meta" with
                | Some (JArray _) | Some (JObject _) => false
                | _ => true
                end
             then [] ++ ["meta is required and must be an object"]
             else push_if
                    match get (get c "meta") "title" with
                    | Some (JString _) => false
                    | _ => true
                    end "meta.title is required" []).
  set (e2 := if match get c "style" with
                | Some (JArray _) | Some (JObject _) => false
                | _ => true
                end
             then e1 ++ ["style is required and must be an object"]
             else push_if
                    match get (get c "style") "tone" with
                    | Some (JString _) => false
                    | _ => true
                    end "style.tone is required"
                    (push_if
                       match get (get c "style") "artStyle" with
                       | Some (JString _) => false
                       | _ => true
                       end "style.artStyle is required" e1)).
  set (e3 := if match get c "pageSettings" with
                | Some (JArray _) | Some (JObject _) => false
                | _ => true
                end
             then e2 ++ ["pageSettings is required and must be an object"]
             else push_if
                    match get (get c "pageSettings") "aspectRatio" with
                    | Some (JString _) => false
                    | _ => true
                    end "pageSettings.aspectRatio is required" e2).
  set (e4 := push_if (negb (isArray (get c "characters")))
                     "characters must be an array" e3).
  set (e5 := push_if (negb (isArray (get c "pages")))
                     "pages must be an array" e4).
  exists e5. split; [reflexivity|].
  assert ((length e1 ≤ 1)%nat
          ∧ (e1 = [] ↔ has_string (get c "meta") "title")) as [Hl1 H1].
  { unfold e1.
    destruct (get c "meta") as [[| | | |items|fields]|] eqn:Hmeta;
      try (split; [cbn; lia|];
           split; [discriminate|intros [? ?]; discriminate]).
    all: split; [apply push_if_length|].
    all: rewrite push_if_nil, has_string_spec; tauto. }
  assert ((length e2 ≤ length e1 + 2)%nat
          ∧ (e2 = [] ↔ e1 = [] ∧ has_string (get c "style") "artStyle"
                       ∧ has_string (get c "style") "tone")) as [Hl2 H2].
  { unfold e2.
    destruct (get c "style") as [[| | | |items|fields]|] eqn:Hstyle;
      try (split; [rewrite length_app; cbn; lia|];
           split; [intros H; destruct e1; discriminate
                  |intros (_ & [? ?] & _); discriminate]).
    all: split;
      [match goal with
       | |- context [push_if ?c2 ?m2 (push_if ?c1 ?m1 ?e)] =>
           pose proof (push_if_length c2 m2 (push_if c1 m1 e));
           pose proof (push_if_length c1 m1 e)
       end; lia|].
    all: rewrite !push_if_nil, !has_string_spec; tauto. }
  assert ((length e3 ≤ length e2 + 1)%nat
          ∧ (e3 = [] ↔ e2 = []
                       ∧ has_string (get c "pageSettings") "aspectRatio"))
    as [Hl3 H3].
  { unfold e3.
    destruct (get c "pageSettings") as [[| | | |items|fields]|] eqn:Hps;
      try (split; [rewrite length_app; cbn; lia|];
           split; [intros H; destruct e2; discriminate
                  |intros (_ & [? ?]); discriminate]).
    all: split;
      [match goal with
       | |- context [push_if ?c1 ?m1 ?e] =>
           pose proof (push_if_length c1 m1 e)
       end; lia|].
    all: rewrite push_if_nil, has_string_spec; tauto. }
  split.
  - pose proof (push_if_length (negb (isArray (get c "characters")))
                  "characters must be an array" e3).
    pose proof (push_if_length (negb (isArray (get c "pages")))
                  "pages must be an array" e4).
    fold e4 in H. fold e5 in H0. lia.
  - unfold e5, e4, well_shaped. fold c.
    rewrite !push_if_nil, !has_array_spec, H3, H2, H1. tauto.
Qed.

(** X9: the fallback check accepts a parsed configuration exactly when
    meta.title, style.artStyle, style.tone and pageSettings.aspectRatio
    are strings and characters and pages are arrays; it never looks into
    the characters and the pages.  It reports no list of errors exactly
    when it accepts, and otherwise between one and six messages; a value
    that is neither an object nor an array gets the one message "Config
    must be an object". *)
Theorem basicValidation_accepts config :
  (valid (basicValidation config) = true ↔ well_shaped config)
  ∧ (errors (basicValidation config) = None
     ↔ valid (basicValidation config) = true)
  ∧ (∀ l, errors (basicValidation config) = Some l →
       (1 ≤ length l ≤ 6)%nat)
  ∧ ((∀ items, config ≠ JArray items) → (∀ fields, config ≠ JObject fields) →
     basicValidation config
     = {| valid := false; errors := Some ["Config must be an object"] |}).
Proof.
  assert (((∃ items, config = JArray items)
           ∨ (∃ fields, config = JObject fields))
          ∨ (basicValidation config
             = {| valid := false;
                  errors := Some ["Config must be an object"] |}
             ∧ ¬ well_shaped config)) as [Hobj|[Hbad Hshape]].
  { destruct config;
      [right|right|right|right|left; left; eauto|left; right; eauto];
      (split; [unfold basicValidation; rewrite not_object; reflexivity
              |intros ([? ?] & _); discriminate]). }
  - destruct (basicValidation_messages config Hobj)
      as (l & -> & Hlen & Hshape).
    cbn [valid errors].
    split. { rewrite Nat.eqb_eq, <- Hshape. apply length_zero_iff_nil. }
    split. { destruct l; cbn; split; intros; (discriminate || reflexivity). }
    split.
    { intros l' Hl'. destruct l; cbn in Hl'; [discriminate|].
      injection Hl' as <-. cbn in *. lia. }
    intros Ha Ho. exfalso.
    destruct Hobj as [[? ->]|[? ->]]; [eapply Ha|eapply Ho]; reflexivity.
  - rewrite Hbad. cbn [valid errors].
    split; [split; [discriminate|intros; contradiction]|].
    split; [split; discriminate|].
    split; [intros l Hl; injection Hl as <-; cbn; lia|].
    reflexivity.
Qed.

Lemma basicValidation_accepts_witness :
  valid (basicValidation looseConfig) = true.
Proof.
  destruct (basicValidation_accepts looseConfig) as ([_ Hvalid] & _).
  apply Hvalid. unfold well_shaped, has_string, has_array, looseConfig.
  repeat split; eexists; reflexivity.
Defined.

End ConfigCheckProps.

(** ** The choice of the provider *)

Module ProviderProps.
Import ProviderVocabulary.

(** X10: the two adapters choose a provider from the same environments:
    each returns the preferred provider when one is named, and fails
    with "No API key found" exactly when none is named and no key is
    set.  They differ in the order of preference, and so in their
    result, exactly when no provider is named and the key of DashScope
    is set together with a key of Google or of OpenAI. *)
Theorem resolveProvider_versions env preferred :
  (∀ p, preferred = Some p → p ≠ "" →
     Provider.resolveProvider env preferred = Ok p
     ∧ DirectProvider.resolveProvider env preferred = Ok p)
  ∧ (Provider.resolveProvider env preferred = Throw noApiKey
     ↔ PromptBuilder.present preferred = false ∧ no_key env)
  ∧ (DirectProvider.resolveProvider env preferred = Throw noApiKey
     ↔ PromptBuilder.present preferred = false ∧ no_key env)
  ∧ (Provider.resolveProvider env preferred
     ≠ DirectProvider.resolveProvider env preferred
     ↔ PromptBuilder.present preferred = false
       ∧ env_set env "DASHSCOPE_API_KEY" = true
       ∧ (hasGoogle env = true ∨ env_set env "OPENAI_API_KEY" = true)).
Proof.
  unfold Provider.resolveProvider, DirectProvider.resolveProvider, no_key,
    hasGoogle.
  split.
  { intros p -> Hp. destruct p; [done|]. split; reflexivity. }
  destruct preferred as [[|c r]|]; cbn [PromptBuilder.present];
    destruct (env_set env "GOOGLE_API_KEY"),
             (env_set env "GEMINI_API_KEY"),
             (env_set env "OPENAI_API_KEY"),
             (env_set env "DASHSCOPE_API_KEY"); cbn [orb];
    repeat split; try discriminate; try tauto; try congruence;
    try (intros [_ (? & ? & ?)]; discriminate);
    try (intros [? _]; discriminate);
    try (intros (_ & ? & [?|?]); discriminate);
    try (intros (_ & ? & _); discriminate);
    try (intros H; exfalso; apply H; reflexivity).
Qed.

Lemma resolveProvider_versions_witness :
  Provider.resolveProvider twoKeys None
  ≠ DirectProvider.resolveProvider twoKeys None.
Proof.
  destruct (resolveProvider_versions twoKeys None) as (_ & _ & _ & [_ H]).
  apply H. split; [reflexivity|]. split; [reflexivity|].
  left. reflexivity.
Defined.

End ProviderProps.

(** ** The character reference sheets *)

Module ReferenceProps.
Import JS Adapter CharacterRefs ReferenceVocabulary.

Lemma characterWarnings_app evs1 evs2 :
  characterWarnings (evs1 ++ evs2)
  = characterWarnings evs1 ++ characterWarnings evs2.
Proof. apply omap_app. Qed.

Lemma adapter_events_no_character_warning evs :
  Forall adapter_event evs → characterWarnings evs = [].
Proof.
  induction 1 as [|e evs He _ IH]; [reflexivity|].
  destruct e; try destruct He; exact IH.
Qed.

Lemma Map_set_keys {V} key (value : V) refs :
  (Map_set key value refs).*1 = Set_add (refs.*1) key.
Proof.
  induction refs as [|[k v] refs IH]; [reflexivity|].
  cbn [Map_set]. unfold Set_add in *. cbn [fmap list_fmap fst].
  destruct (String.eqb_spec k key) as [->|Hne].
  - rewrite decide_True by (apply elem_of_cons; left; reflexivity).
    reflexivity.
  - cbn [fmap list_fmap fst]. change (list_fmap _ _ fst refs) with (refs.*1).
    change (list_fmap _ _ fst (Map_set key value refs))
      with ((Map_set key value refs).*1).
    rewrite IH. destruct (decide (key ∈ refs.*1)) as [Hin|Hnin].
    + rewrite decide_True by (apply elem_of_cons; right; exact Hin).
      reflexivity.
    + rewrite decide_False; [reflexivity|].
      intros Hin. apply elem_of_cons in Hin as [->|Hin]; done.
Qed.

Lemma elem_of_Map_set {V} key (value : V) refs k v :
  (k, v) ∈ Map_set key value refs →
  (k = key ∧ v = value) ∨ (k, v) ∈ refs.
Proof.
  induction refs as [|[k0 v0] refs IH]; cbn [Map_set].
  - intros H. apply list_elem_of_singleton in H. injection H as -> ->.
    left. done.
  - destruct (String.eqb_spec k0 key) as [->|Hne]; intros H;
      apply elem_of_cons in H as [H|H].
    + injection H as -> ->. left. done.
    + right. apply elem_of_cons. right. exact H.
    + right. apply elem_of_cons. left. exact H.
    + destruct (IH H) as [?|?]; [left; done|].
      right. apply elem_of_cons. right. done.
Qed.

Section Collaborators.
Variable spawn : ImageGenOptions → World → Z.
Variable path_join : list string → string.
Variable sheetPrompt : string → CharacterConfig → FlexicomicConfig → string.

Local Abbreviation generateCharacterReferences :=
  (generateCharacterReferences spawn path_join sheetPrompt).
Local Abbreviation references := (references spawn path_join sheetPrompt).
Local Abbreviation sheets := (sheets spawn path_join sheetPrompt).

(** One call of the retry wrapper with 2 retries. *)
Lemma retry_summary options σ :
  ∃ r σ' evs k,
    callImageGenWithRetry spawn options 2 σ = (r, σ')
    ∧ log σ' = log σ ++ evs
    ∧ characterWarnings evs = []
    ∧ spawns evs = replicate k options
    ∧ (1 ≤ k ≤ 3)%nat
    ∧ match r with
      | Ok _ => files σ' = {[output options]} ∪ files σ
      | Throw _ => files σ' = files σ ∧ k = 3%nat
      end.
Proof.
  unfold callImageGenWithRetry. change (Z.to_nat (2 + 1)) with 3%nat.
  destruct (AdapterProps.retry_loop_spec spawn options 2 3 0 Null σ)
    as (r & σ' & evs & Hrun & Hlog & _ & Hev & Hr).
  destruct r as [[]|e].
  - destruct Hr as (k & Hk & Hks & _ & Hf).
    exists (Ok tt), σ', evs, k.
    split; [exact Hrun|]. split; [exact Hlog|].
    split; [apply adapter_events_no_character_warning, Hev|].
    split; [exact Hks|]. split; [lia|exact Hf].
  - destruct Hr as (Hks & Hf & _).
    exists (Throw e), σ', evs, 3%nat.
    split; [exact Hrun|]. split; [exact Hlog|].
    split; [apply adapter_events_no_character_warning, Hev|].
    split; [exact Hks|]. split; [lia|]. split; [exact Hf|reflexivity].
Qed.

(** The retry wrapper with a provider that succeeds, and with one that
    fails. *)
Lemma retry_succeeds options σ :
  (∀ o σ0, spawn o σ0 = 0) →
  callImageGenWithRetry spawn options 2 σ
  = (Ok tt, writeFile (output options) (emit (EvSpawn options) σ)).
Proof.
  intros Hok. unfold callImageGenWithRetry.
  change (Z.to_nat (2 + 1)) with 3%nat. cbn [retry_loop].
  apply try_ok, AdapterProps.callImageGen_success, Hok.
Qed.

Lemma retry_fails options σ :
  (∀ o σ0, spawn o σ0 ≠ 0) →
  ∃ e,
    callImageGenWithRetry spawn options 2 σ
    = (Throw e,
       emit (EvSpawn options)
         (emit (EvRetryWarning 2)
            (emit (EvSpawn options)
               (emit (EvRetryWarning 1) (emit (EvSpawn options) σ))))).
Proof.
  intros Hfail. unfold callImageGenWithRetry.
  change (Z.to_nat (2 + 1)) with 3%nat. cbn [retry_loop].
  repeat case_decide; try lia.
  erewrite try_throw; [|apply AdapterProps.callImageGen_fail, Hfail].
  rewrite bind_tell.
  erewrite try_throw; [|apply AdapterProps.callImageGen_fail, Hfail].
  rewrite bind_tell.
  erewrite try_throw; [|apply AdapterProps.callImageGen_fail, Hfail].
  eexists. reflexivity.
Qed.

(** The [try] block for one character, whatever the provider does. *)
Lemma sheets_spec character charDir config provider id σ :
  ∃ r failed σ' evs,
    sheets character charDir config provider (blank id) σ
    = (Ok (r, failed), σ')
    ∧ log σ' = log σ ++ evs
    ∧ files σ ⊆ files σ'
    ∧ characterWarnings evs = []
    ∧ (length (spawns evs) ≤ 12)%nat
    ∧ characterId r = id
    ∧ (∀ p, p ∈ recorded r → p ∈ files σ')
    ∧ (generated r = true → r = complete path_join id charDir).
Proof.
  unfold CharacterRefs.sheets, generateExpressionsGrid, generateAnglesGrid,
    generateFullBodyRef, generateColorPalette.
  cbn beta zeta.
  match goal with
  | |- context [callImageGenWithRetry spawn ?o 2 σ] =>
      destruct (retry_summary o σ)
        as (r1 & σ1 & evs1 & k1 & Hrun1 & Hlog1 & Hw1 & Hs1 & Hk1 & Hf1);
      rewrite Hrun1
  end.
  cbn [output] in Hf1.
  destruct r1 as [[]|e1].
  2: { destruct Hf1 as [Hf1 _].
       exists (blank id), (Some e1), σ1, evs1.
       split; [reflexivity|]. split; [exact Hlog1|].
       split; [rewrite Hf1; done|]. split; [exact Hw1|].
       split; [rewrite Hs1, length_replicate; lia|]. split; [reflexivity|].
       split; [intros p Hp; apply elem_of_nil in Hp; destruct Hp|].
       discriminate. }
  match goal with
  | |- context [callImageGenWithRetry spawn ?o 2 σ1] =>
      destruct (retry_summary o σ1)
        as (r2 & σ2 & evs2 & k2 & Hrun2 & Hlog2 & Hw2 & Hs2 & Hk2 & Hf2);
      rewrite Hrun2
  end.
  cbn [output] in Hf2.
  destruct r2 as [[]|e2].
  2: { destruct Hf2 as [Hf2 _].
       eexists _, (Some e2), σ2, (evs1 ++ evs2).
       split; [reflexivity|].
       split; [rewrite Hlog2, Hlog1, <- app_assoc; reflexivity|].
       split; [rewrite Hf2, Hf1; set_solver|].
       split; [rewrite characterWarnings_app, Hw1, Hw2; reflexivity|].
       split; [rewrite spawns_app, length_app, Hs1, Hs2, !length_replicate;
               lia|].
       split; [reflexivity|].
       split; [|discriminate].
       intros p Hp. cbn in Hp. apply list_elem_of_singleton in Hp as ->.
       rewrite Hf2, Hf1. set_solver. }
  match goal with
  | |- context [callImageGenWithRetry spawn ?o 2 σ2] =>
      destruct (retry_summary o σ2)
        as (r3 & σ3 & evs3 & k3 & Hrun3 & Hlog3 & Hw3 & Hs3 & Hk3 & Hf3);
      rewrite Hrun3
  end.
  cbn [output] in Hf3.
  destruct r3 as [[]|e3].
  2: { destruct Hf3 as [Hf3 _].
       eexists _, (Some e3), σ3, (evs1 ++ evs2 ++ evs3).
       split; [reflexivity|].
       split; [rewrite Hlog3, Hlog2, Hlog1, <- !app_assoc; reflexivity|].
       split; [rewrite Hf3, Hf2, Hf1; set_solver|].
       split; [rewrite !characterWarnings_app, Hw1, Hw2, Hw3; reflexivity|].
       split; [rewrite !spawns_app, !length_app, Hs1, Hs2, Hs3,
                 !length_replicate; lia|].
       split; [reflexivity|].
       split; [|discriminate].
       intros p Hp. cbn in Hp. rewrite !elem_of_cons, elem_of_nil in Hp.
       rewrite Hf3, Hf2, Hf1. set_solver. }
  match goal with
  | |- context [callImageGenWithRetry spawn ?o 2 σ3] =>
      destruct (retry_summary o σ3)
        as (r4 & σ4 & evs4 & k4 & Hrun4 & Hlog4 & Hw4 & Hs4 & Hk4 & Hf4);
      rewrite Hrun4
  end.
  cbn [output] in Hf4.
  destruct r4 as [[]|e4].
  2: { destruct Hf4 as [Hf4 _].
       eexists _, (Some e4), σ4, (evs1 ++ evs2 ++ evs3 ++ evs4).
       split; [reflexivity|].
       split; [rewrite Hlog4, Hlog3, Hlog2, Hlog1, <- !app_assoc;
               reflexivity|].
       split; [rewrite Hf4, Hf3, Hf2, Hf1; set_solver|].
       split; [rewrite !characterWarnings_app, Hw1, Hw2, Hw3, Hw4;
               reflexivity|].
       split; [rewrite !spawns_app, !length_app, Hs1, Hs2, Hs3, Hs4,
                 !length_replicate; lia|].
       split; [reflexivity|].
       split; [|discriminate].
       intros p Hp. cbn in Hp. rewrite !elem_of_cons, elem_of_nil in Hp.
       rewrite Hf4, Hf3, Hf2, Hf1. set_solver. }
  eexists _, None, σ4, (evs1 ++ evs2 ++ evs3 ++ evs4).
  split; [reflexivity|].
  split; [rewrite Hlog4, Hlog3, Hlog2, Hlog1, <- !app_assoc; reflexivity|].
  split; [rewrite Hf4, Hf3, Hf2, Hf1; set_solver|].
  split; [rewrite !characterWarnings_app, Hw1, Hw2, Hw3, Hw4; reflexivity|].
  split; [rewrite !spawns_app, !length_app, Hs1, Hs2, Hs3, Hs4,
            !length_replicate; lia|].
  split; [reflexivity|].
  split; [|reflexivity].
  intros p Hp. cbn in Hp. rewrite !elem_of_cons, elem_of_nil in Hp.
  rewrite Hf4, Hf3, Hf2, Hf1. set_solver.
Qed.

(** The loop over the characters, from any map built so far. *)
Lemma references_spec config outputDir provider cs :
  ∀ refs σ,
    (∀ id r, (id, r) ∈ refs →
       characterId r = id
       ∧ (∀ p, p ∈ recorded r → p ∈ files σ)
       ∧ (generated r = true →
          r = complete path_join id
                (path_join [outputDir; "characters"; id]))) →
    ∃ refs' σ' evs,
      references cs config outputDir provider refs σ = (Ok refs', σ')
      ∧ log σ' = log σ ++ evs
      ∧ files σ ⊆ files σ'
      ∧ refs'.*1 = fold_left Set_add (char_id <$> cs) (refs.*1)
      ∧ (length (spawns evs) ≤ 12 * length cs)%nat
      ∧ (length (characterWarnings evs) ≤ length cs)%nat
      ∧ ∀ id r, (id, r) ∈ refs' →
          characterId r = id
          ∧ (∀ p, p ∈ recorded r → p ∈ files σ')
          ∧ (generated r = true →
             r = complete path_join id
                   (path_join [outputDir; "characters"; id])).
Proof.
  induction cs as [|c cs IH]; intros refs σ Hrefs.
  { exists refs, σ, []. cbn. rewrite app_nil_r.
    split; [reflexivity|]. split; [reflexivity|]. split; [reflexivity|].
    split; [reflexivity|]. split; [lia|]. split; [lia|exact Hrefs]. }
  cbn [CharacterRefs.references].
  destruct (sheets_spec c (path_join [outputDir; "characters"; char_id c])
              config provider (char_id c) σ)
    as (r & failed & σ1 & evs1 & Hrun & Hlog1 & Hf1 & Hw1 & Hs1 & Hid
        & Hrec & Hgen).
  unfold blank in Hrun.
  rewrite (bind_ok _ _ _ _ _ Hrun). cbn beta iota.
  set (σ2 := match failed with
             | Some error => emit (EvCharacterWarning (char_id c) error) σ1
             | None => σ1
             end).
  set (evs2 := match failed with
               | Some error => [EvCharacterWarning (char_id c) error]
               | None => []
               end).
  assert (log σ2 = log σ1 ++ evs2 ∧ files σ2 = files σ1) as [Hlog2 Hf2].
  { unfold σ2, evs2. destruct failed; cbn; rewrite ?app_nil_r; done. }
  destruct (IH (Map_set (char_id c) r refs) σ2)
    as (refs' & σ' & evs & Hrun' & Hlog' & Hf' & Hkeys & Hs' & Hw' & Hall).
  { intros id0 r0 Hin. apply elem_of_Map_set in Hin as [[-> ->]|Hin].
    - split; [exact Hid|]. split; [|exact Hgen].
      intros p Hp. rewrite Hf2. apply Hrec, Hp.
    - destruct (Hrefs id0 r0 Hin) as (H1 & H2 & H3).
      split; [exact H1|]. split; [|exact H3].
      intros p Hp. rewrite Hf2. apply Hf1, H2, Hp. }
  exists refs', σ', (evs1 ++ evs2 ++ evs).
  split.
  { unfold σ2 in Hrun'. destruct failed.
    - rewrite bind_tell. exact Hrun'.
    - rewrite bind_ret. exact Hrun'. }
  split; [rewrite Hlog', Hlog2, Hlog1, <- !app_assoc; reflexivity|].
  split; [rewrite <- Hf2 in Hf1; set_solver|].
  split.
  { rewrite Hkeys, Map_set_keys. reflexivity. }
  split.
  { rewrite !spawns_app, !length_app.
    assert (spawns evs2 = []) as -> by (unfold evs2; destruct failed; done).
    cbn [length]. lia. }
  split.
  { rewrite !characterWarnings_app, !length_app, Hw1.
    assert (length (characterWarnings evs2) ≤ 1)%nat
      by (unfold evs2; destruct failed; cbn; lia).
    cbn [length]. lia. }
  exact Hall.
Qed.


(** The [try] block with a provider that succeeds, and with one that
    fails. *)
Lemma sheets_succeed character charDir config provider id σ :
  (∀ o σ0, spawn o σ0 = 0) →
  ∃ σ' evs,
    sheets character charDir config provider (blank id) σ
    = (Ok (complete path_join id charDir, None), σ')
    ∧ log σ' = log σ ++ evs
    ∧ characterWarnings evs = []
    ∧ output <$> spawns evs
      = (fun f => path_join [charDir; f])
          <$> ["expressions.png"; "angles.png"; "fullbody.png"; "palette.png"]
    ∧ ∀ p, p ∈ files σ'
           ↔ p ∈ files σ
             ∨ p ∈ (fun f => path_join [charDir; f])
                     <$> ["expressions.png"; "angles.png"; "fullbody.png";
                          "palette.png"].
Proof.
  intros Hok.
  unfold CharacterRefs.sheets, generateExpressionsGrid, generateAnglesGrid,
    generateFullBodyRef, generateColorPalette.
  cbn beta zeta. rewrite !(retry_succeeds _ _ Hok). cbn beta iota zeta.
  match goal with
  | |- context [writeFile ?p4 (emit (EvSpawn ?o4)
                  (writeFile ?p3 (emit (EvSpawn ?o3)
                     (writeFile ?p2 (emit (EvSpawn ?o2)
                        (writeFile ?p1 (emit (EvSpawn ?o1) σ)))))))] =>
      eexists _, [EvSpawn o1; EvSpawn o2; EvSpawn o3; EvSpawn o4]
  end.
  split; [reflexivity|].
  split; [cbn; rewrite <- !app_assoc; reflexivity|].
  split; [reflexivity|]. split; [reflexivity|].
  intros p. cbn. rewrite !elem_of_union, !elem_of_singleton, !elem_of_cons,
    elem_of_nil. tauto.
Qed.

Lemma sheets_fail character charDir config provider id σ :
  (∀ o σ0, spawn o σ0 ≠ 0) →
  ∃ e σ' evs,
    sheets character charDir config provider (blank id) σ
    = (Ok (blank id, Some e), σ')
    ∧ log σ' = log σ ++ evs
    ∧ files σ' = files σ
    ∧ characterWarnings evs = []
    ∧ output <$> spawns evs
      = replicate 3 (path_join [charDir; "expressions.png"]).
Proof.
  intros Hfail.
  unfold CharacterRefs.sheets, generateExpressionsGrid. cbn beta zeta.
  match goal with
  | |- context [callImageGenWithRetry spawn ?o 2 σ] =>
      destruct (retry_fails o σ Hfail) as [e ->];
      exists e; eexists _, [EvSpawn o; EvRetryWarning 1; EvSpawn o;
                             EvRetryWarning 2; EvSpawn o]
  end.
  split; [reflexivity|].
  split; [cbn; rewrite <- !app_assoc; reflexivity|].
  repeat split.
Qed.

Lemma references_succeed config outputDir provider cs :
  (∀ o σ0, spawn o σ0 = 0) →
  ∀ refs σ,
    ∃ refs' σ' evs,
      references cs config outputDir provider refs σ = (Ok refs', σ')
      ∧ log σ' = log σ ++ evs
      ∧ characterWarnings evs = []
      ∧ output <$> spawns evs
        = (cs ≫= fun c =>
             (fun f => path_join [path_join [outputDir; "characters";
                                             char_id c]; f])
               <$> ["expressions.png"; "angles.png"; "fullbody.png";
                    "palette.png"])
      ∧ (∀ p, p ∈ files σ' ↔ p ∈ files σ ∨ p ∈ output <$> spawns evs)
      ∧ ∀ id r, (id, r) ∈ refs' →
          (id, r) ∈ refs
          ∨ (id ∈ char_id <$> cs
             ∧ r = complete path_join id
                     (path_join [outputDir; "characters"; id])).
Proof.
  intros Hok. induction cs as [|c cs IH]; intros refs σ.
  { exists refs, σ, []. cbn. rewrite app_nil_r.
    repeat split; try tauto.
    all: try (intros [?|H]; [done|]; apply elem_of_nil in H; destruct H).
    all: try (intros id r H; left; exact H). }
  cbn [CharacterRefs.references].
  destruct (sheets_succeed c (path_join [outputDir; "characters"; char_id c])
              config provider (char_id c) σ Hok)
    as (σ1 & evs1 & Hrun & Hlog1 & Hw1 & Hs1 & Hf1).
  unfold blank in Hrun.
  rewrite (bind_ok _ _ _ _ _ Hrun). cbn beta iota. rewrite bind_ret.
  destruct (IH (Map_set (char_id c)
                  (complete path_join (char_id c)
                     (path_join [outputDir; "characters"; char_id c])) refs)
               σ1)
    as (refs' & σ' & evs & Hrun' & Hlog' & Hw' & Hs' & Hf' & Hall).
  exists refs', σ', (evs1 ++ evs).
  split; [exact Hrun'|].
  split; [rewrite Hlog', Hlog1, <- app_assoc; reflexivity|].
  split; [rewrite characterWarnings_app, Hw1, Hw'; reflexivity|].
  split.
  { rewrite spawns_app, fmap_app, Hs1, Hs'. reflexivity. }
  split.
  { intros p. rewrite Hf', Hf1, spawns_app, fmap_app, elem_of_app, Hs1.
    tauto. }
  intros id r Hin. destruct (Hall id r Hin) as [Hold|[Hid ->]].
  - apply elem_of_Map_set in Hold as [[-> ->]|Hold].
    + right. split; [|reflexivity].
      cbn. apply elem_of_cons. left. reflexivity.
    + left. exact Hold.
  - right. split; [|reflexivity].
    cbn. apply elem_of_cons. right. exact Hid.
Qed.

Lemma references_fail config outputDir provider cs :
  (∀ o σ0, spawn o σ0 ≠ 0) →
  ∀ refs σ,
    ∃ refs' σ' evs,
      references cs config outputDir provider refs σ = (Ok refs', σ')
      ∧ log σ' = log σ ++ evs
      ∧ files σ' = files σ
      ∧ characterWarnings evs = char_id <$> cs
      ∧ output <$> spawns evs
        = (cs ≫= fun c =>
             replicate 3
               (path_join [path_join [outputDir; "characters"; char_id c];
                           "expressions.png"]))
      ∧ ∀ id r, (id, r) ∈ refs' → (id, r) ∈ refs ∨ r = blank id.
Proof.
  intros Hfail. induction cs as [|c cs IH]; intros refs σ.
  { exists refs, σ, []. cbn. rewrite app_nil_r.
    repeat split. intros id r H. left. exact H. }
  cbn [CharacterRefs.references].
  destruct (sheets_fail c (path_join [outputDir; "characters"; char_id c])
              config provider (char_id c) σ Hfail)
    as (e & σ1 & evs1 & Hrun & Hlog1 & Hf1 & Hw1 & Hs1).
  unfold blank in Hrun.
  rewrite (bind_ok _ _ _ _ _ Hrun). cbn beta iota. rewrite bind_tell.
  destruct (IH (Map_set (char_id c) (blank (char_id c)) refs)
               (emit (EvCharacterWarning (char_id c) e) σ1))
    as (refs' & σ' & evs & Hrun' & Hlog' & Hf' & Hw' & Hs' & Hall).
  exists refs', σ', (evs1 ++ [EvCharacterWarning (char_id c) e] ++ evs).
  split; [exact Hrun'|].
  split; [rewrite Hlog'; cbn; rewrite Hlog1, <- !app_assoc; reflexivity|].
  split; [rewrite Hf'; cbn; exact Hf1|].
  split.
  { rewrite !characterWarnings_app, Hw1, Hw'. reflexivity. }
  split.
  { rewrite !spawns_app, !fmap_app, Hs1, Hs'. reflexivity. }
  intros id r Hin. destruct (Hall id r Hin) as [Hold | ->]; [|right; done].
  apply elem_of_Map_set in Hold as [[-> ->]|Hold]; [right|left]; done.
Qed.

(** X12: with a provider that fails every call, the references of a
    character cost three calls, all for the expressions sheet: the
    other three sheets are not tried.  Each character is warned about
    once, in the order of the configuration, no file appears, and every
    reference returned is blank. *)
Theorem references_when_provider_fails config outputDir provider σ :
  (∀ o σ0, spawn o σ0 ≠ 0) →
  ∃ refs σ' evs,
    generateCharacterReferences config outputDir provider σ = (Ok refs, σ')
    ∧ log σ' = log σ ++ evs
    ∧ files σ' = files σ
    ∧ characterWarnings evs = char_id <$> characters config
    ∧ output <$> spawns evs
      = (characters config ≫= fun c =>
           replicate 3
             (path_join [path_join [outputDir; "characters"; char_id c];
                         "expressions.png"]))
    ∧ ∀ id r, (id, r) ∈ refs → r = blank id.
Proof.
  intros Hfail. unfold CharacterRefs.generateCharacterReferences.
  destruct (references_fail config outputDir provider (characters config)
              Hfail [] σ)
    as (refs & σ' & evs & Hrun & Hlog & Hf & Hw & Hs & Hall).
  exists refs, σ', evs. repeat (split; [assumption|]).
  intros id r Hin. destruct (Hall id r Hin) as [H|H]; [|exact H].
  apply elem_of_nil in H. destruct H.
Qed.

(** X13: with a provider that succeeds, every character gets its four
    sheets with one call each, in the order expressions, angles, full
    body, palette, also when the files are there already: a reference
    sheet is never skipped.  Nobody is warned about, the files that
    appear are the sheets, and every reference returned is complete. *)
Theorem references_when_provider_succeeds config outputDir provider σ :
  (∀ o σ0, spawn o σ0 = 0) →
  ∃ refs σ' evs,
    generateCharacterReferences config outputDir provider σ = (Ok refs, σ')
    ∧ log σ' = log σ ++ evs
    ∧ characterWarnings evs = []
    ∧ output <$> spawns evs
      = (characters config ≫= fun c =>
           (fun f => path_join [path_join [outputDir; "characters";
                                           char_id c]; f])
             <$> ["expressions.png"; "angles.png"; "fullbody.png";
                  "palette.png"])
    ∧ (∀ p, p ∈ files σ' ↔ p ∈ files σ ∨ p ∈ output <$> spawns evs)
    ∧ ∀ id r, (id, r) ∈ refs →
        r = complete path_join id (path_join [outputDir; "characters"; id]).
Proof.
  intros Hok. unfold CharacterRefs.generateCharacterReferences.
  destruct (references_succeed config outputDir provider (characters config)
              Hok [] σ)
    as (refs & σ' & evs & Hrun & Hlog & Hw & Hs & Hf & Hall).
  exists refs, σ', evs. repeat (split; [assumption|]).
  intros id r Hin. destruct (Hall id r Hin) as [H|[_ H]]; [|exact H].
  apply elem_of_nil in H. destruct H.
Qed.

End Collaborators.

Lemma references_when_provider_fails_witness :
  ∃ refs σ',
    generateCharacterReferences Sample.fails Sample.join Sample.sheetPrompt
      cast "out" (Some "google") Sample.empty_world = (Ok refs, σ')
    ∧ characterWarnings (log σ') = ["mia"]
    ∧ output <$> spawns (log σ')
      = replicate 3 "out/characters/mia/expressions.png".
Proof.
  destruct (references_when_provider_fails Sample.fails Sample.join
              Sample.sheetPrompt cast "out" (Some "google")
              Sample.empty_world)
    as (refs & σ' & evs & Hrun & Hlog & _ & Hw & Hs & _).
  { intros o σ0. vm_compute. discriminate. }
  exists refs, σ'. split; [exact Hrun|].
  rewrite Hlog. split; [exact Hw|exact Hs].
Defined.

Lemma references_when_provider_succeeds_witness :
  ∃ refs σ',
    generateCharacterReferences Sample.succeeds Sample.join
      Sample.sheetPrompt cast "out" (Some "google")
      (writeFile "out/characters/mia/expressions.png" Sample.empty_world)
    = (Ok refs, σ')
    ∧ output <$> spawns (log σ')
      = ["out/characters/mia/expressions.png";
         "out/characters/mia/angles.png";
         "out/characters/mia/fullbody.png";
         "out/characters/mia/palette.png"].
Proof.
  destruct (references_when_provider_succeeds Sample.succeeds Sample.join
              Sample.sheetPrompt cast "out" (Some "google")
              (writeFile "out/characters/mia/expressions.png"
                         Sample.empty_world))
    as (refs & σ' & evs & Hrun & Hlog & _ & Hs & _).
  { intros o σ0. reflexivity. }
  exists refs, σ'. split; [exact Hrun|].
  rewrite Hlog. exact Hs.
Defined.

Lemma append_assoc (a b c : string) : (a +:+ b) +:+ c = a +:+ (b +:+ c).
Proof.
  induction a as [|ch a IH]; [reflexivity|].
  change (String ch ((a +:+ b) +:+ c) = String ch (a +:+ (b +:+ c))).
  rewrite IH. reflexivity.
Qed.

(** Joining with "/" is flat. *)
Lemma join_flat : joins_flat Sample.join.
Proof.
  intros a b c d. unfold Sample.join. cbn [String.concat].
  rewrite !append_assoc. reflexivity.
Qed.

Section Panels.
Variable spawn : ImageGenOptions → World → Z.
Variable path_join : list string → string.
Variable sheetPrompt : string → CharacterConfig → FlexicomicConfig → string.

Local Abbreviation generateCharacterReferences :=
  (generateCharacterReferences spawn path_join sheetPrompt).
Local Abbreviation getCharacterReferenceImages :=
  (PromptBuilder.getCharacterReferenceImages path_join).
Local Abbreviation getCharacterReferencePath :=
  (getCharacterReferencePath path_join).

(** X14: once the reference sheets have been generated with a provider
    that succeeds, a panel finds every reference image it asks for: for
    each of its characters that the configuration declares, the
    expressions sheet when the panel gives an expression, the angles
    sheet when it gives an angle, and the full body sheet. *)
Theorem generated_references_are_found
    config outputDir provider σ refs σ' page panel :
  joins_flat path_join →
  (∀ o σ0, spawn o σ0 = 0) →
  generateCharacterReferences config outputDir provider σ = (Ok refs, σ') →
  getCharacterReferenceImages config page panel outputDir σ'
  = wanted path_join config panel outputDir.
Proof.
  intros Hflat Hok Hrun.
  unfold CharacterRefs.generateCharacterReferences in Hrun.
  destruct (references_succeed spawn path_join sheetPrompt config outputDir
              provider (characters config) Hok [] σ)
    as (refs0 & σ0 & evs & Hrun0 & _ & _ & Hs & Hf & _).
  rewrite Hrun0 in Hrun. injection Hrun as -> ->.
  assert (∀ c f, c ∈ characters config →
            f ∈ ["expressions.png"; "angles.png"; "fullbody.png";
                 "palette.png"] →
            path_join [outputDir; "characters"; char_id c; f] ∈ files σ')
    as Hfiles.
  { intros c f Hc Hin. rewrite <- Hflat. apply Hf. right. rewrite Hs.
    apply list_elem_of_bind. exists c. split; [|exact Hc].
    apply list_elem_of_fmap. exists f. done. }
  unfold PromptBuilder.getCharacterReferenceImages, wanted.
  apply Forall_bind_ext, Forall_forall. intros pc _.
  destruct (List.find _ (characters config)) as [c|] eqn:Hfind;
    [|reflexivity].
  apply find_some in Hfind as [Hin _]. apply list_elem_of_In in Hin.
  unfold existsSync.
  rewrite !bool_decide_eq_true_2
    by (apply Hfiles; [exact Hin|rewrite !elem_of_cons; tauto]).
  rewrite !andb_true_r. reflexivity.
Qed.

(** X15: the paths recorded in a reference that is marked as generated
    are the paths that [getCharacterReferencePath] gives for the four
    sheet types, and these files exist. *)
Theorem getCharacterReferencePath_recorded
    config outputDir provider σ refs σ' id r :
  joins_flat path_join →
  generateCharacterReferences config outputDir provider σ = (Ok refs, σ') →
  (id, r) ∈ refs → generated r = true →
  recorded r
  = (fun type => getCharacterReferencePath id type outputDir) <$> sheetTypes
  ∧ ∀ type, type ∈ sheetTypes →
      getCharacterReferencePath id type outputDir ∈ files σ'.
Proof.
  intros Hflat Hrun Hin Hgen.
  unfold CharacterRefs.generateCharacterReferences in Hrun.
  destruct (references_spec spawn path_join sheetPrompt config outputDir
              provider (characters config) [] σ)
    as (refs0 & σ0 & evs & Hrun0 & _ & _ & _ & _ & _ & Hall).
  { intros id0 r0 H0. apply elem_of_nil in H0. destruct H0. }
  rewrite Hrun0 in Hrun. injection Hrun as -> ->.
  destruct (Hall id r Hin) as (_ & Hrec & Hcomplete).
  assert (recorded r
          = (fun type => getCharacterReferencePath id type outputDir)
              <$> sheetTypes) as Heq.
  { rewrite (Hcomplete Hgen).
    unfold recorded, complete, sheetTypes,
      CharacterRefs.getCharacterReferencePath.
    cbn. rewrite !Hflat. reflexivity. }
  split; [exact Heq|].
  intros type Htype. apply Hrec. rewrite Heq.
  apply list_elem_of_fmap. exists type. done.
Qed.

Lemma getCharacterReferenceImages_files config page panel outputDir σ p :
  p ∈ getCharacterReferenceImages config page panel outputDir σ →
  p ∈ files σ.
Proof.
  unfold PromptBuilder.getCharacterReferenceImages. intros Hp.
  apply list_elem_of_bind in Hp as (pc & Hp & Hpc).
  destruct (List.find _ (characters config)) as [c|];
    [|apply elem_of_nil in Hp; destruct Hp].
  unfold existsSync in Hp.
  rewrite !elem_of_app in Hp.
  destruct Hp as [Hp|[Hp|Hp]];
    repeat match type of Hp with
           | context [if ?b then _ else _] => destruct b eqn:?
           end;
    try (apply elem_of_nil in Hp; destruct Hp);
    apply list_elem_of_singleton in Hp as ->;
    repeat match goal with
           | H : _ && _ = true |- _ => apply andb_true_iff in H as [_ H]
           end;
    match goal with
    | H : bool_decide _ = true |- _ => apply bool_decide_eq_true_1 in H
    end; assumption.
Qed.

(** X16: the reference images of a panel are files that exist.  Each is
    the expressions sheet, the angles sheet or the full body sheet of a
    character that the panel shows and the configuration declares (never
    the palette), the expressions sheet only when the panel gives the
    character an expression and the angles sheet only when it gives an
    angle; a panel character that the configuration does not declare
    adds nothing. *)
Theorem reference_images_exist config page panel outputDir σ :
  let found := getCharacterReferenceImages config page panel outputDir σ in
  (∀ p, p ∈ found →
     p ∈ files σ
     ∧ ∃ pc c f,
         pc ∈ panel_characters panel ∧ c ∈ characters config
         ∧ char_id c = character_id pc
         ∧ f ∈ ["expressions.png"; "angles.png"; "fullbody.png"]
         ∧ p = path_join [outputDir; "characters"; char_id c; f]
         ∧ (f = "expressions.png" →
            PromptBuilder.present (expression pc) = true)
         ∧ (f = "angles.png" → PromptBuilder.present (angle pc) = true))
  ∧ (length found ≤ 3 * length (panel_characters panel))%nat
  ∧ ((∀ pc c, pc ∈ panel_characters panel → c ∈ characters config →
        char_id c ≠ character_id pc) →
     found = []).
Proof.
  intros found. unfold found, PromptBuilder.getCharacterReferenceImages.
  split; [|split].
  - intros p Hp. apply list_elem_of_bind in Hp as (pc & Hp & Hpc).
    destruct (List.find _ (characters config)) as [c|] eqn:Hfind;
      [|apply elem_of_nil in Hp; destruct Hp].
    apply find_some in Hfind as [Hin Hid].
    apply list_elem_of_In in Hin. apply String.eqb_eq in Hid.
    unfold existsSync in Hp.
    rewrite !elem_of_app in Hp. destruct Hp as [Hp|[Hp|Hp]].
    + destruct (PromptBuilder.present (expression pc)) eqn:Hex;
        [|apply elem_of_nil in Hp; destruct Hp].
      cbn [andb] in Hp. case_bool_decide as Hfile;
        [|apply elem_of_nil in Hp; destruct Hp].
      apply list_elem_of_singleton in Hp as ->. split; [exact Hfile|].
      exists pc, c, "expressions.png".
      repeat split; try done. rewrite !elem_of_cons. tauto.
    + destruct (PromptBuilder.present (angle pc)) eqn:Hex;
        [|apply elem_of_nil in Hp; destruct Hp].
      cbn [andb] in Hp. case_bool_decide as Hfile;
        [|apply elem_of_nil in Hp; destruct Hp].
      apply list_elem_of_singleton in Hp as ->. split; [exact Hfile|].
      exists pc, c, "angles.png".
      repeat split; try done. rewrite !elem_of_cons. tauto.
    + case_bool_decide as Hfile; [|apply elem_of_nil in Hp; destruct Hp].
      apply list_elem_of_singleton in Hp as ->. split; [exact Hfile|].
      exists pc, c, "fullbody.png".
      repeat split; try done. rewrite !elem_of_cons. tauto.
  - induction (panel_characters panel) as [|pc pcs IH]; [cbn; lia|].
    cbn [mbind list_bind]. rewrite length_app. cbn [length].
    match goal with
    | |- (length ?l + _ ≤ _)%nat => assert (length l ≤ 3)%nat
    end.
    { destruct (List.find _ (characters config)); [|cbn; lia].
      rewrite !length_app.
      repeat match goal with
             | |- context [if ?b then _ else _] => destruct b
             end; cbn; lia. }
    change (list_bind _ _ ?f pcs) with (pcs ≫= f). lia.
  - intros Hnone. induction (panel_characters panel) as [|pc pcs IH];
      [reflexivity|].
    cbn [mbind list_bind].
    destruct (List.find _ (characters config)) as [c|] eqn:Hfind.
    + apply find_some in Hfind as [Hin Hid].
      apply list_elem_of_In in Hin. apply String.eqb_eq in Hid.
      exfalso. apply (Hnone pc c); [apply elem_of_cons; left|..]; done.
    + cbn [app]. apply IH. intros pc' c' Hpc'. apply Hnone.
      apply elem_of_cons. right. exact Hpc'.
Qed.

Variable buildPanelPrompt :
  FlexicomicConfig → PageConfig → PanelConfig → string.

(** X17: the job runner hands only reference images that exist to the
    provider: every call of a job carries the images found when the job
    started, and no list of images at all when none was found. *)
Theorem panel_reference_images_exist item config outputDir provider σ r σ' :
  await (Controller.generateSinglePanel spawn path_join buildPanelPrompt
           getCharacterReferenceImages item config outputDir provider) σ
  = (r, σ') →
  ∃ evs,
    log σ' = log σ ++ evs
    ∧ ∀ o, o ∈ spawns evs →
        match refImages o with
        | Some images =>
            images ≠ []
            ∧ images = getCharacterReferenceImages config (page item)
                         (panel item) outputDir σ
            ∧ ∀ p, p ∈ images → p ∈ files σ
        | None =>
            getCharacterReferenceImages config (page item) (panel item)
                                        outputDir σ = []
        end.
Proof.
  unfold await, Controller.generateSinglePanel.
  unfold mbind at 1, M_bind. rewrite bind_get.
  destruct (existsSync _ σ).
  { cbn. intros H. injection H as <- <-. exists []. rewrite app_nil_r.
    split; [reflexivity|]. intros o Ho. apply elem_of_nil in Ho. destruct Ho. }
  destruct (Controller.panelAspectRatio item) as [a|e].
  2: { cbn. intros H. injection H as <- <-. exists []. rewrite app_nil_r.
       split; [reflexivity|].
       intros o Ho. apply elem_of_nil in Ho. destruct Ho. }
  rewrite bind_tell. cbn [mret M_ret].
  unfold Controller.generateSinglePanel_rest. rewrite bind_get.
  set (σ1 := emit (EvPrompt (page_id (page item)) (panel_id (panel item))) σ).
  assert (getCharacterReferenceImages config (page item) (panel item)
                                      outputDir σ1
          = getCharacterReferenceImages config (page item) (panel item)
                                        outputDir σ) as Hsame by reflexivity.
  rewrite Hsame.
  match goal with
  | |- context [Adapter.callImageGenWithRetry spawn ?o 2 σ1] =>
      destruct (AdapterProps.callImageGenWithRetry_calls spawn o σ1)
        as (r1 & σ2 & evs & k & Hrun & Hlog & _ & Hks)
  end.
  rewrite Hrun. intros H. injection H as <- <-.
  exists (EvPrompt (page_id (page item)) (panel_id (panel item)) :: evs).
  split.
  { rewrite Hlog. unfold σ1. cbn. rewrite <- app_assoc. reflexivity. }
  intros o Ho.
  change (spawns (EvPrompt (page_id (page item)) (panel_id (panel item))
                    :: evs)) with (spawns evs) in Ho.
  rewrite Hks in Ho. apply elem_of_replicate in Ho as [-> _].
  cbn [refImages].
  pose proof (getCharacterReferenceImages_files config (page item)
                (panel item) outputDir σ) as Hexist.
  destruct (getCharacterReferenceImages config (page item) (panel item)
              outputDir σ) as [|p l]; [reflexivity|].
  split; [discriminate|]. split; [reflexivity|].
  intros q Hq. apply Hexist, Hq.
Qed.

End Panels.

Lemma generated_references_are_found_witness :
  ∃ refs σ',
    generateCharacterReferences Sample.succeeds Sample.join
      Sample.sheetPrompt cast "out" (Some "google") Sample.empty_world
    = (Ok refs, σ')
    ∧ PromptBuilder.getCharacterReferenceImages Sample.join cast
        Sample.page1 closeUp "out" σ'
      = ["out/characters/mia/expressions.png";
         "out/characters/mia/fullbody.png"].
Proof.
  destruct (generateCharacterReferences Sample.succeeds Sample.join
              Sample.sheetPrompt cast "out" (Some "google")
              Sample.empty_world) as [[refs|e] σ'] eqn:Hrun;
    [|vm_compute in Hrun; discriminate].
  exists refs, σ'. split; [reflexivity|].
  rewrite (generated_references_are_found Sample.succeeds Sample.join
             Sample.sheetPrompt cast "out" (Some "google")
             Sample.empty_world refs σ' Sample.page1 closeUp join_flat
             (fun _ _ => eq_refl) Hrun).
  reflexivity.
Defined.

Lemma getCharacterReferencePath_recorded_witness :
  ∃ refs σ',
    generateCharacterReferences Sample.succeeds Sample.join
      Sample.sheetPrompt cast "out" (Some "google") Sample.empty_world
    = (Ok refs, σ')
    ∧ getCharacterReferencePath Sample.join "mia" "palette" "out" ∈ files σ'.
Proof.
  destruct (generateCharacterReferences Sample.succeeds Sample.join
              Sample.sheetPrompt cast "out" (Some "google")
              Sample.empty_world) as [[refs|e] σ'] eqn:Hrun;
    [|vm_compute in Hrun; discriminate].
  assert (refs = [("mia", complete Sample.join "mia" "out/characters/mia")])
    as Hrefs.
  { vm_compute in Hrun. injection Hrun as <- _. reflexivity. }
  exists refs, σ'. split; [reflexivity|].
  destruct (getCharacterReferencePath_recorded Sample.succeeds Sample.join
              Sample.sheetPrompt cast "out" (Some "google")
              Sample.empty_world refs σ' "mia"
              (complete Sample.join "mia" "out/characters/mia")
              join_flat Hrun) as [_ Hfiles].
  - rewrite Hrefs. apply list_elem_of_singleton. reflexivity.
  - reflexivity.
  - apply Hfiles. unfold sheetTypes. rewrite !elem_of_cons. tauto.
Defined.

Lemma panel_reference_images_exist_witness :
  ∃ r σ',
    await (Controller.generateSinglePanel Sample.succeeds Sample.join
             Sample.promptOf
             (PromptBuilder.getCharacterReferenceImages Sample.join)
             (job Sample.page1 closeUp) cast "out" "google")
          (writeFile "out/characters/mia/fullbody.png" Sample.empty_world)
    = (r, σ')
    ∧ ∀ o, o ∈ spawns (log σ') →
           refImages o = Some ["out/characters/mia/fullbody.png"].
Proof.
  destruct (await (Controller.generateSinglePanel Sample.succeeds
                     Sample.join Sample.promptOf
                     (PromptBuilder.getCharacterReferenceImages Sample.join)
                     (job Sample.page1 closeUp) cast "out" "google")
                  (writeFile "out/characters/mia/fullbody.png"
                             Sample.empty_world)) as [r σ'] eqn:Hrun.
  exists r, σ'. split; [reflexivity|].
  destruct (panel_reference_images_exist Sample.succeeds Sample.join
              Sample.promptOf (job Sample.page1 closeUp) cast "out"
              "google" _ r σ' Hrun) as (evs & Hlog & Hall).
  intros o Ho. rewrite Hlog in Ho. cbn [log writeFile Sample.empty_world]
    in Ho. cbn [app] in Ho.
  specialize (Hall o Ho).
  destruct (refImages o) as [images|].
  - destruct Hall as (_ & -> & _). reflexivity.
  - vm_compute in Hall. discriminate.
Defined.

End ReferenceProps.

(** ** Selections that are rejected *)

Module RejectionProps.
Import JS Validation SelectionVocabulary ValidationProps.

(** A loop that throws does so at its first item whose body throws. *)
Lemma for_of_first_error {A X S} (f : A → option X)
    (body : A → S → Result S) (err : A → JS.error) :
  (∀ a s, match f a with
          | Some x => ∃ s', body a s = Ok s'
          | None => body a s = Throw (err a)
          end) →
  ∀ l s e,
    for_of l body s = Throw e
    ↔ ∃ pre a post, l = pre ++ a :: post
                    ∧ Forall (fun p => is_Some (f p)) pre
                    ∧ f a = None ∧ e = err a.
Proof.
  intros Hbody. induction l as [|a l IH]; intros s e.
  { cbn. split; [discriminate|].
    intros (pre & a & post & H & _). destruct pre; discriminate. }
  cbn [for_of]. specialize (Hbody a s).
  destruct (f a) as [x|] eqn:Hfa.
  - destruct Hbody as [s' ->]. cbn. rewrite IH. split.
    + intros (pre & b & post & -> & Hpre & Hb & He).
      exists (a :: pre), b, post. split; [reflexivity|].
      split; [constructor; [rewrite Hfa; eauto|exact Hpre]|]. done.
    + intros (pre & b & post & Heq & Hpre & Hb & He).
      destruct pre as [|a' pre]; cbn in Heq; injection Heq as <- ->.
      * congruence.
      * apply Forall_cons in Hpre as [_ Hpre]. exists pre, b, post. done.
  - rewrite Hbody. cbn. split.
    + intros H. injection H as <-. exists [], a, l.
      split; [reflexivity|]. split; [constructor|]. done.
    + intros (pre & b & post & Heq & Hpre & Hb & He).
      destruct pre as [|a' pre]; cbn in Heq; injection Heq as <- ->.
      * subst e. reflexivity.
      * apply Forall_cons in Hpre as [[y Hy] _]. congruence.
Qed.



End RejectionProps.

(** ** Runs of the pipeline *)

Module PipelineProps.
Import JS Layout Adapter Validation Controller Pipeline.

Section Jobs.
Variable spawn : ImageGenOptions → World → Z.
Variable path_join : list string → string.
Variable buildPanelPrompt :
  FlexicomicConfig → PageConfig → PanelConfig → string.
Variable getCharacterReferenceImages :
  FlexicomicConfig → PageConfig → PanelConfig → string → World →
  list string.

Local Abbreviation generateSinglePanel :=
  (generateSinglePanel spawn path_join buildPanelPrompt
                       getCharacterReferenceImages).
Local Abbreviation generatePanelSequential :=
  (generatePanelSequential spawn path_join buildPanelPrompt
                           getCharacterReferenceImages).
Local Abbreviation generatePanelParallel :=
  (generatePanelParallel spawn path_join buildPanelPrompt
                         getCharacterReferenceImages).
Local Abbreviation outputPath := (outputPath path_join).

(** How a job ends: when it throws, no aspect ratio could be computed
    for the panel, or the provider has failed. *)
Lemma job_outcome item config outputDir provider σ :
  ∃ r σ' evs,
    await (generateSinglePanel item config outputDir provider) σ = (r, σ')
    ∧ log σ' = log σ ++ evs
    ∧ ∀ e, r = Throw e →
           panelAspectRatio item = Throw e
           ∨ ∃ code, code ≠ 0 ∧ e = failure code.
Proof.
  unfold await, Controller.generateSinglePanel.
  unfold mbind at 1, M_bind. rewrite bind_get.
  destruct (existsSync _ σ).
  { exists (Ok tt), σ, []. rewrite app_nil_r.
    split; [reflexivity|]. split; [reflexivity|]. discriminate. }
  destruct (panelAspectRatio item) as [a|e0].
  2: { exists (Throw e0), σ, []. rewrite app_nil_r.
       split; [reflexivity|]. split; [reflexivity|].
       intros e He. injection He as <-. left. reflexivity. }
  rewrite bind_tell. cbn [mret M_ret].
  unfold Controller.generateSinglePanel_rest. rewrite bind_get.
  unfold callImageGenWithRetry. change (Z.to_nat (2 + 1)) with 3%nat.
  match goal with
  | |- context [retry_loop spawn ?o 2 3 0 Null ?σ1] =>
      destruct (AdapterProps.retry_loop_spec spawn o 2 3 0 Null σ1)
        as (r & σ' & evs & Hrun & Hlog & _ & _ & Hr)
  end.
  exists r, σ',
    (EvPrompt (page_id (page item)) (panel_id (panel item)) :: evs).
  split; [exact Hrun|].
  split; [rewrite Hlog; cbn; rewrite <- app_assoc; reflexivity|].
  intros e He. subst r.
  destruct Hr as (_ & _ & σl & pre & _ & _ & Hne & ->).
  right. eexists. split; [exact Hne|reflexivity].
Qed.

(** A job with a provider that succeeds. *)
Lemma job_succeeds item config outputDir provider σ :
  (∀ o σ0, spawn o σ0 = 0) →
  is_ok (panelAspectRatio item) →
  ∃ σ' evs,
    await (generateSinglePanel item config outputDir provider) σ
    = (Ok tt, σ')
    ∧ log σ' = log σ ++ evs
    ∧ output <$> spawns evs
      = (if bool_decide (outputPath outputDir (panel item) ∈ files σ)
         then [] else [outputPath outputDir (panel item)])
    ∧ files σ' = {[outputPath outputDir (panel item)]} ∪ files σ.
Proof.
  intros Hok [a Ha].
  unfold await, Controller.generateSinglePanel.
  unfold mbind at 1, M_bind. rewrite bind_get. unfold existsSync.
  case_bool_decide as Hfile.
  { exists σ, []. rewrite app_nil_r. repeat split. set_solver. }
  rewrite Ha, bind_tell. cbn [mret M_ret].
  unfold Controller.generateSinglePanel_rest. rewrite bind_get.
  rewrite (ReferenceProps.retry_succeeds spawn _ _ Hok).
  eexists _, [EvPrompt _ _; EvSpawn _].
  split; [reflexivity|].
  split; [cbn; rewrite <- app_assoc; reflexivity|].
  split; reflexivity.
Qed.

(** The loop of the sequential strategy over numbered jobs. *)
Lemma sequential_throws total config outputDir provider
    (l : list (nat * PanelToGenerate)) :
  ∀ σ e σ',
    forM l (fun '(i, item) =>
      tell (EvStatus (Z.of_nat i + 1) total (panel_id (panel item)));;
      await (generateSinglePanel item config outputDir provider)) σ
    = (Throw e, σ') →
    ∃ evs item,
      log σ' = log σ ++ evs
      ∧ (∃ i id, EvStatus i total id ∈ evs)
      ∧ item ∈ l.*2
      ∧ (panelAspectRatio item = Throw e
         ∨ ∃ code, code ≠ 0 ∧ e = failure code).
Proof.
  induction l as [|[i item] l IH]; intros σ e σ' Hrun; [discriminate|].
  cbn [forM] in Hrun.
  set (status := EvStatus (Z.of_nat i + 1) total (panel_id (panel item)))
    in *.
  destruct (job_outcome item config outputDir provider (emit status σ))
    as (r & σ1 & evs1 & Hjob & Hlog1 & Hr).
  unfold mbind at 1, M_bind in Hrun.
  rewrite bind_tell, Hjob in Hrun.
  destruct r as [[]|e1].
  - destruct (IH σ1 e σ' Hrun) as (evs & item' & Hlog & _ & Hin & He).
    exists (status :: evs1 ++ evs), item'.
    split; [rewrite Hlog, Hlog1; cbn; rewrite <- !app_assoc; reflexivity|].
    split; [exists (Z.of_nat i + 1), (panel_id (panel item));
            apply elem_of_cons; left; reflexivity|].
    split; [cbn; apply elem_of_cons; right; exact Hin|exact He].
  - injection Hrun as <- <-.
    exists (status :: evs1), item.
    split; [rewrite Hlog1; cbn; rewrite <- !app_assoc; reflexivity|].
    split; [exists (Z.of_nat i + 1), (panel_id (panel item));
            apply elem_of_cons; left; reflexivity|].
    split; [cbn; apply elem_of_cons; left; reflexivity|].
    apply Hr. reflexivity.
Qed.

Lemma imap_pairs_snd {A} (l : list A) (k : nat) :
  (imap (fun i a => ((k + i)%nat, a)) l).*2 = l.
Proof.
  revert k. induction l as [|a l IH]; intros k; [reflexivity|].
  rewrite imap_cons. cbn [fmap list_fmap snd]. f_equal.
  erewrite imap_ext; [apply (IH (S k))|]. intros i x _. cbn. f_equal. lia.
Qed.

Lemma generatePanelSequential_throws panels config outputDir provider
    σ e σ' :
  generatePanelSequential panels config outputDir provider σ
  = (Throw e, σ') →
  ∃ evs item,
    log σ' = log σ ++ evs
    ∧ (∃ i id, EvStatus i (Z.of_nat (length panels)) id ∈ evs)
    ∧ item ∈ panels
    ∧ (panelAspectRatio item = Throw e
       ∨ ∃ code, code ≠ 0 ∧ e = failure code).
Proof.
  unfold Controller.generatePanelSequential. intros Hrun.
  apply sequential_throws in Hrun as (evs & item & Hlog & Hst & Hin & He).
  exists evs, item. split; [exact Hlog|]. split; [exact Hst|].
  split; [|exact He].
  rewrite <- (imap_pairs_snd panels 0). exact Hin.
Qed.

Lemma sequential_succeeds total config outputDir provider
    (l : list (nat * PanelToGenerate)) :
  (∀ o σ0, spawn o σ0 = 0) →
  (∀ item, item ∈ l.*2 → is_ok (panelAspectRatio item)) →
  ∀ σ,
    ∃ σ' evs,
      forM l (fun '(i, item) =>
        tell (EvStatus (Z.of_nat i + 1) total (panel_id (panel item)));;
        await (generateSinglePanel item config outputDir provider)) σ
      = (Ok tt, σ')
      ∧ log σ' = log σ ++ evs
      ∧ NoDup (output <$> spawns evs)
      ∧ (∀ p, p ∈ output <$> spawns evs
              ↔ (p ∉ files σ)
                ∧ p ∈ (fun item => outputPath outputDir (panel item))
                        <$> l.*2)
      ∧ (∀ p, p ∈ files σ'
              ↔ p ∈ files σ
                ∨ p ∈ (fun item => outputPath outputDir (panel item))
                        <$> l.*2).
Proof.
  intros Hok. induction l as [|[i item] l IH]; intros Hratio σ.
  { exists σ, []. rewrite app_nil_r. cbn.
    split; [reflexivity|]. split; [reflexivity|].
    split; [constructor|].
    split; intros p; rewrite elem_of_nil; tauto. }
  cbn [forM].
  set (status := EvStatus (Z.of_nat i + 1) total (panel_id (panel item))).
  destruct (job_succeeds item config outputDir provider (emit status σ) Hok)
    as (σ1 & evs1 & Hjob & Hlog1 & Hs1 & Hf1).
  { apply Hratio. cbn. apply elem_of_cons. left. reflexivity. }
  destruct (IH (fun it Hit => Hratio it ltac:(cbn; apply elem_of_cons;
                                               right; exact Hit)) σ1)
    as (σ' & evs & Hrun & Hlog & Hnd & Hs & Hf).
  exists σ', (status :: evs1 ++ evs).
  split.
  { unfold mbind at 1, M_bind. rewrite bind_tell, Hjob. exact Hrun. }
  split; [rewrite Hlog, Hlog1; cbn; rewrite <- !app_assoc; reflexivity|].
  change (spawns (status :: evs1 ++ evs)) with (spawns (evs1 ++ evs)).
  rewrite spawns_app, fmap_app, Hs1.
  change (files (emit status σ)) with (files σ) in *.
  set (p0 := outputPath outputDir (panel item)) in *.
  cbn [fmap list_fmap snd].
  change (list_fmap _ _ snd l) with (l.*2).
  change (list_fmap _ _ (fun item0 => outputPath outputDir (panel item0))
            (l.*2))
    with ((fun item0 => outputPath outputDir (panel item0)) <$> l.*2).
  assert (∀ p, p ∈ files σ1 ↔ p = p0 ∨ p ∈ files σ) as Hin1.
  { intros p. rewrite Hf1, elem_of_union, elem_of_singleton. reflexivity. }
  clear Hf1 Hjob Hlog1 Hlog Hrun IH Hratio.
  split; [|split].
  - case_bool_decide as Hfile; cbn [app]; [exact Hnd|].
    constructor; [|exact Hnd].
    intros Hin. apply Hs in Hin as [Hnot _]. apply Hnot, Hin1.
    left. reflexivity.
  - intros p. rewrite elem_of_app, Hs, Hin1, elem_of_cons.
    case_bool_decide as Hfile.
    + rewrite elem_of_nil. split.
      * intros [[]|[Hnot Hin]]. split; [tauto|]. right. exact Hin.
      * intros [Hnot [->|Hin]]; [contradiction|].
        right. split; [|exact Hin]. intros [->|?]; contradiction.
    + rewrite list_elem_of_singleton. split.
      * intros [->|[Hnot Hin]]; [split; [exact Hfile|left; reflexivity]|].
        split; [tauto|]. right. exact Hin.
      * intros [Hnot [->|Hin]]; [left; reflexivity|].
        destruct (decide (p = p0)) as [->|Hne]; [left; reflexivity|].
        right. split; [tauto|exact Hin].
  - intros p. rewrite Hf, Hin1, elem_of_cons. tauto.
Qed.

(** X20: with a provider that succeeds, a sequential run over jobs whose
    aspect ratios can be computed returns, asks the provider exactly
    once for each panel file that is missing, and never for a file that
    is there; afterwards the files of all its jobs exist. *)
Theorem sequential_run_completes panels config outputDir provider σ :
  (∀ o σ0, spawn o σ0 = 0) →
  (∀ item, item ∈ panels → is_ok (panelAspectRatio item)) →
  ∃ σ' evs,
    generatePanelSequential panels config outputDir provider σ = (Ok tt, σ')
    ∧ log σ' = log σ ++ evs
    ∧ NoDup (output <$> spawns evs)
    ∧ (∀ p, p ∈ output <$> spawns evs
            ↔ (p ∉ files σ)
              ∧ p ∈ (fun item => outputPath outputDir (panel item))
                      <$> panels)
    ∧ (∀ p, p ∈ files σ'
            ↔ p ∈ files σ
              ∨ p ∈ (fun item => outputPath outputDir (panel item))
                      <$> panels).
Proof.
  intros Hok Hratio. unfold Controller.generatePanelSequential.
  pose proof (sequential_succeeds (Z.of_nat (length panels)) config
                outputDir provider
                (imap (fun i item => (i, item)) panels) Hok) as H.
  assert ((imap (fun i item => (i, item)) panels).*2 = panels) as Heq
    by exact (imap_pairs_snd panels 0).
  rewrite Heq in H. exact (H Hratio σ).
Qed.

(** The concurrent strategy returns. *)
Lemma generatePanelParallel_returns panels config outputDir options σ :
  ∃ σ', generatePanelParallel panels config outputDir options σ
        = (Ok tt, σ').
Proof.
  unfold Controller.generatePanelParallel.
  pose proof (ControllerProps.clamp_concurrency_range (concurrency options))
    as Hrange.
  destruct (ControllerProps.batch_loop_spec spawn path_join buildPanelPrompt
              getCharacterReferenceImages
              (Z.to_nat (clamp_concurrency (concurrency options)))
              panels config outputDir (par_provider options) ltac:(lia)
              (length panels) 0%nat (set_completed 0 σ))
    as (σ' & evs & Hrun & _).
  eexists. rewrite bind_modify, (bind_ok _ _ _ _ _ Hrun), bind_get.
  reflexivity.
Qed.

End Jobs.

Lemma sequential_run_completes_witness :
  ∃ σ',
    sequential Sample.succeeds page1_jobs resumed_world = (Ok tt, σ')
    ∧ output <$> spawns (log σ')
      ≡ₚ ["out/panels/p1-b.png"; "out/panels/p1-c.png"].
Proof.
  destruct (sequential_run_completes Sample.succeeds Sample.join
              Sample.promptOf Sample.noRefs page1_jobs Sample.project
              "out" "google" resumed_world)
    as (σ' & evs & Hrun & Hlog & Hnd & Hs & _).
  { intros o σ0. reflexivity. }
  { intros item Hin. vm_compute in Hin.
    repeat (apply elem_of_cons in Hin as [->|Hin];
            [eexists; vm_compute; reflexivity|]).
    apply elem_of_nil in Hin. destruct Hin. }
  exists σ'. split; [exact Hrun|].
  rewrite Hlog. cbn [log resumed_world writeFile Sample.empty_world app].
  apply NoDup_Permutation; [exact Hnd| |].
  { apply NoDup_cons. split; [|apply NoDup_singleton].
    intros H. apply list_elem_of_singleton in H. discriminate. }
  intros p. rewrite Hs.
  change ((fun item => outputPath Sample.join "out" (panel item))
            <$> page1_jobs)
    with ["out/panels/p1-a.png"; "out/panels/p1-b.png";
          "out/panels/p1-c.png"].
  unfold resumed_world, writeFile. cbn [files Sample.empty_world].
  rewrite elem_of_union, elem_of_singleton, elem_of_empty, !elem_of_cons,
    elem_of_nil.
  split.
  - intros [Hnot [->|H]]; tauto.
  - intros [->|[->|[]]];
      (split; [intros [?|[]]; discriminate|tauto]).
Defined.

Lemma bind_lift {A B} (r : Result A) (f : A → M B) σ :
  (lift r ≫= f) σ
  = match r with Ok a => f a σ | Throw e => (Throw e, σ) end.
Proof. destruct r; reflexivity. Qed.

Lemma forM_extends {A} (body : A → M unit) (l : list A) :
  (∀ a σ, ∃ r σ' evs, body a σ = (r, σ') ∧ log σ' = log σ ++ evs) →
  ∀ σ, ∃ r σ' evs, forM l body σ = (r, σ') ∧ log σ' = log σ ++ evs.
Proof.
  intros Hbody. induction l as [|a l IH]; intros σ.
  { exists (Ok tt), σ, []. rewrite app_nil_r. done. }
  cbn [forM]. destruct (Hbody a σ) as (r & σ1 & evs1 & Hrun & Hlog1).
  destruct r as [[]|e].
  - rewrite (bind_ok _ _ _ _ _ Hrun).
    destruct (IH σ1) as (r & σ' & evs & Hrun' & Hlog).
    exists r, σ', (evs1 ++ evs). split; [exact Hrun'|].
    rewrite Hlog, Hlog1, <- app_assoc. reflexivity.
  - rewrite (bind_throw _ _ _ _ _ Hrun). exists (Throw e), σ1, evs1. done.
Qed.

Section Comic.
Variable spawn : ImageGenOptions → World → Z.
Variable path_join : list string → string.
Variable buildPanelPrompt :
  FlexicomicConfig → PageConfig → PanelConfig → string.
Variable getCharacterReferenceImages :
  FlexicomicConfig → PageConfig → PanelConfig → string → World →
  list string.
Variable characterPrompt :
  string → CharacterConfig → FlexicomicConfig → string.
Variable resolveProvider : option string → Result string.
Variable render :
  PageConfig → PageSize → list (string * PanelBounds) → World →
  option JS.error.

Local Abbreviation generateComic :=
  (generateComic spawn path_join buildPanelPrompt
     getCharacterReferenceImages characterPrompt resolveProvider render).

(** The character references of the pipeline never throw. *)
Lemma references_return config outputDir provider σ :
  ∃ σ' evs,
    Pipeline.generateCharacterReferences spawn path_join characterPrompt
      config outputDir provider σ = (Ok tt, σ')
    ∧ log σ' = log σ ++ evs.
Proof.
  unfold Pipeline.generateCharacterReferences.
  revert σ. induction (characters config) as [|c cs IH]; intros σ.
  { exists σ, []. rewrite app_nil_r. done. }
  cbn [forM].
  match goal with
  | |- context [try_catch (forM referenceSheets ?body) ?handler] =>
      destruct (forM_extends body referenceSheets) with (σ := σ)
        as (r & σ1 & evs1 & Hrun & Hlog1)
  end.
  { intros [kind ratio] σ0.
    destruct (AdapterProps.callImageGenWithRetry_calls spawn
                {| o_prompt := characterPrompt kind c config;
                   output := path_join [path_join [outputDir; "characters";
                                                   char_id c];
                                        kind +:+ ".png"];
                   ar := Some ratio; quality := Some "2k";
                   provider := Some provider; refImages := None |} σ0)
      as (r & σ' & evs & k & Hrun & Hlog & _).
    exists r, σ', evs. done. }
  destruct r as [[]|e].
  - erewrite bind_ok; [|apply try_ok; exact Hrun].
    destruct (IH σ1) as (σ' & evs & Hrun' & Hlog).
    exists σ', (evs1 ++ evs). split; [exact Hrun'|].
    rewrite Hlog, Hlog1, <- app_assoc. reflexivity.
  - erewrite bind_ok;
      [|erewrite try_throw; [reflexivity|exact Hrun]].
    destruct (IH (emit (EvCharacterWarning (char_id c) e) σ1))
      as (σ' & evs & Hrun' & Hlog).
    exists σ', (evs1 ++ [EvCharacterWarning (char_id c) e] ++ evs).
    split; [exact Hrun'|].
    rewrite Hlog. cbn. rewrite Hlog1, <- !app_assoc. reflexivity.
Qed.


End Comic.

End PipelineProps.

(** ** The name of the PDF file *)

Module FileNameProps.
Import FileNames RunVocabulary.

Lemma removeReserved_spec name :
  Forall (fun c => reserved c = false) (removeReserved name).
Proof.
  unfold removeReserved. induction name as [|c name IH]; [constructor|].
  cbn [List.filter]. destruct (reserved c) eqn:Hc; cbn [negb]; [exact IH|].
  constructor; assumption.
Qed.

Lemma removeReserved_id name :
  Forall (fun c => reserved c = false) name → removeReserved name = name.
Proof.
  unfold removeReserved. induction 1 as [|c name Hc _ IH]; [reflexivity|].
  cbn [List.filter]. rewrite Hc. cbn [negb]. f_equal. exact IH.
Qed.

Lemma removeReserved_nil name :
  removeReserved name = [] ↔ Forall (fun c => reserved c = true) name.
Proof.
  unfold removeReserved. induction name as [|c name IH].
  { split; [constructor|reflexivity]. }
  cbn [List.filter]. destruct (reserved c) eqn:Hc; cbn [negb].
  - rewrite IH. split; [intros H; constructor; assumption|].
    intros H. inversion H; assumption.
  - split; [discriminate|]. intros H. inversion H; congruence.
Qed.

Lemma replaceWhiteSpace_spec inRun name :
  Forall (fun c => reserved c = false) name →
  Forall plain (replaceWhiteSpace inRun name).
Proof.
  intros H. revert inRun. induction H as [|c name Hc _ IH]; intros inRun;
    [constructor|].
  cbn [replaceWhiteSpace]. destruct (whiteSpace c) eqn:Hw.
  - destruct inRun; [apply IH|].
    constructor; [split; reflexivity|apply IH].
  - constructor; [split; assumption|apply IH].
Qed.

Lemma replaceWhiteSpace_id inRun name :
  Forall (fun c => whiteSpace c = false) name →
  replaceWhiteSpace inRun name = name.
Proof.
  intros H. revert inRun. induction H as [|c name Hc _ IH]; intros inRun;
    [reflexivity|].
  cbn [replaceWhiteSpace]. rewrite Hc. f_equal. apply IH.
Qed.

Lemma replaceWhiteSpace_nil name :
  replaceWhiteSpace false name = [] ↔ name = [].
Proof.
  destruct name as [|c name]; [done|]. cbn [replaceWhiteSpace].
  destruct (whiteSpace c); done.
Qed.

(** A name of at most 100 plain code units is kept as it is. *)
Lemma sanitizeFilename_plain name :
  Forall plain name → (length name ≤ 100)%nat →
  sanitizeFilename name = name.
Proof.
  intros Hplain Hlen. unfold sanitizeFilename.
  rewrite removeReserved_id, replaceWhiteSpace_id, take_ge; [done|lia| |].
  - eapply Forall_impl; [exact Hplain|]. intros c [_ Hw]. exact Hw.
  - eapply Forall_impl; [exact Hplain|]. intros c [Hr _]. exact Hr.
Qed.

(** X22: the name [sanitizeFilename] gives has at most 100 code units,
    none of them reserved or white space; sanitizing it again changes
    nothing; and it is empty exactly when every code unit of the given
    name is reserved (the empty name included). *)
Theorem sanitizeFilename_safe name :
  (length (sanitizeFilename name) ≤ 100)%nat
  ∧ Forall plain (sanitizeFilename name)
  ∧ sanitizeFilename (sanitizeFilename name) = sanitizeFilename name
  ∧ (sanitizeFilename name = []
     ↔ Forall (fun c => reserved c = true) name).
Proof.
  assert (length (sanitizeFilename name) ≤ 100)%nat as Hlen.
  { unfold sanitizeFilename. rewrite length_take. lia. }
  assert (Forall plain (sanitizeFilename name)) as Hplain.
  { unfold sanitizeFilename. apply Forall_take, replaceWhiteSpace_spec,
      removeReserved_spec. }
  split; [exact Hlen|]. split; [exact Hplain|].
  split; [apply sanitizeFilename_plain; assumption|].
  rewrite <- removeReserved_nil.
  rewrite <- (replaceWhiteSpace_nil (removeReserved name)).
  unfold sanitizeFilename.
  destruct (replaceWhiteSpace false (removeReserved name)) as [|c l];
    [done|]. split; discriminate.
Qed.

(** The title [My Comic:  Part 1?] gives [My-Comic-Part-1]. *)
Example sanitizeFilename_sample :
  sanitizeFilename sampleTitle
  = [77; 121; 45; 67; 111; 109; 105; 99; 45; 80; 97; 114; 116; 45; 49].
Proof. vm_compute. reflexivity. Qed.

End FileNameProps.

(** ** The retry wrapper with any number of retries *)

Module RetryProps.
Import JS Adapter Vocabulary RunVocabulary AdapterProps.

Lemma retryWarnings_app evs1 evs2 :
  retryWarnings (evs1 ++ evs2) = retryWarnings evs1 ++ retryWarnings evs2.
Proof. apply omap_app. Qed.

Section Provider.
Variable spawn : ImageGenOptions → World → Z.

(** The loop with [n] iterations left, the last of them being attempt
    number [maxRetries]: the provider is started [k] times, and each
    failed call that is not the last one allowed is followed by a
    warning with the number of the call. *)
Lemma retry_loop_warnings options maxRetries (n : nat) :
  ∀ attempt lastError σ,
  attempt + Z.of_nat n = maxRetries + 1 →
  ∃ r σ' evs (k : nat),
    retry_loop spawn options maxRetries n attempt lastError σ = (r, σ')
    ∧ log σ' = log σ ++ evs
    ∧ (k ≤ n)%nat
    ∧ spawns evs = replicate k options
    ∧ retryWarnings evs
      = (fun i => attempt + Z.of_nat i) <$> seq 1 (k - 1)
    ∧ match r with
      | Ok _ => (1 ≤ k)%nat ∧ files σ' = {[output options]} ∪ files σ
      | Throw e => k = n ∧ files σ' = files σ
                   ∧ (n = 0%nat → e = lastError)
                   ∧ (n ≠ 0%nat → ∃ code, code ≠ 0 ∧ e = failure code)
      end.
Proof.
  induction n as [|n IH]; intros attempt lastError σ Hn.
  - exists (Throw lastError), σ, [], 0%nat. cbn. rewrite app_nil_r.
    repeat split; done.
  - cbn [retry_loop].
    destruct (decide (spawn options σ = 0)) as [Hz|Hnz].
    + exists (Ok tt), (writeFile (output options) (emit (EvSpawn options) σ)),
        [EvSpawn options], 1%nat.
      rewrite (try_ok _ _ _ _ _ (callImageGen_success spawn options σ Hz)).
      cbn. repeat split; lia.
    + rewrite (try_throw _ _ _ _ _ (callImageGen_fail spawn options σ Hnz)).
      destruct (IH (attempt + 1) (failure (spawn options σ))
                   (if decide (attempt < maxRetries)
                    then emit (EvRetryWarning (attempt + 1))
                              (emit (EvSpawn options) σ)
                    else emit (EvSpawn options) σ) ltac:(lia))
        as (r & σ' & evs & k & Hrun & Hlog & Hk & Hsp & Hw & Hr).
      assert (n ≠ 0%nat → (1 ≤ k)%nat) as Hpos.
      { intros Hn0. destruct r as [[]|e]; [apply Hr|].
        destruct Hr as [-> _]. lia. }
      destruct (decide (attempt < maxRetries)) as [Hlt|Hge].
      * exists r, σ', (EvSpawn options :: EvRetryWarning (attempt + 1) :: evs),
          (S k).
        split; [exact Hrun|].
        split; [rewrite Hlog; cbn; rewrite <- !app_assoc; reflexivity|].
        split; [lia|].
        split; [cbn; f_equal; exact Hsp|].
        split.
        { change (retryWarnings (EvSpawn options
                                 :: EvRetryWarning (attempt + 1) :: evs))
            with ((attempt + 1) :: retryWarnings evs).
          rewrite Hw. destruct k as [|k]; [lia|].
          replace (S (S k) - 1)%nat with (S k) by lia.
          replace (S k - 1)%nat with k by lia.
          cbn [seq]. rewrite fmap_cons.
          replace (attempt + Z.of_nat 1) with (attempt + 1) by lia.
          apply (f_equal (cons (attempt + 1))).
          rewrite <- (fmap_S_seq 1 k), <- list_fmap_compose.
          apply list_fmap_ext. intros i x _. cbn. lia. }
        destruct r as [[]|e].
        -- destruct Hr as [_ Hf]. split; [lia|exact Hf].
        -- destruct Hr as (-> & Hf & H0 & Hcode).
           split; [reflexivity|]. split; [exact Hf|].
           split; [discriminate|]. intros _.
           destruct (decide (n = 0%nat)) as [Hn0|Hn0]; [lia|].
           apply Hcode, Hn0.
      * assert (n = 0%nat) as -> by lia.
        assert (k = 0%nat) as -> by lia.
        exists r, σ', (EvSpawn options :: evs), 1%nat.
        split; [exact Hrun|].
        split; [rewrite Hlog; cbn; rewrite <- !app_assoc; reflexivity|].
        split; [lia|].
        split; [cbn; f_equal; exact Hsp|].
        split; [exact Hw|].
        destruct r as [[]|e]; [destruct Hr; lia|].
        destruct Hr as (_ & Hf & H0 & _).
        split; [reflexivity|]. split; [exact Hf|].
        split; [discriminate|]. intros _.
        exists (spawn options σ). split; [exact Hnz|]. apply H0. reflexivity.
Qed.

(** X23: [callImageGenWithRetry] with any number of retries.  With a
    negative number it throws [null] without starting the provider.
    Otherwise it starts the provider [k] times with the options given,
    between once and [maxRetries + 1] times, and prints a warning
    numbered 1 to [k - 1] after each call but the last; it returns when
    the last call succeeds, with the output file in place, and throws
    the error of a failed call otherwise, after [maxRetries + 1]
    calls. *)
Theorem callImageGenWithRetry_attempts options maxRetries σ :
  ∃ r σ' evs,
    callImageGenWithRetry spawn options maxRetries σ = (r, σ')
    ∧ log σ' = log σ ++ evs
    ∧ (maxRetries < 0 → r = Throw Null ∧ σ' = σ)
    ∧ ((0 ≤ maxRetries)%Z →
       ∃ k : nat,
         (1 ≤ k)%nat ∧ (Z.of_nat k ≤ maxRetries + 1)%Z
         ∧ spawns evs = replicate k options
         ∧ retryWarnings evs = Z.of_nat <$> seq 1 (k - 1)
         ∧ match r with
           | Ok _ => files σ' = {[output options]} ∪ files σ
           | Throw e => Z.of_nat k = maxRetries + 1
                        ∧ files σ' = files σ
                        ∧ ∃ code, code ≠ 0 ∧ e = failure code
           end).
Proof.
  unfold callImageGenWithRetry.
  destruct (decide (maxRetries < 0)) as [Hneg|Hpos].
  - exists (Throw Null), σ, [].
    replace (Z.to_nat (maxRetries + 1)) with 0%nat by lia.
    split; [reflexivity|]. split; [rewrite app_nil_r; reflexivity|].
    split; [done|lia].
  - destruct (retry_loop_warnings options maxRetries
                (Z.to_nat (maxRetries + 1)) 0 Null σ ltac:(lia))
      as (r & σ' & evs & k & Hrun & Hlog & Hk & Hsp & Hw & Hr).
    exists r, σ', evs. split; [exact Hrun|]. split; [exact Hlog|].
    split; [lia|]. intros _. exists k.
    assert (1 ≤ k)%nat as Hk1.
    { destruct r as [[]|e]; [apply Hr|]. destruct Hr as [-> _]. lia. }
    split; [exact Hk1|]. split; [lia|]. split; [exact Hsp|].
    split; [rewrite Hw; apply list_fmap_ext; intros i x _; cbn; lia|].
    destruct r as [[]|e]; [apply Hr|].
    destruct Hr as (-> & Hf & _ & Hcode).
    split; [lia|]. split; [exact Hf|]. apply Hcode. lia.
Qed.

End Provider.

End RetryProps.

(** ** A run without a selection *)

Module CoverageProps.
Import JS Validation Pipeline Vocabulary RunVocabulary EnumerationProps.

Lemma page_jobs_all (g : nat → nat) pageIndex pg (l : list PanelConfig) :
  panel <$> (imap (fun i p => (g i, p)) l ≫= fun '(k, p) =>
               [ {| page := pg; panel := p; pageIndex := pageIndex;
                    panelIndex := Z.of_nat k |} ])
  = l.
Proof.
  revert g. induction l as [|p l IH]; intros g; [reflexivity|].
  rewrite imap_cons. cbn [mbind list_bind app fmap list_fmap panel].
  f_equal. apply (IH (g ∘ S)).
Qed.

Lemma page_jobs_panels pageIndex pg :
  panel <$> page_jobs pageIndex pg None = panels (layout pg).
Proof. apply (page_jobs_all id). Qed.

Lemma collectPanels_from config (pre rest : list PageConfig) :
  pages config = pre ++ rest →
  panel <$> collectPanels config
              (imap (fun i _ => Z.of_nat (length pre + i) + 1) rest) None
  = (pg ← rest; panels (layout pg)).
Proof.
  revert pre. induction rest as [|pg rest IH]; intros pre Hpages;
    [reflexivity|].
  rewrite collectPanels_unfold, imap_cons.
  cbn [mbind list_bind]. rewrite fmap_app.
  assert (nth_Z (pages config) (Z.of_nat (length pre + 0) + 1 - 1) = Some pg)
    as ->.
  { unfold nth_Z. rewrite decide_True by lia.
    replace (Z.to_nat (Z.of_nat (length pre + 0) + 1 - 1)) with (length pre)
      by lia.
    rewrite Hpages. apply list_lookup_middle. reflexivity. }
  rewrite page_jobs_panels. f_equal.
  specialize (IH (pre ++ [pg])). rewrite <- app_assoc in IH.
  specialize (IH Hpages). rewrite collectPanels_unfold in IH.
  rewrite <- IH. f_equal. f_equal. apply imap_ext. intros i x _. cbn.
  rewrite length_app. cbn. lia.
Qed.

(** X24: when neither pages nor panels are selected (the options are
    absent or empty), the jobs of [generateComic] are the panels of the
    project, each one once, page after page in the order of the
    configuration. *)
Theorem no_selection_covers_every_panel options config :
  given (opt_pages options) = None →
  given (opt_panels options) = None →
  ∃ pagesToGenerate,
    selectPages options config = Ok pagesToGenerate
    ∧ selectPanels options config = Ok None
    ∧ panel <$> collectPanels config pagesToGenerate None
      = allPanels config.
Proof.
  intros Hpages Hpanels. exists (allPages config).
  unfold selectPages, selectPanels. rewrite Hpages, Hpanels.
  split; [reflexivity|]. split; [reflexivity|].
  apply (collectPanels_from config []). reflexivity.
Qed.

Lemma no_selection_covers_every_panel_witness :
  panel_id <$> (panel <$> collectPanels Sample.project
                            (allPages Sample.project) None)
  = panel_id <$> allPanels Sample.project.
Proof.
  destruct (no_selection_covers_every_panel
              {| opt_pages := Some EmptyString; opt_panels := None;
                 parallel := false; opt_concurrency := None;
                 opt_provider := None; skipRefs := false;
                 skipComposite := false |}
              Sample.project eq_refl eq_refl)
    as (pagesToGenerate & Hpages & _ & Hall).
  injection Hpages as <-. rewrite Hall. reflexivity.
Defined.

End CoverageProps.

(** ** The composition of the pages *)

Module ComposeProps.
Import JS Layout Pipeline Vocabulary RunVocabulary.

Lemma composeLines_app evs1 evs2 :
  composeLines (evs1 ++ evs2) = composeLines evs1 ++ composeLines evs2.
Proof. apply omap_app. Qed.

Lemma composed_app evs1 evs2 :
  composed (evs1 ++ evs2) = composed evs1 ++ composed evs2.
Proof. apply omap_app. Qed.

Section Collaborators.
Variable path_join : list string → string.
Variable render :
  PageConfig → PageSize → list (string * PanelBounds) → World →
  option JS.error.

(** The composition of one page fails and leaves the world as it is, or
    leaves the file of the page behind. *)
Lemma compositeSinglePage_cases pg config panelsDir pagesDir σ :
  (∃ e, compositeSinglePage path_join render pg config panelsDir pagesDir σ
        = (Throw e, σ))
  ∨ compositeSinglePage path_join render pg config panelsDir pagesDir σ
    = (Ok tt, writeFile (path_join [pagesDir; page_id pg +:+ ".png"]) σ).
Proof.
  unfold compositeSinglePage, lift, mbind, M_bind, get, raise, modify.
  destruct (calculatePageSize config) as [pageSize|e];
    [|left; exists e; reflexivity].
  match goal with
  | |- context [render ?a ?b ?c ?d] => destruct (render a b c d) as [e|]
  end; [left; exists e|right]; reflexivity.
Qed.


End Collaborators.

End ComposeProps.
